(** * LTTB downsampling (src/data/lttbSample.ts): a shallow embedding

    The file models the three functions of the sampler

    - [lttbIndicesForInterleavedXY] (interleaved [Float32Array] input),
    - [lttbIndicesForDataPoints]    (array of tuple / object points),
    - [lttbSample]                  (the exported entry point, one
                                     definition per overload family),

    over IEEE 754 binary64 numbers as specified by [SpecFloat] of the
    Standard Library, and proves the properties of the index sequence
    they compute. *)

From Stdlib Require Import ZArith List Lia Bool Sorted.
From Stdlib Require Import SpecFloat.
From stdpp Require Import base list.

Open Scope Z_scope.

(** ** JavaScript numbers *)

Module Num.

(** A JS [number] is a binary64 value. *)
Definition number : Type := spec_float.

Definition prec : Z := 53.
Definition emax : Z := 1024.

Definition NaN : number := S754_nan.
Definition zero : number := S754_zero false.

Definition add : number -> number -> number := SFadd prec emax.
Definition sub : number -> number -> number := SFsub prec emax.
Definition mul : number -> number -> number := SFmul prec emax.
Definition div : number -> number -> number := SFdiv prec emax.
Definition neg : number -> number := SFopp.

(** [a < b] and [a > b]; both are false as soon as an operand is NaN. *)
Definition lt (a b : number) : bool := SFltb a b.
Definition gt (a b : number) : bool :=
  match SFcompare a b with Some Gt => true | _ => false end.
Definition le (a b : number) : bool := SFleb a b.

Definition is_nan (a : number) : bool :=
  match a with S754_nan => true | _ => false end.

Definition is_finite (a : number) : bool :=
  match a with S754_zero _ | S754_finite _ _ _ => true | _ => false end.

(** The number that holds the integer [z]: integers are numbers in JS,
    and every integer the sampler handles is below 2^53, so exact. *)
Definition of_Z (z : Z) : number := binary_normalize prec emax z 0 false.

(** The result of [Math.floor]: an integer, an infinity or NaN. *)
Inductive floored : Type :=
| FInt (z : Z)
| FInf (negative : bool)
| FNaN.

Definition Math_floor (x : number) : floored :=
  match x with
  | S754_zero _ => FInt 0
  | S754_infinity s => FInf s
  | S754_nan => FNaN
  | S754_finite s m e =>
      let sm := if s then Z.neg m else Z.pos m in
      FInt (match e with
            | Z.neg k => sm / 2 ^ Z.pos k
            | _ => sm * 2 ^ e
            end)
  end.

(** Comparisons of a floored value with an integer. *)
Definition floored_le_Z (a : floored) (z : Z) : bool :=
  match a with
  | FInt x => x <=? z
  | FInf negative => negative
  | FNaN => false
  end.

Definition Z_le_floored (z : Z) (a : floored) : bool :=
  match a with
  | FInt x => z <=? x
  | FInf negative => negb negative
  | FNaN => false
  end.

Definition floored_eq_Z (a : floored) (z : Z) : bool :=
  match a with
  | FInt x => x =? z
  | _ => false
  end.

(** 32-bit conversions of the typed arrays and of [>>>]. *)
Definition toInt32 (z : Z) : Z := (z + 2 ^ 31) mod 2 ^ 32 - 2 ^ 31.
Definition toUint32 (z : Z) : Z := z mod 2 ^ 32.

End Num.

Import Num.

(** ** Outcomes of a call *)

(** A call returns a value, throws (the [TypeError] of a property read on
    [undefined], the [RangeError] of an invalid array length), or leaves
    the integers: [NonIntegral] stands for a bucket boundary
    [Math.floor(bucketSize * k)] that is NaN or infinite, which the
    integer loop counters of this embedding do not represent.
    [bucket_boundaries] shows that it does not happen on the
    bucketed path. *)
Inductive outcome (A : Type) : Type :=
| Returns (a : A)
| Throws
| NonIntegral.

Arguments Returns {A} a.
Arguments Throws {A}.
Arguments NonIntegral {A}.

#[global] Instance outcome_ret : MRet outcome := fun A a => Returns a.
#[global] Instance outcome_bind : MBind outcome := fun A B f m =>
  match m with
  | Returns a => f a
  | Throws => Throws
  | NonIntegral => NonIntegral
  end.

(** ** Typed arrays and point arrays *)

(** A [Float32Array] is the list of the numbers its slots read as. A value
    read from a [Float32Array] is a binary32 value, so writing it to
    another [Float32Array] stores it unchanged. *)
Definition Float32Array : Type := list number.

(** [data[i]] used as a number: a read outside the array is [undefined],
    hence NaN in arithmetic and in a typed-array store. *)
Definition f32_get (data : Float32Array) (i : Z) : number :=
  if i <? 0 then NaN else default NaN (data !! Z.to_nat i).

(** [data.length >>> 1] *)
Definition half_length (data : Float32Array) : Z :=
  Z.shiftr (toUint32 (Z.of_nat (length data))) 1.

Definition Int32Array : Type := list Z.

(** [new Int32Array(len)] *)
Definition i32_new (len : Z) : Int32Array := replicate (Z.to_nat len) 0.

(** [arr[i] = v]: the value wraps to 32 bits; a store outside the array
    is ignored. *)
Definition i32_set (arr : Int32Array) (i v : Z) : Int32Array :=
  if i <? 0 then arr else <[Z.to_nat i := toInt32 v]> arr.

(** [new Int32Array([v0, v1, ...])] *)
Definition i32_of_list (vs : list Z) : Int32Array := map toInt32 vs.

(** [for (let i = 0; i < n; i++) indices[i] = i] on [new Int32Array(n)] *)
Definition i32_identity (n : Z) : Int32Array :=
  map (fun i => toInt32 (Z.of_nat i)) (seq 0 (Z.to_nat n)).

(** [DataPoint]: a positional pair [[x, y]] or a record [{x, y}]. *)
Inductive DataPoint : Type :=
| TuplePoint (x y : number)
| ObjectPoint (x y : number).

Definition isTupleDataPoint (point : DataPoint) : bool :=
  match point with TuplePoint _ _ => true | ObjectPoint _ _ => false end.

(** [data[i]] on a point array: [None] is [undefined]. *)
Definition arr_get {A : Type} (data : list A) (i : Z) : option A :=
  if i <? 0 then None else data !! Z.to_nat i.

(** [p[0]], [p[1]], [p.x], [p.y]: a property the point does not have
    reads as [undefined], NaN in arithmetic. *)
Definition elem0 (p : DataPoint) : number :=
  match p with TuplePoint x _ => x | ObjectPoint _ _ => NaN end.
Definition elem1 (p : DataPoint) : number :=
  match p with TuplePoint _ y => y | ObjectPoint _ _ => NaN end.
Definition field_x (p : DataPoint) : number :=
  match p with ObjectPoint x _ => x | TuplePoint _ _ => NaN end.
Definition field_y (p : DataPoint) : number :=
  match p with ObjectPoint _ y => y | TuplePoint _ _ => NaN end.

(** [isTupleDataPoint(p) ? p[0] : p.x] after [const p = data[i]!]: the
    property read throws when [p] is [undefined]. *)
Definition point_x (p : option DataPoint) : outcome number :=
  match p with
  | None => Throws
  | Some p => Returns (if isTupleDataPoint p then elem0 p else field_x p)
  end.

Definition point_y (p : option DataPoint) : outcome number :=
  match p with
  | None => Throws
  | Some p => Returns (if isTupleDataPoint p then elem1 p else field_y p)
  end.

(** ** Bucket planning and the triangle metric

    The two index functions contain the same text for the bucket ranges
    and for the area; it is written once here. *)

(** [Math.floor(bucketSize * k)] *)
Definition floor_mul (bucketSize : number) (k : Z) : outcome Z :=
  match Math_floor (mul bucketSize (of_Z k)) with
  | FInt z => Returns z
  | _ => NonIntegral
  end.

(** [rangeStart] and [rangeEndExclusive] of a bucket, after the defensive
    adjustment. *)
Definition currentRange (bucketSize : number) (lastIndex bucket : Z)
  : outcome (Z * Z) :=
  f0 ← floor_mul bucketSize bucket;
  f1 ← floor_mul bucketSize (bucket + 1);
  let rangeStart := f0 + 1 in
  let rangeEndExclusive := Z.min (f1 + 1) lastIndex in
  if rangeStart >=? rangeEndExclusive then
    let rangeStart := Z.min rangeStart (lastIndex - 1) in
    let rangeEndExclusive := Z.min (rangeStart + 1) lastIndex in
    mret (rangeStart, rangeEndExclusive)
  else
    mret (rangeStart, rangeEndExclusive).

(** [nextRangeStart] and [nextRangeEndExclusive] *)
Definition nextRange (bucketSize : number) (lastIndex bucket : Z)
  : outcome (Z * Z) :=
  f1 ← floor_mul bucketSize (bucket + 1);
  f2 ← floor_mul bucketSize (bucket + 2);
  mret (f1 + 1, Z.min (f2 + 1) lastIndex).

Definition area2 (ax ay avgX avgY bx by_ : number) : number :=
  sub (mul (sub ax avgX) (sub by_ ay)) (mul (sub ax bx) (sub avgY ay)).

(** [area2 < 0 ? -area2 : area2] *)
Definition absArea2 (a : number) : number :=
  if lt a (of_Z 0) then neg a else a.

(** ** Indices for an interleaved buffer *)

Section InterleavedXY.

Variable data : Float32Array.

(** The averaging loop: [count] iterations from index [i]. *)
Fixpoint sumXY (count : nat) (i : Z) (sumX sumY : number) (avgCount : Z)
  : number * number * Z :=
  match count with
  | O => (sumX, sumY, avgCount)
  | S count' =>
      sumXY count' (i + 1)
        (add sumX (f32_get data (i * 2 + 0)))
        (add sumY (f32_get data (i * 2 + 1)))
        (avgCount + 1)
  end.

Definition averageXY (lastX lastY : number) (nextRangeStart nextRangeEndExclusive : Z)
  : number * number :=
  if nextRangeStart <? nextRangeEndExclusive then
    let '(sumX, sumY, avgCount) :=
      sumXY (Z.to_nat (nextRangeEndExclusive - nextRangeStart))
            nextRangeStart (of_Z 0) (of_Z 0) 0 in
    if 0 <? avgCount then
      (div sumX (of_Z avgCount), div sumY (of_Z avgCount))
    else (lastX, lastY)
  else (lastX, lastY).

(** The candidate loop: [count] iterations from index [i]; returns
    [maxIndex]. *)
Fixpoint candidatesXY (ax ay avgX avgY : number) (count : nat) (i : Z)
                      (maxArea : number) (maxIndex : Z) : Z :=
  match count with
  | O => maxIndex
  | S count' =>
      let bx := f32_get data (i * 2 + 0) in
      let by_ := f32_get data (i * 2 + 1) in
      let absA := absArea2 (area2 ax ay avgX avgY bx by_) in
      if gt absA maxArea
      then candidatesXY ax ay avgX avgY count' (i + 1) absA i
      else candidatesXY ax ay avgX avgY count' (i + 1) maxArea maxIndex
  end.

(** One bucket: the index it selects. *)
Definition bucketXY (bucketSize lastX lastY : number) (lastIndex bucket a : Z)
  : outcome Z :=
  '(rangeStart, rangeEndExclusive) ← currentRange bucketSize lastIndex bucket;
  '(nextRangeStart, nextRangeEndExclusive) ← nextRange bucketSize lastIndex bucket;
  let '(avgX, avgY) :=
    averageXY lastX lastY nextRangeStart nextRangeEndExclusive in
  let ax := f32_get data (a * 2 + 0) in
  let ay := f32_get data (a * 2 + 1) in
  mret (candidatesXY ax ay avgX avgY
          (Z.to_nat (rangeEndExclusive - rangeStart)) rangeStart
          (of_Z (-1)) rangeStart).

(** The bucket loop: [count] iterations from [bucket]. *)
Fixpoint bucketsXY (bucketSize lastX lastY : number) (lastIndex : Z)
                   (count : nat) (bucket a out : Z) (indices : Int32Array)
  : outcome Int32Array :=
  match count with
  | O => mret indices
  | S count' =>
      maxIndex ← bucketXY bucketSize lastX lastY lastIndex bucket a;
      bucketsXY bucketSize lastX lastY lastIndex count' (bucket + 1)
                maxIndex (out + 1) (i32_set indices out maxIndex)
  end.

Definition lttbIndicesForInterleavedXY (targetPoints : floored)
  : outcome Int32Array :=
  let n := half_length data in
  let lastIndex := n - 1 in
  if floored_le_Z targetPoints 0 || (n =? 0) then mret (i32_new 0)
  else if floored_eq_Z targetPoints 1 then mret (i32_of_list [0])
  else if floored_eq_Z targetPoints 2 then
    mret (if 2 <=? n then i32_of_list [0; lastIndex] else i32_of_list [0])
  else if Z_le_floored n targetPoints then mret (i32_identity n)
  else
    match targetPoints with
    | FInt targetPoints =>
        let indices := i32_new targetPoints in
        let indices := i32_set indices 0 0 in
        let indices := i32_set indices (targetPoints - 1) lastIndex in
        let bucketSize := div (of_Z (n - 2)) (of_Z (targetPoints - 2)) in
        let lastX := f32_get data (lastIndex * 2 + 0) in
        let lastY := f32_get data (lastIndex * 2 + 1) in
        bucketsXY bucketSize lastX lastY lastIndex
                  (Z.to_nat (targetPoints - 2)) 0 0 1 indices
    | FNaN =>
        (* every comparison with NaN is false; [new Int32Array(NaN)] is
           empty, the two stores are ignored and the loop does not run *)
        mret (i32_new 0)
    | FInf _ =>
        (* not reached: -Infinity <= 0 and n <= Infinity;
           [new Int32Array(Infinity)] is a RangeError *)
        Throws
    end.

End InterleavedXY.

(** ** Indices for a point array *)

Section DataPoints.

Variable data : list DataPoint.

Fixpoint sumDP (count : nat) (i : Z) (sumX sumY : number) (avgCount : Z)
  : outcome (number * number * Z) :=
  match count with
  | O => mret (sumX, sumY, avgCount)
  | S count' =>
      let p := arr_get data i in
      x ← point_x p;
      y ← point_y p;
      sumDP count' (i + 1) (add sumX x) (add sumY y) (avgCount + 1)
  end.

Definition averageDP (lastX lastY : number) (nextRangeStart nextRangeEndExclusive : Z)
  : outcome (number * number) :=
  if nextRangeStart <? nextRangeEndExclusive then
    '(sumX, sumY, avgCount) ←
      sumDP (Z.to_nat (nextRangeEndExclusive - nextRangeStart))
            nextRangeStart (of_Z 0) (of_Z 0) 0;
    if 0 <? avgCount then
      mret (div sumX (of_Z avgCount), div sumY (of_Z avgCount))
    else mret (lastX, lastY)
  else mret (lastX, lastY).

Fixpoint candidatesDP (ax ay avgX avgY : number) (count : nat) (i : Z)
                      (maxArea : number) (maxIndex : Z) : outcome Z :=
  match count with
  | O => mret maxIndex
  | S count' =>
      let pb := arr_get data i in
      bx ← point_x pb;
      by_ ← point_y pb;
      let absA := absArea2 (area2 ax ay avgX avgY bx by_) in
      if gt absA maxArea
      then candidatesDP ax ay avgX avgY count' (i + 1) absA i
      else candidatesDP ax ay avgX avgY count' (i + 1) maxArea maxIndex
  end.

Definition bucketDP (bucketSize lastX lastY : number) (lastIndex bucket a : Z)
  : outcome Z :=
  '(rangeStart, rangeEndExclusive) ← currentRange bucketSize lastIndex bucket;
  '(nextRangeStart, nextRangeEndExclusive) ← nextRange bucketSize lastIndex bucket;
  '(avgX, avgY) ← averageDP lastX lastY nextRangeStart nextRangeEndExclusive;
  let pa := arr_get data a in
  ax ← point_x pa;
  ay ← point_y pa;
  candidatesDP ax ay avgX avgY
    (Z.to_nat (rangeEndExclusive - rangeStart)) rangeStart
    (of_Z (-1)) rangeStart.

Fixpoint bucketsDP (bucketSize lastX lastY : number) (lastIndex : Z)
                   (count : nat) (bucket a out : Z) (indices : Int32Array)
  : outcome Int32Array :=
  match count with
  | O => mret indices
  | S count' =>
      maxIndex ← bucketDP bucketSize lastX lastY lastIndex bucket a;
      bucketsDP bucketSize lastX lastY lastIndex count' (bucket + 1)
                maxIndex (out + 1) (i32_set indices out maxIndex)
  end.

Definition lttbIndicesForDataPoints (targetPoints : floored)
  : outcome Int32Array :=
  let n := Z.of_nat (length data) in
  let lastIndex := n - 1 in
  if floored_le_Z targetPoints 0 || (n =? 0) then mret (i32_new 0)
  else if floored_eq_Z targetPoints 1 then mret (i32_of_list [0])
  else if floored_eq_Z targetPoints 2 then
    mret (if 2 <=? n then i32_of_list [0; lastIndex] else i32_of_list [0])
  else if Z_le_floored n targetPoints then mret (i32_identity n)
  else
    match targetPoints with
    | FInt targetPoints =>
        let indices := i32_new targetPoints in
        let indices := i32_set indices 0 0 in
        let indices := i32_set indices (targetPoints - 1) lastIndex in
        let bucketSize := div (of_Z (n - 2)) (of_Z (targetPoints - 2)) in
        let pLast := arr_get data lastIndex in
        lastX ← point_x pLast;
        lastY ← point_y pLast;
        bucketsDP bucketSize lastX lastY lastIndex
                  (Z.to_nat (targetPoints - 2)) 0 0 1 indices
    | FNaN =>
        (* as above, but [pLast] is read before the loop: it exists,
           since n is not 0 here *)
        let pLast := arr_get data lastIndex in
        lastX ← point_x pLast;
        lastY ← point_y pLast;
        mret (i32_new 0)
    | FInf _ => Throws
    end.

End DataPoints.

(** ** The exported function *)

(** The two families of arguments and results of [lttbSample]. An element
    of a result array is [None] when it is [undefined]. *)
Inductive series : Type :=
| Buffer (data : Float32Array)
| Points (data : list DataPoint).

Inductive sampled : Type :=
| SampledBuffer (out : Float32Array)
| SampledPoints (out : list (option DataPoint)).

Definition lttbSample (data : series) (targetPoints : number) : outcome sampled :=
  let threshold := Math_floor targetPoints in
  match data with
  | Buffer data =>
      let n := half_length data in
      if floored_le_Z threshold 0 || (n =? 0) then mret (SampledBuffer [])
      else if Z_le_floored n threshold then mret (SampledBuffer data)
      else
        indices ← lttbIndicesForInterleavedXY data threshold;
        mret (SampledBuffer
                (flat_map (fun idx => [f32_get data (idx * 2 + 0);
                                       f32_get data (idx * 2 + 1)])
                          indices))
  | Points data =>
      let n := Z.of_nat (length data) in
      if floored_le_Z threshold 0 || (n =? 0) then mret (SampledPoints [])
      else if Z_le_floored n threshold then mret (SampledPoints (map Some data))
      else
        indices ← lttbIndicesForDataPoints data threshold;
        mret (SampledPoints (map (arr_get data) indices))
  end.

(** ** Notions used by the statements *)

(** The record [mrs] locates the rational [N / D]. *)
Definition locates (N D : Z) (mrs : shr_record) : Prop :=
  0 < D /\ 0 <= shr_m mrs /\
  match shr_r mrs, shr_s mrs with
  | false, false => N = shr_m mrs * D
  | false, true => shr_m mrs * D < N /\ 2 * N < (2 * shr_m mrs + 1) * D
  | true, false => 2 * N = (2 * shr_m mrs + 1) * D
  | true, true => (2 * shr_m mrs + 1) * D < 2 * N /\ N < (shr_m mrs + 1) * D
  end.

(** The bucket boundary [Math.floor(bucketSize * k)], 0 where it is not
    an integer. *)
Definition boundary (bucketSize : number) (k : Z) : Z :=
  match floor_mul bucketSize k with Returns z => z | _ => 0 end.

(** Position of a number that is not NaN in the order of [SFcompare]:
    a sign class, then exponent and mantissa. *)
Definition rank (a : number) : Z * Z * Z :=
  match a with
  | S754_infinity true => (-2, 0, 0)
  | S754_finite true m e => (-1, - e, Z.neg m)
  | S754_zero _ | S754_nan => (0, 0, 0)
  | S754_finite false m e => (1, e, Z.pos m)
  | S754_infinity false => (2, 0, 0)
  end.

Definition lex_compare (u v : Z * Z * Z) : comparison :=
  let '(u1, u2, u3) := u in
  let '(v1, v2, v3) := v in
  match u1 ?= v1 with
  | Eq => match u2 ?= v2 with Eq => u3 ?= v3 | c => c end
  | c => c
  end.

(** [w] is the first index of [rs, re) that carries the largest area:
    no candidate exceeds it, and it exceeds every earlier candidate whose
    area is a number. When no area is a number, [w] is [rs]. *)
Definition first_max (A : Z -> number) (rs re w : Z) : Prop :=
  rs <= w < re /\
  (forall j, rs <= j < re -> gt (A j) (A w) = false) /\
  (forall j, rs <= j < w -> gt (A w) (A j) = true \/ is_nan (A j) = true) /\
  ((forall j, rs <= j < re -> is_nan (A j) = true) -> w = rs) /\
  ((exists j, rs <= j < re /\ is_nan (A j) = false) -> is_nan (A w) = false).

(** State of the candidate loop in front of index [i]. *)
Definition cand_inv (A : Z -> number) (rs i : Z) (maxArea : number) (maxIndex : Z)
  : Prop :=
  (maxArea = of_Z (-1) /\ maxIndex = rs /\
   forall j, rs <= j < i -> is_nan (A j) = true) \/
  (rs <= maxIndex < i /\ maxArea = A maxIndex /\ is_nan maxArea = false /\
   (forall j, rs <= j < i -> gt (A j) maxArea = false) /\
   (forall j, rs <= j < maxIndex -> gt maxArea (A j) = true \/ is_nan (A j) = true)).

(** The area of candidate [i] as the interleaved loop computes it. *)
Definition areaXY (data : Float32Array) (ax ay avgX avgY : number) (i : Z) : number :=
  absArea2 (area2 ax ay avgX avgY (f32_get data (i * 2 + 0)) (f32_get data (i * 2 + 1))).

(** The winners of consecutive buckets from [bucket] on, each one the
    anchor of the next, as [select bucket anchor] returns them. *)
Fixpoint chain (select : Z -> Z -> outcome Z) (bucket a : Z) (ws : list Z) : Prop :=
  match ws with
  | [] => True
  | w :: ws' => select bucket a = Returns w /\ chain select (bucket + 1) w ws'
  end.

(** The coordinates of a point, whichever its shape. *)
Definition coord_x (p : DataPoint) : number :=
  if isTupleDataPoint p then elem0 p else field_x p.
Definition coord_y (p : DataPoint) : number :=
  if isTupleDataPoint p then elem1 p else field_y p.

(** The interleaved buffer that holds the coordinates of a point array. *)
Definition interleave (pts : list DataPoint) : Float32Array :=
  flat_map (fun p => [coord_x p; coord_y p]) pts.

(** The indices 0, 1, ..., n - 1. *)
Definition all_indices (n : Z) : list Z := map Z.of_nat (seq 0 (Z.to_nat n)).

(** The index sequence of [n] points for a floored target count, as the
    size policy and the bucket pass lay it out. *)
Definition index_shape (n : Z) (targetPoints : floored) (idx : list Z) : Prop :=
  match targetPoints with
  | FNaN | FInf true => idx = []
  | FInf false => idx = all_indices n
  | FInt t =>
      if (t <=? 0) || (n =? 0) then idx = []
      else if t =? 1 then idx = [0]
      else if t =? 2 then idx = (if 2 <=? n then [0; n - 1] else [0])
      else if n <=? t then idx = all_indices n
      else exists ws, idx = 0 :: ws ++ [n - 1] /\ Z.of_nat (length ws) = t - 2
  end.

(** Sizes a JS engine can hand to the sampler: [data.length >>> 1] is the
    number of points of a buffer below 2^32 slots, and an index fits an
    [Int32Array] slot below 2^31 points. *)
Definition valid_input (s : series) : Prop :=
  match s with
  | Buffer data => Z.of_nat (length data) < 2 ^ 32
  | Points data => Z.of_nat (length data) < 2 ^ 31
  end.

(** N, the number of input points. *)
Definition pointCount (s : series) : Z :=
  match s with
  | Buffer data => Z.of_nat (length data) / 2
  | Points data => Z.of_nat (length data)
  end.

Definition sampledCount (o : sampled) : Z :=
  match o with
  | SampledBuffer out => Z.of_nat (length out) / 2
  | SampledPoints out => Z.of_nat (length out)
  end.

(** A point of either representation. *)
Inductive point_value : Type :=
| BufferPoint (x y : number)
| ArrayPoint (p : DataPoint).

(** Point [i] of a buffer: slots [2i] and [2i + 1]. *)
Definition buffer_point (data : Float32Array) (i : Z) : option point_value :=
  if i <? 0 then None
  else match data !! Z.to_nat (2 * i), data !! Z.to_nat (2 * i + 1) with
       | Some x, Some y => Some (BufferPoint x y)
       | _, _ => None
       end.

Definition input_point (s : series) (i : Z) : option point_value :=
  match s with
  | Buffer data => buffer_point data i
  | Points data => ArrayPoint <$> arr_get data i
  end.

Definition output_point (o : sampled) (i : Z) : option point_value :=
  match o with
  | SampledBuffer out => buffer_point out i
  | SampledPoints out =>
      match arr_get out i with
      | Some (Some p) => Some (ArrayPoint p)
      | _ => None
      end
  end.

(** The index sequence the sampler selects for an input. *)
Definition selectedIndices (s : series) (targetPoints : number) : outcome Int32Array :=
  match s with
  | Buffer data => lttbIndicesForInterleavedXY data (Math_floor targetPoints)
  | Points data => lttbIndicesForDataPoints data (Math_floor targetPoints)
  end.

(** The buffer of the coordinates of an input, and the coordinates of
    its point [i]. *)
Definition as_buffer (s : series) : Float32Array :=
  match s with
  | Buffer data => data
  | Points data => interleave data
  end.

Definition x_at (s : series) (i : Z) : number := f32_get (as_buffer s) (i * 2 + 0).
Definition y_at (s : series) (i : Z) : number := f32_get (as_buffer s) (i * 2 + 1).

(** The x coordinate of a point value. *)
Definition x_of (pv : point_value) : number :=
  match pv with
  | BufferPoint x _ => x
  | ArrayPoint p => coord_x p
  end.

(** Consecutive points have [x <= x']. *)
Definition x_nondecreasing (point : Z -> option point_value) : Prop :=
  forall i a b, point i = Some a -> point (i + 1) = Some b -> le (x_of a) (x_of b) = true.

(** The passthrough result: the input itself. *)
Definition passthrough (s : series) : sampled :=
  match s with
  | Buffer data => SampledBuffer data
  | Points data => SampledPoints (map Some data)
  end.

Definition empty_like (s : series) : sampled :=
  match s with
  | Buffer _ => SampledBuffer []
  | Points _ => SampledPoints []
  end.

(** The arithmetic mean as the averaging loop computes it: the sum from
    the left, starting at 0, divided by the count. *)
Definition mean (vs : list number) : number :=
  div (fold_left add vs (of_Z 0)) (of_Z (Z.of_nat (length vs))).

(** The indices [i, i + count). *)
Definition index_range (i : Z) (count : nat) : list Z :=
  map (fun k => i + Z.of_nat k) (seq 0 count).

(** The lookahead point of the claim: the mean over the next range, or
    the last point when that range is empty. *)
Definition lookahead (data : Float32Array) (lastX lastY : number) (ns ne : Z)
  : number * number :=
  if ns <? ne then
    (mean (map (fun j => f32_get data (j * 2 + 0)) (index_range ns (Z.to_nat (ne - ns)))),
     mean (map (fun j => f32_get data (j * 2 + 1)) (index_range ns (Z.to_nat (ne - ns)))))
  else (lastX, lastY).

(** The index sequence of the size policy, for the sizes that do not
    reach the bucket pass. *)
Definition policy_indices (n t : Z) : list Z :=
  if (t <=? 0) || (n =? 0) then []
  else if t =? 1 then [0]
  else if t =? 2 then (if 2 <=? n then [0; n - 1] else [0])
  else all_indices n.

Definition twelve_points : list DataPoint :=
  imap (fun i y => TuplePoint (of_Z (Z.of_nat i)) (of_Z y))
       [0; 5; -3; 7; 2; 9; -8; 4; 1; 6; -2; 3].

(** The area of candidate [j] against the anchor [a] and the lookahead
    point [avg]. *)
Definition candidate_area (s : series) (a : Z) (avg : number * number) (j : Z) : number :=
  absArea2 (area2 (x_at s a) (y_at s a) (fst avg) (snd avg) (x_at s j) (y_at s j)).

(** The same point as a positional pair, and as a record. *)
Definition as_tuple (p : DataPoint) : DataPoint := TuplePoint (coord_x p) (coord_y p).
Definition as_object (p : DataPoint) : DataPoint := ObjectPoint (coord_x p) (coord_y p).

(** C9 as stated: a bucket whose candidate areas are all non-finite
    keeps the start of its range. *)
Definition nonfinite_bucket_keeps_start (s : series) (tp : number) (t : Z) : Prop :=
  let n := pointCount s in
  let bs := div (of_Z (n - 2)) (of_Z (t - 2)) in
  forall idx b a w rs re ns ne,
    selectedIndices s tp = Returns idx ->
    0 <= b < t - 2 ->
    idx !! Z.to_nat b = Some a -> idx !! Z.to_nat (b + 1) = Some w ->
    currentRange bs (n - 1) b = Returns (rs, re) ->
    nextRange bs (n - 1) b = Returns (ns, ne) ->
    (forall j, rs <= j < re ->
       is_finite (candidate_area s a
                    (lookahead (as_buffer s) (x_at s (n - 1)) (y_at s (n - 1)) ns ne) j)
       = false) ->
    w = rs.

(** Six points whose interior y values are NaN, Infinity, NaN, NaN. *)
Definition spiked_buffer : Float32Array :=
  [of_Z 0; of_Z 0;
   of_Z 1; NaN;
   of_Z 2; S754_infinity false;
   of_Z 3; NaN;
   of_Z 4; NaN;
   of_Z 5; of_Z 0].

(** The floor of the real-valued product [(n - 2) / (t - 2) * k]. *)
Definition real_floor (n t k : Z) : Z := (n - 2) * k / (t - 2).

(** C7 as stated: the lookahead point is the mean over the range whose
    bounds are the floors of the real-valued products. *)
Definition lookahead_over_real_range (s : series) (t : Z) : Prop :=
  let n := pointCount s in
  let bs := div (of_Z (n - 2)) (of_Z (t - 2)) in
  let lastX := x_at s (n - 1) in
  let lastY := y_at s (n - 1) in
  forall b ns ne,
    0 <= b < t - 2 ->
    nextRange bs (n - 1) b = Returns (ns, ne) ->
    averageXY (as_buffer s) lastX lastY ns ne
    = lookahead (as_buffer s) lastX lastY
        (real_floor n t (b + 1) + 1) (Z.min (real_floor n t (b + 2) + 1) (n - 1)).

(** The points (0, 0), (1, 0), ..., (count - 1, 0). *)
Definition ramp (count : nat) : Float32Array :=
  flat_map (fun i => [of_Z (Z.of_nat i); of_Z 0]) (seq 0 count).

(** Six points whose interior y values are all NaN. *)
Definition nan_buffer : Float32Array :=
  [of_Z 0; of_Z 0;
   of_Z 1; NaN;
   of_Z 2; NaN;
   of_Z 3; NaN;
   of_Z 4; NaN;
   of_Z 5; of_Z 0].

(** ** Notions of the further properties *)

(** The sample as an input of a further call. *)
Definition reinput (o : sampled) : series :=
  match o with
  | SampledBuffer out => Buffer out
  | SampledPoints out => Points (omap id out)
  end.

(** [Math.fround]: the nearest binary32 value, as a number. This is what
    a store into a [Float32Array] keeps. *)
Definition Math_fround (a : number) : number :=
  match a with
  | S754_finite s m e =>
      match binary_normalize 24 128 (if s then Z.neg m else Z.pos m) e s with
      | S754_finite s' m' e' =>
          binary_normalize prec emax (if s' then Z.neg m' else Z.pos m') e' s'
      | r => r
      end
  | _ => a
  end.

(** [Float32Array.from(values)] *)
Definition Float32Array_from (values : list number) : Float32Array :=
  map Math_fround values.

(** The coordinates of the points are binary32 values. *)
Definition binary32_coordinates (pts : list DataPoint) : Prop :=
  Forall (fun p => Math_fround (coord_x p) = coord_x p /\
                   Math_fround (coord_y p) = coord_y p) pts.

(** Four points, the third with y = 1 + 2^-30, which is no binary32
    value. *)
Definition fine_points : list DataPoint :=
  [TuplePoint (of_Z 0) (of_Z 0);
   TuplePoint (of_Z 1) (of_Z 1);
   TuplePoint (of_Z 2) (S754_finite false 4503599631564800 (-52));
   TuplePoint (of_Z 3) (of_Z 0)].

(** ** The acceptance helpers (examples/acceptance/lttb-sample.ts) *)

(** [a >= b] *)
Definition num_ge (a b : number) : bool :=
  match SFcompare a b with Some Gt | Some Eq => true | _ => false end.

(** [d === 0 || (d <= windowHalfWidth && d >= -windowHalfWidth)] for
    [d = j - idx]; the indices are 32-bit integers, so [d] is exact. *)
Definition withinWindow (windowHalfWidth : number) (idx j : Z) : bool :=
  let d := j - idx in
  (d =? 0) || (le (of_Z d) windowHalfWidth && num_ge (of_Z d) (neg windowHalfWidth)).

(** The inner loop over [sampledIndices], left at the first hit. *)
Fixpoint sampledNear (windowHalfWidth : number) (idx : Z) (sampledIndices : Int32Array)
  : bool :=
  match sampledIndices with
  | [] => false
  | j :: rest =>
      if withinWindow windowHalfWidth idx j then true
      else sampledNear windowHalfWidth idx rest
  end.

(** The outer loop, with its counter. *)
Fixpoint countRetainedFrom (extremaIndices sampledIndices : Int32Array)
         (windowHalfWidth : number) (retained : Z) : Z :=
  match extremaIndices with
  | [] => retained
  | idx :: rest =>
      countRetainedFrom rest sampledIndices windowHalfWidth
        (if sampledNear windowHalfWidth idx sampledIndices then retained + 1 else retained)
  end.

Definition countExtremaRetainedWithinWindow
           (extremaIndices sampledIndices : Int32Array) (windowHalfWidth : number) : Z :=
  countRetainedFrom extremaIndices sampledIndices windowHalfWidth 0.

(** ** [topKIndicesByYInterleaved] (examples/acceptance/lttb-sample.ts) *)

Inductive extremum_mode : Type := ModeMax | ModeMin.

(** [Math.min(a, b)]: NaN if either is NaN, and -0 below +0. *)
Definition Math_min (a b : number) : number :=
  if is_nan a || is_nan b then NaN
  else if lt a b then a
  else if lt b a then b
  else match a with S754_zero true => a | _ => b end.

Definition better (mode : extremum_mode) (candidateY worstY : number) : bool :=
  match mode with
  | ModeMax => gt candidateY worstY
  | ModeMin => lt candidateY worstY
  end.

(** The test of the scan for the insertion point, at [ys[pos]]:
    [y <= ys[pos]] for 'max', [y >= ys[pos]] for 'min'. *)
Definition scan_on (mode : extremum_mode) (y yPos : number) : bool :=
  match mode with
  | ModeMax => le y yPos
  | ModeMin => num_ge y yPos
  end.

(** [let pos = 0; while (pos < ys.length && scan_on y ys[pos]) pos++] *)
Fixpoint insertionPoint (mode : extremum_mode) (y : number) (ys : list number) : nat :=
  match ys with
  | [] => 0%nat
  | yPos :: rest =>
      if scan_on mode y yPos then S (insertionPoint mode y rest) else 0%nat
  end.

(** [l.splice(pos, 0, x)] *)
Definition splice {A : Type} (pos : nat) (x : A) (l : list A) : list A :=
  take pos l ++ x :: drop pos l.

(** [insertSorted(idx, y)] on the two parallel arrays [indices] and [ys];
    [pop] is [removelast]. *)
Definition insertSorted (mode : extremum_mode) (kk : number) (idx : Z) (y : number)
           (st : list Z * list number) : list Z * list number :=
  let '(indices, ys) := st in
  if (length indices =? 0)%nat then (indices ++ [idx], ys ++ [y])
  else
    let pos := insertionPoint mode y ys in
    let indices := splice pos idx indices in
    let ys := splice pos y ys in
    if gt (of_Z (Z.of_nat (length indices))) kk
    then (removelast indices, removelast ys)
    else (indices, ys).

(** One turn of the loop over the points; [ys[ys.length - 1]] of an empty
    array is [undefined], which compares as NaN. *)
Definition topK_visit (data : Float32Array) (mode : extremum_mode) (kk : number)
           (st : list Z * list number) (i : Z) : list Z * list number :=
  let y := f32_get data (i * 2 + 1) in
  if negb (is_finite y) then st
  else if lt (of_Z (Z.of_nat (length (fst st)))) kk then insertSorted mode kk i y st
  else
    let worstY := default NaN (last (snd st)) in
    if better mode y worstY then insertSorted mode kk i y st else st.

Definition topKIndicesByYInterleaved (data : Float32Array) (k : number)
           (mode : extremum_mode) : Int32Array :=
  let n := half_length data in
  if le k zero || (n =? 0) then i32_new 0
  else
    let kk := Math_min k (of_Z n) in
    i32_of_list
      (fst (fold_left (topK_visit data mode kk)
                      (map Z.of_nat (seq 0 (Z.to_nat n))) ([], []))).

(** The y value of point [i] of an interleaved buffer. *)
Definition yOf (data : Float32Array) (i : Z) : number := f32_get data (i * 2 + 1).

(** [a] is at least as extreme as [b]: [a >= b] for 'max', [a <= b] for
    'min'. *)
Definition at_least (mode : extremum_mode) (a b : number) : bool :=
  match mode with
  | ModeMax => le b a
  | ModeMin => le a b
  end.

(** Point [j1] ranks before point [j2]: its y is at least as extreme, and
    of two equally extreme points the one with the lower index is first. *)
Definition ranks_before (data : Float32Array) (mode : extremum_mode) (j1 j2 : Z) : Prop :=
  at_least mode (yOf data j1) (yOf data j2) = true /\
  (at_least mode (yOf data j2) (yOf data j1) = true -> j1 < j2).

(** How many of the first [c] points have a finite y. *)
Definition finiteBelow (data : Float32Array) (c : nat) : Z :=
  Z.of_nat (length (List.filter (fun i => is_finite (yOf data i))
                                (map Z.of_nat (seq 0 c)))).

(** [insertSorted] and the loop body on [indices] alone: [ys] holds the y
    values of [indices] throughout (see [topK_fold_map]). *)
Definition insertIdx (data : Float32Array) (mode : extremum_mode) (kk : number)
           (idx : Z) (I : list Z) : list Z :=
  if (length I =? 0)%nat then I ++ [idx]
  else
    let spliced := splice (insertionPoint mode (yOf data idx) (map (yOf data) I)) idx I in
    if gt (of_Z (Z.of_nat (length spliced))) kk then removelast spliced else spliced.

Definition visitIdx (data : Float32Array) (mode : extremum_mode) (kk : number)
           (I : list Z) (i : Z) : list Z :=
  if negb (is_finite (yOf data i)) then I
  else if lt (of_Z (Z.of_nat (length I))) kk then insertIdx data mode kk i I
  else if better mode (yOf data i) (default NaN (option_map (yOf data) (last I)))
       then insertIdx data mode kk i I
  else I.

(** What holds after the first [c] points, for every [kk]. *)
Definition ranked_below (data : Float32Array) (mode : extremum_mode) (c : Z) (I : list Z)
  : Prop :=
  Forall (fun j => 0 <= j < c /\ is_finite (yOf data j) = true) I /\
  StronglySorted (ranks_before data mode) I.

(** What holds in addition when [kk] is the integer [K >= 1]: the list
    has [min K (finite points seen)] entries, and a finite point is left
    out only of a full list, every entry of which ranks before it. *)
Definition top_below (data : Float32Array) (mode : extremum_mode) (K : Z) (c : nat)
           (I : list Z) : Prop :=
  Z.of_nat (length I) = Z.min K (finiteBelow data c) /\
  forall j, 0 <= j < Z.of_nat c -> is_finite (yOf data j) = true -> ~ In j I ->
            Z.of_nat (length I) = K /\ forall m, In m I -> ranks_before data mode m j.

(** * Proofs *)

Lemma digits2_pos_bounds (m : positive) :
  2 ^ (Z.pos (digits2_pos m) - 1) <= Z.pos m < 2 ^ Z.pos (digits2_pos m).
Proof.
  induction m as [m IH | m IH |]; cbn [digits2_pos].
  - rewrite Pos2Z.inj_succ.
    replace (Z.succ (Z.pos (digits2_pos m)) - 1) with (Z.succ (Z.pos (digits2_pos m) - 1)) by lia.
    rewrite !Z.pow_succ_r by lia. lia.
  - rewrite Pos2Z.inj_succ.
    replace (Z.succ (Z.pos (digits2_pos m)) - 1) with (Z.succ (Z.pos (digits2_pos m) - 1)) by lia.
    rewrite !Z.pow_succ_r by lia. lia.
  - cbn. lia.
Qed.

Lemma iter_pos_nat {A : Type} (f : A -> A) (p : positive) (x : A) :
  SpecFloat.iter_pos f p x = Nat.iter (Pos.to_nat p) f x.
Proof.
  revert x. induction p as [p IH | p IH |]; intros x; cbn [SpecFloat.iter_pos].
  - rewrite !IH, Pos2Nat.inj_xI, <- Nat.iter_add, <- Nat.iter_succ_r.
    f_equal. lia.
  - rewrite !IH, Pos2Nat.inj_xO, <- Nat.iter_add. f_equal. lia.
  - reflexivity.
Qed.

Lemma shr_1_locates N D mrs :
  locates N D mrs -> locates N (2 * D) (shr_1 mrs) /\ shr_m (shr_1 mrs) = shr_m mrs / 2.
Proof.
  destruct mrs as [m r s]. unfold locates. cbn [shr_m shr_r shr_s].
  intros (HD & Hm & H).
  destruct m as [| [m | m |] | m]; try lia; cbn [shr_1 shr_m shr_r shr_s].
  - destruct r, s; cbn [orb]; (split; [ lia | reflexivity ]).
  - assert (Z.pos m~1 / 2 = Z.pos m) as ->.
    { rewrite Pos2Z.inj_xI. symmetry. apply Z.div_unique with 1; lia. }
    rewrite Pos2Z.inj_xI in H.
    destruct r, s; cbn [orb]; (split; [ nia | reflexivity ]).
  - assert (Z.pos m~0 / 2 = Z.pos m) as ->.
    { rewrite Pos2Z.inj_xO. symmetry. apply Z.div_unique with 0; lia. }
    rewrite Pos2Z.inj_xO in H.
    destruct r, s; cbn [orb]; (split; [ nia | reflexivity ]).
  - destruct r, s; cbn [orb]; (split; [ lia | reflexivity ]).
Qed.

Lemma iter_shr_1_locates N D mrs (k : nat) :
  locates N D mrs ->
  locates N (2 ^ Z.of_nat k * D) (Nat.iter k shr_1 mrs) /\
  shr_m (Nat.iter k shr_1 mrs) = shr_m mrs / 2 ^ Z.of_nat k.
Proof.
  intros H. induction k as [| k [IH1 IH2]].
  - change (Nat.iter 0 shr_1 mrs) with mrs. change (2 ^ Z.of_nat 0) with 1.
    rewrite Z.mul_1_l, Z.div_1_r. auto.
  - rewrite Nat.iter_succ. destruct (shr_1_locates _ _ _ IH1) as [H1 H2].
    rewrite Nat2Z.inj_succ, Z.pow_succ_r by lia. split.
    + rewrite <- Z.mul_assoc. exact H1.
    + rewrite H2, IH2, Z.div_div by lia. f_equal. lia.
Qed.

Lemma shr_locates N D mrs e n :
  0 <= n -> locates N D mrs ->
  exists mrs', shr mrs e n = (mrs', e + n) /\
               locates N (2 ^ n * D) mrs' /\ shr_m mrs' = shr_m mrs / 2 ^ n.
Proof.
  intros Hn H. destruct n as [| p | p]; try lia.
  - exists mrs. cbn [shr]. rewrite Z.add_0_r. change (2 ^ 0) with 1.
    rewrite Z.mul_1_l, Z.div_1_r. auto.
  - exists (Nat.iter (Pos.to_nat p) shr_1 mrs). cbn [shr].
    rewrite iter_pos_nat. split; [reflexivity |].
    rewrite <- (positive_nat_Z p). apply iter_shr_1_locates, H.
Qed.

Lemma round_nearest_even_locates N D mrs :
  locates N D mrs ->
  let m2 := round_nearest_even (shr_m mrs) (loc_of_shr_record mrs) in
  shr_m mrs <= m2 <= shr_m mrs + 1 /\ - D <= 2 * (m2 * D - N) <= D.
Proof.
  destruct mrs as [m r s]. unfold locates. cbn [shr_m shr_r shr_s].
  intros (HD & Hm & H).
  destruct r, s; cbn [loc_of_shr_record round_nearest_even];
    try destruct (Z.even m); nia.
Qed.

Lemma Zdigits2_unique (m k : Z) :
  0 < m -> 2 ^ (k - 1) <= m < 2 ^ k -> Zdigits2 m = k.
Proof.
  intros Hm [H1 H2]. destruct m as [| p | p]; try lia. cbn [Zdigits2].
  pose proof (digits2_pos_bounds p) as [B1 B2].
  set (d := Z.pos (digits2_pos p)) in *.
  assert (0 < k).
  { destruct (Z_lt_le_dec 0 k) as [|Hk]; [assumption|].
    destruct (Z.eq_dec k 0) as [-> | Hk0]; [cbn in H2; lia |].
    rewrite (Z.pow_neg_r 2 k) in H2 by lia. lia. }
  destruct (Z_lt_le_dec d k) as [Hlt|Hge].
  - assert (2 ^ d <= 2 ^ (k - 1)) by (apply Z.pow_le_mono_r; lia). lia.
  - destruct (Z_lt_le_dec k d) as [Hlt|Hge']; [|lia].
    assert (2 ^ k <= 2 ^ (d - 1)) by (apply Z.pow_le_mono_r; lia). lia.
Qed.

Lemma Zdigits2_bounds (m : Z) :
  0 < m -> 2 ^ (Zdigits2 m - 1) <= m < 2 ^ Zdigits2 m.
Proof.
  intros Hm. destruct m as [| p | p]; try lia. apply digits2_pos_bounds.
Qed.

Lemma Zdigits2_pos (m : Z) : 0 < m -> 0 < Zdigits2 m.
Proof. intros Hm. destruct m as [| p | p]; try lia. cbn. lia. Qed.

(** Rounding of a positive value [N / D * 2 ^ e] whose integer part [m]
    has at least 53 digits, in the normal range. *)
Lemma binary_round_aux_normal s m e l N D :
  0 < m ->
  53 <= Zdigits2 m ->
  - 1074 <= Zdigits2 m + e - 53 ->
  Zdigits2 m + e - 53 + 1 <= 971 ->
  locates N D (shr_record_of_loc m l) ->
  exists (m3 : positive) (e3 m2 : Z),
    binary_round_aux prec emax s m e l = S754_finite s m3 e3 /\
    2 ^ 52 <= Z.pos m3 < 2 ^ 53 /\
    e + Zdigits2 m - 53 <= e3 <= e + Zdigits2 m - 53 + 1 /\
    Z.pos m3 * 2 ^ (e3 - (e + Zdigits2 m - 53)) = m2 /\
    - (2 ^ (Zdigits2 m - 53) * D) <= 2 * (m2 * (2 ^ (Zdigits2 m - 53) * D) - N)
      <= 2 ^ (Zdigits2 m - 53) * D.
Proof.
  intros Hm Hd Hlo Hhi Hloc.
  pose proof (Zdigits2_bounds m Hm) as Hb.
  set (d := Zdigits2 m) in *.
  unfold binary_round_aux, shr_fexp. fold d.
  assert (fexp prec emax (d + e) - e = d - 53) as ->.
  { unfold fexp, emin, prec, emax. lia. }
  destruct (shr_locates N D _ e (d - 53) ltac:(lia) Hloc) as (mrs1 & -> & L1 & M1).
  assert (shr_m (shr_record_of_loc m l) = m) as Hm0 by (destruct l as [|[]]; reflexivity).
  rewrite Hm0 in M1.
  pose proof (round_nearest_even_locates _ _ _ L1) as [R1 R2]. cbv zeta in R1, R2.
  set (m2 := round_nearest_even (shr_m mrs1) (loc_of_shr_record mrs1)) in *.
  assert (2 ^ 52 <= shr_m mrs1 < 2 ^ 53) as Hm1.
  { rewrite M1.
    assert (2 ^ (d - 1) = 2 ^ 52 * 2 ^ (d - 53)) as E1
      by (rewrite <- Z.pow_add_r by lia; f_equal; lia).
    assert (2 ^ d = 2 ^ 53 * 2 ^ (d - 53)) as E2
      by (rewrite <- Z.pow_add_r by lia; f_equal; lia).
    assert (0 < 2 ^ (d - 53)) by (apply Z.pow_pos_nonneg; lia).
    split.
    - apply Z.div_le_lower_bound; lia.
    - apply Z.div_lt_upper_bound; lia. }
  assert (e + (d - 53) = e + d - 53) as -> by lia.
  destruct (Z.eq_dec m2 (2 ^ 53)) as [Heq | Hne].
  - (* the mantissa overflowed to 2^53: one more shift *)
    assert (Zdigits2 m2 = 54) as Hd2.
    { apply Zdigits2_unique; rewrite Heq; cbn; lia. }
    rewrite Hd2.
    assert (fexp prec emax (54 + (e + d - 53)) - (e + d - 53) = 1) as ->.
    { unfold fexp, emin, prec, emax. lia. }
    rewrite Heq. cbn [shr_record_of_loc shr]. 
    exists (2 ^ 52)%positive, (e + d - 53 + 1), m2.
    split.
    { cbn. destruct (Z.leb_spec (e + d - 53 + 1) (emax - prec)) as [|C];
        [reflexivity | unfold emax, prec in C; lia]. }
    split; [cbn; lia|]. split; [lia|]. split.
    { replace (e + d - 53 + 1 - (e + d - 53)) with 1 by lia. rewrite Heq. reflexivity. }
    exact R2.
  - assert (Zdigits2 m2 = 53) as Hd2.
    { apply Zdigits2_unique; [lia|]. change (53 - 1) with 52. lia. }
    rewrite Hd2.
    assert (fexp prec emax (53 + (e + d - 53)) - (e + d - 53) = 0) as ->.
    { unfold fexp, emin, prec, emax. lia. }
    cbn [shr_record_of_loc shr shr_m].
    destruct m2 as [| p2 | p2] eqn:E2; try lia.
    exists p2, (e + d - 53), (Z.pos p2).
    split.
    { destruct (Z.leb_spec (e + d - 53) (emax - prec)) as [|C];
        [reflexivity | unfold emax, prec in C; lia]. }
    split; [lia|]. split; [lia|]. split.
    { rewrite Z.sub_diag. cbn. lia. }
    exact R2.
Qed.

Lemma pos_iter_xO (m k : positive) :
  Z.pos (Pos.iter xO m k) = Z.pos m * 2 ^ Z.pos k.
Proof.
  induction k as [| k IH] using Pos.peano_ind.
  - cbn. lia.
  - rewrite Pos.iter_succ, Pos2Z.inj_xO, IH, Pos2Z.inj_succ, Z.pow_succ_r by lia.
    lia.
Qed.

Lemma locates_exact (m : Z) : 0 <= m -> locates m 1 (shr_record_of_loc m loc_Exact).
Proof. intros Hm. unfold locates. cbn. lia. Qed.

(** The number of a positive integer below 2^53: the integer, with its
    mantissa shifted to 53 digits. *)
Lemma of_Z_pos (z : Z) :
  0 < z < 2 ^ 53 ->
  exists (m : positive) (t : Z),
    of_Z z = S754_finite false m (- t) /\ 0 <= t <= 52 /\
    Z.pos m = z * 2 ^ t /\ 2 ^ 52 <= Z.pos m < 2 ^ 53.
Proof.
  intros [Hz0 Hz]. destruct z as [| p | p]; try lia.
  pose proof (digits2_pos_bounds p) as Hb.
  unfold of_Z, binary_normalize, binary_round.
  set (d := Z.pos (digits2_pos p)) in *.
  assert (1 <= d <= 53) as Hd.
  { split; [unfold d; lia|].
    destruct (Z_lt_le_dec 53 d) as [C|]; [|lia].
    assert (2 ^ 53 <= 2 ^ (d - 1)) by (apply Z.pow_le_mono_r; lia). lia. }
  assert (fexp prec emax (d + 0) = d - 53) as ->
    by (unfold fexp, emin, prec, emax; lia).
  assert (exists mz : positive,
             shl_align p 0 (d - 53) = (mz, d - 53) /\
             Z.pos mz = Z.pos p * 2 ^ (53 - d)) as (mz & -> & Hmz).
  { unfold shl_align. rewrite Z.sub_0_r.
    destruct (d - 53) as [| k | k] eqn:E; try lia.
    - exists p. split; [reflexivity|]. replace (53 - d) with 0 by lia. cbn; lia.
    - exists (Pos.iter xO p k). split; [reflexivity|].
      rewrite pos_iter_xO. do 2 f_equal. lia. }
  assert (2 ^ 52 <= Z.pos mz < 2 ^ 53) as Hmzb.
  { rewrite Hmz.
    assert (2 ^ 52 = 2 ^ (d - 1) * 2 ^ (53 - d)) as ->
      by (rewrite <- Z.pow_add_r by lia; f_equal; lia).
    assert (2 ^ 53 = 2 ^ d * 2 ^ (53 - d)) as ->
      by (rewrite <- Z.pow_add_r by lia; f_equal; lia).
    assert (0 < 2 ^ (53 - d)) by (apply Z.pow_pos_nonneg; lia). nia. }
  assert (Zdigits2 (Z.pos mz) = 53) as Hdz
    by (apply Zdigits2_unique; [lia | change (53 - 1) with 52; lia]).
  destruct (binary_round_aux_normal false (Z.pos mz) (d - 53) loc_Exact
              (Z.pos mz) 1) as (m3 & e3 & m2 & -> & Hm3 & He3 & Hm2 & Hr);
    try (rewrite ?Hdz; lia).
  { apply locates_exact. lia. }
  rewrite Hdz in *. change (2 ^ (53 - 53)) with 1 in Hr.
  assert (m2 = Z.pos mz) as -> by lia.
  assert (e3 = d - 53) as ->.
  { destruct (Z.eq_dec e3 (d - 53)) as [|Hne]; [assumption|].
    replace (e3 - (d - 53 + 53 - 53)) with 1 in Hm2 by lia.
    change (2 ^ 1) with 2 in Hm2. lia. }
  replace (d - 53 - (d - 53 + 53 - 53)) with 0 in Hm2 by lia.
  change (2 ^ 0) with 1 in Hm2.
  exists m3, (53 - d). replace (- (53 - d)) with (d - 53) by lia.
  split; [reflexivity|]. split; [lia|]. split; [|lia].
  rewrite <- Hmz. lia.
Qed.

Lemma new_location_locates (q D r : Z) :
  0 < D -> 0 <= q -> 0 <= r < D ->
  locates (q * D + r) D (shr_record_of_loc q (new_location D r)).
Proof.
  intros HD Hq Hr. unfold new_location, new_location_even, new_location_odd.
  destruct (Z.even D) eqn:Ev.
  - destruct (Z.eqb_spec r 0) as [-> | Hr0].
    + unfold locates; cbn; lia.
    + destruct (Z.compare_spec (2 * r) D); unfold locates; cbn; lia.
  - apply (f_equal negb) in Ev. rewrite Z.negb_even in Ev. cbn in Ev.
    apply Z.odd_spec in Ev. destruct Ev as [j Hj].
    destruct (Z.eqb_spec r 0) as [-> | Hr0].
    + unfold locates; cbn; lia.
    + destruct (Z.compare_spec (2 * r + 1) D); unfold locates; cbn; lia.
Qed.

(** Division of two positive normal numbers, away from overflow and
    underflow: the quotient is the nearest number to [mx / my * 2^(ex - ey)]. *)
Lemma div_normal (mx my : positive) (ex ey : Z) :
  2 ^ 52 <= Z.pos mx < 2 ^ 53 ->
  2 ^ 52 <= Z.pos my < 2 ^ 53 ->
  - 1000 <= ex - ey <= 900 ->
  exists (m3 : positive) (e3 m2 k : Z),
    div (S754_finite false mx ex) (S754_finite false my ey) = S754_finite false m3 e3 /\
    2 ^ 52 <= Z.pos m3 < 2 ^ 53 /\
    0 <= k <= 1 /\
    ex - ey - 53 + k <= e3 <= ex - ey - 53 + k + 1 /\
    Z.pos m3 * 2 ^ (e3 - (ex - ey - 53 + k)) = m2 /\
    - (2 ^ k * Z.pos my) <= 2 * (m2 * (2 ^ k * Z.pos my) - Z.pos mx * 2 ^ 53)
      <= 2 ^ k * Z.pos my.
Proof.
  intros Hx Hy He.
  assert (Zdigits2 (Z.pos mx) = 53) as Hdx
    by (apply Zdigits2_unique; [lia | change (53 - 1) with 52; lia]).
  assert (Zdigits2 (Z.pos my) = 53) as Hdy
    by (apply Zdigits2_unique; [lia | change (53 - 1) with 52; lia]).
  unfold div, SFdiv, SFdiv_core_binary. rewrite Hdx, Hdy. cbn [xorb].
  assert (Z.min (fexp prec emax (53 + ex - (53 + ey))) (ex - ey) = ex - ey - 53) as ->
    by (unfold fexp, emin, prec, emax; lia).
  replace (ex - ey - (ex - ey - 53)) with 53 by lia.
  assert (Z.shiftl (Z.pos mx) 53 = Z.pos mx * 2 ^ 53) as ->
    by (apply Z.shiftl_mul_pow2; lia).
  pose proof (Z_div_mod (Z.pos mx * 2 ^ 53) (Z.pos my) ltac:(lia)) as Hdm.
  destruct (Z.div_eucl (Z.pos mx * 2 ^ 53) (Z.pos my)) as [quot r].
  destruct Hdm as [Hdm Hr].
  assert (2 ^ 52 <= quot < 2 ^ 54) as Hq.
  { change (2 ^ 54) with (2 * 2 ^ 53). change (2 ^ 53) with (2 * 2 ^ 52) in *. nia. }
  assert (53 <= Zdigits2 quot <= 54) as Hdq.
  { pose proof (Zdigits2_bounds quot ltac:(lia)) as [B1 B2].
    split.
    - destruct (Z_lt_le_dec (Zdigits2 quot) 53) as [C|]; [|lia].
      assert (2 ^ Zdigits2 quot <= 2 ^ 52) by (apply Z.pow_le_mono_r; lia). lia.
    - destruct (Z_lt_le_dec 54 (Zdigits2 quot)) as [C|]; [|lia].
      assert (2 ^ 54 <= 2 ^ (Zdigits2 quot - 1)) by (apply Z.pow_le_mono_r; lia). lia. }
  destruct (binary_round_aux_normal false quot (ex - ey - 53)
              (new_location (Z.pos my) r) (Z.pos mx * 2 ^ 53) (Z.pos my))
    as (m3 & e3 & m2 & -> & Hm3 & He3 & Hm2 & Hrd); try lia.
  { rewrite Hdm, (Z.mul_comm (Z.pos my)). apply new_location_locates; lia. }
  exists m3, e3, m2, (Zdigits2 quot - 53).
  split; [reflexivity|]. split; [assumption|]. split; [lia|].
  replace (ex - ey - 53 + (Zdigits2 quot - 53)) with (ex - ey - 53 + Zdigits2 quot - 53) by lia.
  split; [lia|]. split; assumption.
Qed.

Lemma pow2_pos (k : Z) : 0 <= k -> 0 < 2 ^ k.
Proof. intros. apply Z.pow_pos_nonneg; lia. Qed.

Lemma pow2_split (a b : Z) : 0 <= a -> 0 <= b -> 2 ^ (a + b) = 2 ^ a * 2 ^ b.
Proof. intros. apply Z.pow_add_r; lia. Qed.

(** [bucketSize = (n - 2) / (targetPoints - 2)] for [q < p]: a number
    [mb * 2^-E] above 1 and within half a unit in the last place of
    [p / q]. *)
Lemma bucketSize_spec (p q : Z) :
  1 <= q -> q < p -> p < 2 ^ 32 ->
  exists (mb : positive) (E : Z),
    div (of_Z p) (of_Z q) = S754_finite false mb (- E) /\
    2 ^ 52 <= Z.pos mb < 2 ^ 53 /\
    0 <= E <= 52 /\
    - q <= 2 * (Z.pos mb * q - p * 2 ^ E) <= q /\
    2 ^ E < Z.pos mb /\
    q < 2 ^ E.
Proof.
  intros Hq Hqp Hp.
  destruct (of_Z_pos p) as (mp & tp & -> & Htp & Hmp & Hmpb);
    [change (2 ^ 53) with (2 ^ 32 * 2 ^ 21); lia |].
  destruct (of_Z_pos q) as (mq & tq & -> & Htq & Hmq & Hmqb);
    [change (2 ^ 53) with (2 ^ 32 * 2 ^ 21); lia |].
  assert (0 < 2 ^ tp) as Htp2 by (apply pow2_pos; lia).
  assert (0 < 2 ^ tq) as Htq2 by (apply pow2_pos; lia).
  assert (21 <= tp) as Htp21.
  { destruct (Z_lt_le_dec tp 21) as [C|]; [|lia].
    assert (2 ^ tp <= 2 ^ 20) by (apply Z.pow_le_mono_r; lia).
    assert (p * 2 ^ tp <= 2 ^ 32 * 2 ^ 20)
      by (apply Z.mul_le_mono_nonneg; lia).
    change (2 ^ 32 * 2 ^ 20) with (2 ^ 52) in *. 
    assert (p * 2 ^ tp < 2 ^ 32 * 2 ^ tp) by (apply Z.mul_lt_mono_pos_r; lia).
    assert (2 ^ 32 * 2 ^ tp <= 2 ^ 32 * 2 ^ 20) by (apply Z.mul_le_mono_nonneg_l; lia).
    change (2 ^ 32 * 2 ^ 20) with (2 ^ 52) in *. lia. }
  destruct (div_normal mp mq (- tp) (- tq)) as
    (m3 & e3 & m2 & k & -> & Hm3 & Hk & He3 & Hm2 & Hr); try lia.
  set (e1 := - tp - - tq - 53 + k) in *.
  assert (e3 <= - 20) as He3neg by lia.
  exists m3, (- e3). rewrite Z.opp_involutive.
  split; [reflexivity|]. split; [assumption|].
  set (E := - e3) in *.
  set (C := 2 ^ (e3 - e1)) in *.
  assert (1 <= C) as HC by (unfold C; pose proof (pow2_pos (e3 - e1)); lia).
  assert (0 < 2 ^ k) as Hk2 by (apply pow2_pos; lia).
  assert (0 < 2 ^ E) as HE2 by (apply pow2_pos; lia).
  set (K := 2 ^ k * 2 ^ tq * C).
  assert (0 < K) as HK.
  { unfold K. apply Z.mul_pos_pos; [apply Z.mul_pos_pos|]; lia. }
  assert (K * 2 ^ E = 2 ^ tp * 2 ^ 53) as HKE.
  { unfold K, C. rewrite <- !pow2_split by lia. f_equal. lia. }
  set (W := 2 * (Z.pos m3 * q - p * 2 ^ E)).
  assert (W * K = 2 * (m2 * (2 ^ k * Z.pos mq) - Z.pos mp * 2 ^ 53)) as HW.
  { rewrite Hmp, Hmq, <- Hm2. fold C. unfold W.
    replace (2 * (Z.pos m3 * q - p * 2 ^ E) * K)
      with (2 * (Z.pos m3 * q * K - p * (K * 2 ^ E))) by ring.
    rewrite HKE. unfold K. ring. }
  assert (2 ^ k * Z.pos mq <= q * K) as HqK.
  { rewrite Hmq. unfold K.
    replace (q * (2 ^ k * 2 ^ tq * C)) with (2 ^ k * (q * 2 ^ tq) * C) by ring.
    rewrite <- (Z.mul_1_r (2 ^ k * (q * 2 ^ tq))) at 1.
    apply Z.mul_le_mono_nonneg_l; [|lia].
    apply Z.mul_nonneg_nonneg; [lia|]. apply Z.mul_nonneg_nonneg; lia. }
  assert (- q <= W <= q) as Hmain.
  { split.
    - apply (Z.mul_le_mono_pos_r _ _ K HK). rewrite HW. lia.
    - apply (Z.mul_le_mono_pos_r _ _ K HK). rewrite HW. lia. }
  unfold W in Hmain.
  assert (q < 2 ^ E) as HqE.
  { assert (2 ^ 52 * q <= Z.pos m3 * q) by (apply Z.mul_le_mono_nonneg_r; lia).
    assert (p * 2 ^ E <= 2 ^ 32 * 2 ^ E) by (apply Z.mul_le_mono_nonneg_r; lia).
    lia. }
  assert (2 ^ E < Z.pos m3) as Hgt1.
  { assert ((q + 1) * 2 ^ E <= p * 2 ^ E) by (apply Z.mul_le_mono_nonneg_r; lia).
    assert (q * 2 ^ E < Z.pos m3 * q) by lia.
    rewrite (Z.mul_comm q) in H0.
    apply Z.mul_lt_mono_pos_r in H0; lia. }
  split; [|auto].
  split; [lia|].
  destruct (Z_lt_le_dec 52 E) as [C1|]; [|lia].
  assert (2 ^ 53 <= 2 ^ E) by (apply Z.pow_le_mono_r; lia). lia.
Qed.

Lemma Zdigits2_range (m lo hi : Z) :
  0 < m -> 0 <= lo -> 2 ^ lo <= m -> m < 2 ^ hi -> lo + 1 <= Zdigits2 m <= hi.
Proof.
  intros Hm Hlo H1 H2. pose proof (Zdigits2_bounds m Hm) as [B1 B2].
  pose proof (Zdigits2_pos m Hm). split.
  - destruct (Z_lt_le_dec (Zdigits2 m) (lo + 1)) as [C|]; [|lia].
    assert (2 ^ Zdigits2 m <= 2 ^ lo) by (apply Z.pow_le_mono_r; lia). lia.
  - destruct (Z_lt_le_dec hi (Zdigits2 m)) as [C|]; [|lia].
    assert (0 <= hi).
    { destruct (Z_lt_le_dec hi 0); [|lia]. rewrite Z.pow_neg_r in H2; lia. }
    assert (2 ^ hi <= 2 ^ (Zdigits2 m - 1)) by (apply Z.pow_le_mono_r; lia). lia.
Qed.

Lemma Zdigits2_mono (m m' : Z) : 0 < m -> m <= m' -> Zdigits2 m <= Zdigits2 m'.
Proof.
  intros Hm Hle.
  pose proof (Zdigits2_bounds m Hm) as [B1 _].
  pose proof (Zdigits2_bounds m' ltac:(lia)) as [_ B2].
  pose proof (Zdigits2_pos m Hm).
  destruct (Z_lt_le_dec (Zdigits2 m') (Zdigits2 m)) as [C|]; [|lia].
  assert (2 ^ Zdigits2 m' <= 2 ^ (Zdigits2 m - 1)) by (apply Z.pow_le_mono_r; lia).
  lia.
Qed.

(** [Math.floor(bucketSize * b)] for [bucketSize = mb * 2^-E] and a
    positive integer [b] whose product stays below 2^53: the floor of a
    multiple [A] of the rounding unit [G] within [G / 2] of [mb * b],
    all scaled by [2^E]. *)
Lemma floor_mul_pos (mb : positive) (E b : Z) :
  2 ^ 52 <= Z.pos mb < 2 ^ 53 ->
  0 <= E <= 52 ->
  1 <= b < 2 ^ 53 ->
  Z.pos mb * b < 2 ^ (53 + E) ->
  exists A a : Z,
    floor_mul (S754_finite false mb (- E)) b = Returns (A / 2 ^ E) /\
    53 <= Zdigits2 (Z.pos mb * b) <= 53 + E /\
    A = a * 2 ^ (Zdigits2 (Z.pos mb * b) - 53) /\
    - 2 ^ (Zdigits2 (Z.pos mb * b) - 53) <= 2 * (A - Z.pos mb * b)
      <= 2 ^ (Zdigits2 (Z.pos mb * b) - 53).
Proof.
  intros Hmb HE Hb HN.
  destruct (of_Z_pos b ltac:(lia)) as (mbb & t & Hof & Ht & Hmbb & Hmbbb).
  set (N := Z.pos mb * b) in *.
  assert (0 < N) as HN0 by (unfold N; apply Z.mul_pos_pos; lia).
  assert (2 ^ 52 <= N) as HN52.
  { unfold N. rewrite <- (Z.mul_1_r (2 ^ 52)). apply Z.mul_le_mono_nonneg; lia. }
  pose proof (Zdigits2_range N 52 (53 + E) HN0 ltac:(lia) HN52 HN) as HdN.
  pose proof (Zdigits2_bounds N HN0) as HNb.
  set (dN := Zdigits2 N) in *.
  assert (0 < 2 ^ t) as Ht2 by (apply pow2_pos; lia).
  set (G := 2 ^ (dN - 53)).
  assert (0 < G) as HG by (apply pow2_pos; lia).
  unfold floor_mul, mul. rewrite Hof. unfold SFmul. cbn [xorb].
  assert (Z.pos (mb * mbb) = N * 2 ^ t) as Hprod.
  { rewrite Pos2Z.inj_mul, Hmbb. unfold N. ring. }
  assert (Zdigits2 (Z.pos (mb * mbb)) = dN + t) as Hd.
  { apply Zdigits2_unique; [lia|]. rewrite Hprod.
    replace (dN + t - 1) with (dN - 1 + t) by lia.
    rewrite !pow2_split by lia. split.
    - apply Z.mul_le_mono_nonneg_r; lia.
    - apply Z.mul_lt_mono_pos_r; lia. }
  destruct (binary_round_aux_normal false (Z.pos (mb * mbb)) (- E + - t) loc_Exact
              (Z.pos (mb * mbb)) 1) as (m3 & e3 & m2 & -> & Hm3 & He3 & Hm2 & Hr);
    try (rewrite ?Hd; lia).
  { apply locates_exact. lia. }
  rewrite Hd in *.
  replace (dN + t - 53) with ((dN - 53) + t) in Hr by lia.
  rewrite pow2_split, Z.mul_1_r in Hr by lia. fold G in Hr.
  rewrite Hprod in Hr.
  assert (- G <= 2 * (m2 * G - N) <= G) as HrG.
  { replace (2 * (m2 * (G * 2 ^ t) - N * 2 ^ t)) with (2 * (m2 * G - N) * 2 ^ t) in Hr by ring.
    replace (- (G * 2 ^ t)) with (- G * 2 ^ t) in Hr by ring.
    destruct Hr as [Hr1 Hr2].
    apply Z.mul_le_mono_pos_r in Hr1; [|lia].
    apply Z.mul_le_mono_pos_r in Hr2; [|lia]. lia. }
  set (e1 := - E + - t + (dN + t) - 53) in *.
  assert (e1 = dN - 53 - E) as He1 by (unfold e1; lia).
  exists (m2 * G), m2. split; [|split; [lia | split; [reflexivity | exact HrG]]].
  (* the floor *)
  assert (m2 * G = Z.pos m3 * 2 ^ (e3 + E)) as ->.
  { rewrite <- Hm2. unfold G. rewrite <- Z.mul_assoc, <- pow2_split by lia.
    do 2 f_equal. lia. }
  unfold Math_floor. f_equal.
  destruct e3 as [| pe | pe].
  - cbn [Z.add]. change (2 ^ 0) with 1. rewrite Z.div_mul by lia. lia.
  - rewrite pow2_split by lia. rewrite Z.mul_assoc, Z.div_mul by lia. reflexivity.
  - assert (2 ^ E = 2 ^ (Z.neg pe + E) * 2 ^ Z.pos pe) as ->.
    { rewrite <- pow2_split by lia. f_equal. lia. }
    assert (0 < 2 ^ (Z.neg pe + E)) by (apply pow2_pos; lia).
    assert (0 < 2 ^ Z.pos pe) by (apply pow2_pos; lia).
    rewrite (Z.mul_comm (2 ^ (Z.neg pe + E))), Z.div_mul_cancel_r by lia.
    reflexivity.
Qed.

Lemma floor_mul_zero (mb : positive) (e : Z) :
  floor_mul (S754_finite false mb e) 0 = Returns 0.
Proof. reflexivity. Qed.

Section BucketBoundaries.

Variables (p q : Z) (mb : positive) (E : Z).
Hypothesis Hq : 1 <= q.
Hypothesis Hp : p < 2 ^ 32.
Hypothesis Hmb : 2 ^ 52 <= Z.pos mb < 2 ^ 53.
Hypothesis HE : 0 <= E <= 52.
Hypothesis Hnear : - q <= 2 * (Z.pos mb * q - p * 2 ^ E) <= q.
Hypothesis Hgt1 : 2 ^ E < Z.pos mb.
Hypothesis HqE : q < 2 ^ E.

Local Abbreviation bs := (S754_finite false mb (- E)).

Lemma product_below (b : Z) :
  1 <= b <= q + 1 -> b < 2 ^ 53 /\ Z.pos mb * b < 2 ^ (53 + E).
Proof using Hq Hp Hmb HE Hnear HqE.
  intros Hb.
  assert (0 < 2 ^ E) as HT by (apply pow2_pos; lia).
  assert (2 ^ E <= 2 ^ 52) as HT52 by (apply Z.pow_le_mono_r; lia).
  assert (2 <= 2 ^ E) as HT2 by lia.
  split; [change (2 ^ 53) with (2 * 2 ^ 52); lia|].
  rewrite pow2_split by lia.
  assert (Z.pos mb * b <= Z.pos mb * (q + 1)) by (apply Z.mul_le_mono_nonneg_l; lia).
  assert (p * 2 ^ E <= 2 ^ 32 * 2 ^ E) by (apply Z.mul_le_mono_nonneg_r; lia).
  change (2 ^ 53) with (2 ^ 52 * 2) in Hmb.
  change (2 ^ 53) with (2 ^ 32 + 1 + 2 ^ 52 + (2 ^ 52 - 2 ^ 32 - 1)).
  lia.
Qed.

Lemma boundary_integral (b : Z) :
  0 <= b <= q + 1 -> floor_mul bs b = Returns (boundary bs b).
Proof using Hq Hp Hmb HE Hnear HqE.
  intros Hb. destruct (Z.eq_dec b 0) as [-> | Hb0]; [reflexivity|].
  destruct (product_below b ltac:(lia)) as [B1 B2].
  destruct (floor_mul_pos mb E b Hmb HE ltac:(lia) B2) as (A & a & HA & _).
  unfold boundary. rewrite HA. reflexivity.
Qed.

Lemma boundary_0 : boundary bs 0 = 0.
Proof. reflexivity. Qed.

Lemma boundary_1 : 1 <= boundary bs 1.
Proof using Hq Hp Hmb HE Hnear Hgt1 HqE.
  destruct (product_below 1 ltac:(lia)) as [B1 B2].
  destruct (floor_mul_pos mb E 1 Hmb HE ltac:(lia) B2) as (A & a & HA & Hd & Ha & Hr).
  unfold boundary. rewrite HA.
  rewrite Z.mul_1_r in *.
  assert (Zdigits2 (Z.pos mb) = 53) as Hd53
    by (apply Zdigits2_unique; [lia | change (53 - 1) with 52; lia]).
  rewrite Hd53 in *. change (2 ^ (53 - 53)) with 1 in *.
  assert (0 < 2 ^ E) as HT by (apply pow2_pos; lia).
  apply Z.div_le_lower_bound; lia.
Qed.

Lemma boundary_step (b : Z) :
  1 <= b <= q -> boundary bs b + 1 <= boundary bs (b + 1).
Proof using Hq Hp Hmb HE Hnear Hgt1 HqE.
  intros Hb.
  destruct (product_below b ltac:(lia)) as [B1 B2].
  destruct (product_below (b + 1) ltac:(lia)) as [B1' B2'].
  destruct (floor_mul_pos mb E b Hmb HE ltac:(lia) B2) as (A & a & HA & Hd & Ha & Hr).
  destruct (floor_mul_pos mb E (b + 1) Hmb HE ltac:(lia) B2')
    as (A' & a' & HA' & Hd' & Ha' & Hr').
  unfold boundary. rewrite HA, HA'.
  assert (Zdigits2 (Z.pos mb * b) <= Zdigits2 (Z.pos mb * (b + 1))) as Hmono.
  { apply Zdigits2_mono; [apply Z.mul_pos_pos; lia|].
    apply Z.mul_le_mono_nonneg_l; lia. }
  set (d := Zdigits2 (Z.pos mb * b)) in *.
  set (d' := Zdigits2 (Z.pos mb * (b + 1))) in *.
  set (T := 2 ^ E) in *.
  assert (0 < T) as HT by (apply pow2_pos; lia).
  set (G := 2 ^ (d - 53)) in *.
  set (G' := 2 ^ (d' - 53)) in *.
  assert (0 < G') as HG' by (apply pow2_pos; lia).
  assert (G <= G') as HGG by (apply Z.pow_le_mono_r; lia).
  set (H := 2 ^ (E - (d' - 53))).
  assert (0 < H) as HH by (apply pow2_pos; lia).
  assert (T = H * G') as HTG.
  { unfold T, H, G'. rewrite <- pow2_split by lia. f_equal. lia. }
  set (f := A / T).
  assert (T * f <= A) as Hf by (apply Z.mul_div_le; lia).
  replace (Z.pos mb * (b + 1)) with (Z.pos mb * b + Z.pos mb) in Hr' by ring.
  (* A' > (f + 1) * T - G' *)
  assert ((f + 1) * T - G' < A') as Hlow by lia.
  rewrite Ha', HTG in Hlow.
  assert (((f + 1) * H - 1) * G' < a' * G') as Hlow' by lia.
  apply Z.mul_lt_mono_pos_r in Hlow'; [|lia].
  apply Z.div_le_lower_bound; [lia|].
  rewrite Ha', HTG.
  replace (H * G' * (f + 1)) with ((f + 1) * H * G') by ring.
  apply Z.mul_le_mono_nonneg_r; lia.
Qed.

Lemma boundary_last : boundary bs q <= p.
Proof using Hq Hp Hmb HE Hnear Hgt1 HqE.
  destruct (product_below q ltac:(lia)) as [B1 B2].
  destruct (floor_mul_pos mb E q Hmb HE ltac:(lia) B2) as (A & a & HA & Hd & Ha & Hr).
  unfold boundary. rewrite HA.
  set (T := 2 ^ E) in *.
  assert (0 < T) as HT by (apply pow2_pos; lia).
  assert (2 ^ (Zdigits2 (Z.pos mb * q) - 53) <= T) as HG
    by (apply Z.pow_le_mono_r; lia).
  assert (A / T < p + 1); [|lia].
  apply Z.div_lt_upper_bound; lia.
Qed.

End BucketBoundaries.

(** The bucket boundaries of the bucketed path, for [q] buckets over [p]
    interior points: they are integers, start at 0, increase strictly and
    end at [p] at most. *)
Lemma bucket_boundaries (p q : Z) :
  1 <= q -> q < p -> p < 2 ^ 32 ->
  let bs := div (of_Z p) (of_Z q) in
  (forall b, 0 <= b <= q + 1 -> floor_mul bs b = Returns (boundary bs b)) /\
  boundary bs 0 = 0 /\
  (forall b, 0 <= b <= q -> boundary bs b + 1 <= boundary bs (b + 1)) /\
  boundary bs q <= p.
Proof.
  intros Hq Hqp Hp.
  destruct (bucketSize_spec p q Hq Hqp Hp) as (mb & E & -> & Hmb & HE & Hnear & Hgt1 & HqE).
  cbv zeta. split; [|split; [|split]].
  - intros b Hb. eapply boundary_integral; eauto.
  - reflexivity.
  - intros b Hb. destruct (Z.eq_dec b 0) as [-> | Hb0].
    + pose proof (boundary_1 p q mb E Hq Hp Hmb HE Hnear Hgt1 HqE) as H1.
      change (0 + 1) with 1.
      change (boundary (S754_finite false mb (- E)) 0) with 0. lia.
    + eapply boundary_step; eauto. lia.
  - eapply boundary_last; eauto.
Qed.

(** ** The order of numbers *)

Lemma SFcompare_rank (a b : number) :
  is_nan a = false -> is_nan b = false ->
  SFcompare a b = Some (lex_compare (rank a) (rank b)).
Proof.
  intros Ha Hb.
  destruct a as [sa | [] | | [] ma ea]; try discriminate;
    destruct b as [sb | [] | | [] mb eb]; try discriminate;
    try reflexivity; cbn [SFcompare rank lex_compare]; f_equal;
    change (Pos.compare_cont Eq ?x ?y) with (Pos.compare x y).
  change (-1 ?= -1) with Eq. cbv iota.
  rewrite Z.compare_opp.
  destruct (ea ?= eb) eqn:E1, (eb ?= ea) eqn:E2; try reflexivity;
    try (rewrite Z.compare_antisym, E2 in E1; discriminate).
Qed.

Lemma lex_compare_spec (u v : Z * Z * Z) :
  let '(u1, u2, u3) := u in
  let '(v1, v2, v3) := v in
  match lex_compare u v with
  | Lt => u1 < v1 \/ (u1 = v1 /\ (u2 < v2 \/ (u2 = v2 /\ u3 < v3)))
  | Eq => u1 = v1 /\ u2 = v2 /\ u3 = v3
  | Gt => v1 < u1 \/ (u1 = v1 /\ (v2 < u2 \/ (u2 = v2 /\ v3 < u3)))
  end.
Proof.
  destruct u as [[u1 u2] u3], v as [[v1 v2] v3]. unfold lex_compare.
  destruct (Z.compare_spec u1 v1); [| lia | lia].
  destruct (Z.compare_spec u2 v2); [| lia | lia].
  destruct (Z.compare_spec u3 v3); lia.
Qed.

Lemma gt_true_not_nan (a b : number) :
  gt a b = true -> is_nan a = false /\ is_nan b = false.
Proof. destruct a as [| | |[]], b as [| | |[]]; cbn; auto; discriminate. Qed.

Lemma le_true_not_nan (a b : number) :
  le a b = true -> is_nan a = false /\ is_nan b = false.
Proof. destruct a as [| | |[]], b as [| | |[]]; cbn; auto; discriminate. Qed.

Lemma gt_nan_l (b : number) : gt NaN b = false.
Proof. reflexivity. Qed.

Lemma gt_nan_r (a : number) : gt a NaN = false.
Proof. destruct a; reflexivity. Qed.

(** [b < c] and not [a > b] give [a < c], away from NaN. *)
Lemma gt_le_trans (a b c : number) :
  is_nan a = false -> gt c b = true -> gt a b = false -> gt c a = true.
Proof.
  intros Ha Hcb Hab. destruct (gt_true_not_nan _ _ Hcb) as [Hc Hb].
  unfold gt in *.
  rewrite (SFcompare_rank _ _ Hc Hb) in Hcb.
  rewrite (SFcompare_rank _ _ Ha Hb) in Hab.
  rewrite (SFcompare_rank _ _ Hc Ha).
  pose proof (lex_compare_spec (rank c) (rank b)) as L1.
  pose proof (lex_compare_spec (rank a) (rank b)) as L2.
  pose proof (lex_compare_spec (rank c) (rank a)) as L3.
  destruct (rank a) as [[a1 a2] a3], (rank b) as [[b1 b2] b3], (rank c) as [[c1 c2] c3].
  destruct (lex_compare (c1, c2, c3) (b1, b2, b3)); try discriminate.
  destruct (lex_compare (a1, a2, a3) (b1, b2, b3)); try discriminate;
    destruct (lex_compare (c1, c2, c3) (a1, a2, a3)); try reflexivity; lia.
Qed.

(** Not [a > b] is [a <= b], away from NaN. *)
Lemma not_gt_le (a b : number) :
  is_nan a = false -> is_nan b = false -> gt a b = false -> le a b = true.
Proof.
  intros Ha Hb. unfold gt, le, SFleb. rewrite (SFcompare_rank _ _ Ha Hb).
  destruct (lex_compare _ _); auto.
Qed.

Lemma le_not_gt (a b : number) : le a b = true -> gt a b = false.
Proof. unfold gt, le, SFleb. destruct (SFcompare a b) as [[]|]; auto. Qed.

Lemma gt_not_eq (a b : number) : gt a b = true -> SFeqb b a = false.
Proof.
  intros H. destruct (gt_true_not_nan _ _ H) as [Ha Hb]. unfold gt, SFeqb in *.
  rewrite (SFcompare_rank _ _ Ha Hb) in H. rewrite (SFcompare_rank _ _ Hb Ha).
  pose proof (lex_compare_spec (rank a) (rank b)) as L1.
  pose proof (lex_compare_spec (rank b) (rank a)) as L2.
  destruct (rank a) as [[a1 a2] a3], (rank b) as [[b1 b2] b3].
  destruct (lex_compare (a1, a2, a3) (b1, b2, b3)); try discriminate.
  destruct (lex_compare (b1, b2, b3) (a1, a2, a3)); try reflexivity; lia.
Qed.

Lemma le_trans (a b c : number) :
  le a b = true -> le b c = true -> le a c = true.
Proof.
  intros Hab Hbc.
  destruct (le_true_not_nan _ _ Hab) as [Ha Hb].
  destruct (le_true_not_nan _ _ Hbc) as [_ Hc].
  unfold le, SFleb in *.
  rewrite (SFcompare_rank _ _ Ha Hb) in Hab.
  rewrite (SFcompare_rank _ _ Hb Hc) in Hbc.
  rewrite (SFcompare_rank _ _ Ha Hc).
  pose proof (lex_compare_spec (rank a) (rank b)) as L1.
  pose proof (lex_compare_spec (rank b) (rank c)) as L2.
  pose proof (lex_compare_spec (rank a) (rank c)) as L3.
  destruct (rank a) as [[a1 a2] a3], (rank b) as [[b1 b2] b3], (rank c) as [[c1 c2] c3].
  destruct (lex_compare (a1, a2, a3) (b1, b2, b3)); try discriminate;
    destruct (lex_compare (b1, b2, b3) (c1, c2, c3)); try discriminate;
    destruct (lex_compare (a1, a2, a3) (c1, c2, c3)); try reflexivity; lia.
Qed.

Lemma le_refl (a : number) : is_nan a = false -> le a a = true.
Proof.
  intros Ha. unfold le, SFleb. rewrite (SFcompare_rank _ _ Ha Ha).
  pose proof (lex_compare_spec (rank a) (rank a)) as L.
  destruct (rank a) as [[a1 a2] a3].
  destruct (lex_compare _ _); auto; lia.
Qed.

(** The absolute value of the doubled area. *)
Lemma absArea2_nan (a : number) : is_nan (absArea2 a) = is_nan a.
Proof. destruct a as [[] | [] | | [] m e]; reflexivity. Qed.

Lemma absArea2_gt_init (a : number) :
  gt (absArea2 a) (of_Z (-1)) = negb (is_nan a).
Proof. destruct a as [[] | [] | | [] m e]; reflexivity. Qed.

Lemma gt_irrefl (a : number) : gt a a = false.
Proof.
  destruct (is_nan a) eqn:Ha; [destruct a; try discriminate; reflexivity|].
  unfold gt. rewrite (SFcompare_rank _ _ Ha Ha).
  pose proof (lex_compare_spec (rank a) (rank a)) as L.
  destruct (rank a) as [[a1 a2] a3].
  destruct (lex_compare _ _); auto; lia.
Qed.

Lemma gt_asym (a b : number) : gt a b = true -> gt b a = false.
Proof.
  intros H. destruct (gt_true_not_nan _ _ H) as [Ha Hb]. unfold gt in *.
  rewrite (SFcompare_rank _ _ Ha Hb) in H. rewrite (SFcompare_rank _ _ Hb Ha).
  pose proof (lex_compare_spec (rank a) (rank b)) as L1.
  pose proof (lex_compare_spec (rank b) (rank a)) as L2.
  destruct (rank a) as [[a1 a2] a3], (rank b) as [[b1 b2] b3].
  destruct (lex_compare (a1, a2, a3) (b1, b2, b3)); try discriminate.
  destruct (lex_compare (b1, b2, b3) (a1, a2, a3)); try reflexivity; lia.
Qed.

Lemma gt_of_nan (a b : number) : is_nan a = true -> gt a b = false.
Proof. destruct a; try discriminate. reflexivity. Qed.

Section CandidatesXY.

Variables (data : Float32Array) (ax ay avgX avgY : number) (rs : Z).
Local Abbreviation A := (areaXY data ax ay avgX avgY).

Lemma candidatesXY_inv (count : nat) (i : Z) (maxArea : number) (maxIndex : Z) :
  rs <= i ->
  cand_inv A rs i maxArea maxIndex ->
  exists maxArea',
    cand_inv A rs (i + Z.of_nat count) maxArea'
             (candidatesXY data ax ay avgX avgY count i maxArea maxIndex).
Proof.
  revert i maxArea maxIndex.
  induction count as [| count IH]; intros i maxArea maxIndex Hi Hinv.
  - exists maxArea. cbn [candidatesXY]. rewrite Z.add_0_r. exact Hinv.
  - cbn [candidatesXY]. fold (areaXY data ax ay avgX avgY i).
    replace (i + Z.of_nat (S count)) with (i + 1 + Z.of_nat count) by lia.
    destruct (gt (A i) maxArea) eqn:Hgt.
    + apply IH; [lia|]. right.
      destruct (gt_true_not_nan _ _ Hgt) as [Hai _].
      destruct Hinv as [(-> & -> & Hnan) | (Hmi & -> & Hnn & Hmax & Hlow)].
      * split; [lia|]. split; [reflexivity|]. split; [assumption|]. split.
        -- intros j Hj. destruct (Z.eq_dec j i) as [-> | Hne];
             [apply gt_irrefl | apply gt_of_nan, Hnan; lia].
        -- intros j Hj. right. apply Hnan. lia.
      * split; [lia|]. split; [reflexivity|]. split; [assumption|].
        assert (forall j, rs <= j < i ->
                  gt (A i) (A j) = true \/ is_nan (A j) = true) as Hall.
        { intros j Hj. destruct (is_nan (A j)) eqn:Hn; [auto|]. left.
          eapply gt_le_trans; eauto. }
        split; [|exact Hall].
        intros j Hj. destruct (Z.eq_dec j i) as [-> | Hne]; [apply gt_irrefl|].
        destruct (Hall j ltac:(lia)) as [H1 | H1];
          [apply gt_asym, H1 | apply gt_of_nan, H1].
    + apply IH; [lia|].
      destruct Hinv as [(-> & -> & Hnan) | (Hmi & -> & Hnn & Hmax & Hlow)].
      * left. split; [reflexivity|]. split; [reflexivity|].
        intros j Hj. destruct (Z.eq_dec j i) as [-> | Hne]; [|apply Hnan; lia].
        unfold areaXY in *. rewrite absArea2_gt_init in Hgt.
        rewrite absArea2_nan. destruct (is_nan _); [reflexivity | discriminate].
      * right. split; [lia|]. split; [reflexivity|]. split; [assumption|].
        split; [|exact Hlow].
        intros j Hj. destruct (Z.eq_dec j i) as [-> | Hne]; [assumption|].
        apply Hmax. lia.
Qed.

Lemma candidatesXY_first_max (re : Z) :
  rs < re ->
  first_max A rs re
    (candidatesXY data ax ay avgX avgY (Z.to_nat (re - rs)) rs (of_Z (-1)) rs).
Proof.
  intros Hlt.
  destruct (candidatesXY_inv (Z.to_nat (re - rs)) rs (of_Z (-1)) rs ltac:(lia))
    as (mA & Hinv).
  { left. split; [reflexivity|]. split; [reflexivity|]. intros j Hj. lia. }
  replace (rs + Z.of_nat (Z.to_nat (re - rs))) with re in Hinv by lia.
  set (w := candidatesXY _ _ _ _ _ _ _ _ _) in *.
  destruct Hinv as [(_ & Hw & Hnan) | (Hmi & -> & Hnn & Hmax & Hlow)].
  - rewrite Hw. split; [lia|]. split; [|split; [|split]].
    + intros j Hj. apply gt_of_nan, Hnan, Hj.
    + intros j Hj. lia.
    + reflexivity.
    + intros (j & Hj & Hn). rewrite Hnan in Hn by lia. discriminate.
  - split; [lia|]. split; [exact Hmax|]. split; [exact Hlow|]. split; [|auto].
    intros Hall. rewrite Hall in Hnn by lia. discriminate.
Qed.

End CandidatesXY.

Lemma toInt32_small (z : Z) : - 2 ^ 31 <= z < 2 ^ 31 -> toInt32 z = z.
Proof.
  intros Hz. unfold toInt32. rewrite Z.mod_small; lia.
Qed.

Lemma half_length_bound (data : Float32Array) : 0 <= half_length data < 2 ^ 31.
Proof.
  unfold half_length, toUint32. rewrite Z.shiftr_div_pow2 by lia.
  pose proof (Z.mod_pos_bound (Z.of_nat (length data)) (2 ^ 32) ltac:(lia)).
  change (2 ^ 1) with 2. split.
  - apply Z.div_pos; lia.
  - apply Z.div_lt_upper_bound; lia.
Qed.

Lemma half_length_small (data : Float32Array) :
  Z.of_nat (length data) < 2 ^ 32 -> half_length data = Z.of_nat (length data) / 2.
Proof.
  intros H. unfold half_length, toUint32.
  rewrite Z.mod_small, Z.shiftr_div_pow2 by lia. reflexivity.
Qed.

Section Bucketed.

Variables (p q lastIndex : Z).
Hypothesis Hq : 1 <= q.
Hypothesis Hqp : q < p.
Hypothesis Hp : p < 2 ^ 32.
Hypothesis Hlast : lastIndex = p + 1.

Local Abbreviation bs := (div (of_Z p) (of_Z q)).

Lemma boundary_lower (b : Z) : 0 <= b <= q + 1 -> b <= boundary bs b.
Proof using Hq Hqp Hp.
  destruct (bucket_boundaries p q Hq Hqp Hp) as (_ & H0 & Hstep & _).

  intros Hb.
  assert (forall k : nat, Z.of_nat k <= q + 1 ->
                          Z.of_nat k <= boundary bs (Z.of_nat k)) as Hk.
  { induction k as [| k IH]; intros Hle.
    - change (Z.of_nat 0) with 0. rewrite H0. lia.
    - rewrite Nat2Z.inj_succ in *. unfold Z.succ in *.
      specialize (Hstep (Z.of_nat k) ltac:(lia)). lia. }
  rewrite <- (Z2Nat.id b) by lia. apply Hk. lia.
Qed.

Lemma boundary_upper (b : Z) : 0 <= b <= q -> boundary bs b + (q - b) <= p.
Proof using Hq Hqp Hp.
  destruct (bucket_boundaries p q Hq Hqp Hp) as (_ & _ & Hstep & Hq').

  intros Hb.
  assert (forall k : nat, Z.of_nat k <= q ->
                          boundary bs (q - Z.of_nat k) + Z.of_nat k <= p) as Hk.
  { induction k as [| k IH]; intros Hle.
    - change (Z.of_nat 0) with 0. rewrite Z.sub_0_r. lia.
    - specialize (Hstep (q - Z.of_nat (S k)) ltac:(lia)).
      replace (q - Z.of_nat (S k) + 1) with (q - Z.of_nat k) in Hstep by lia.
      specialize (IH ltac:(lia)). lia. }
  specialize (Hk (Z.to_nat (q - b)) ltac:(lia)).
  replace (q - Z.of_nat (Z.to_nat (q - b))) with b in Hk by lia. lia.
Qed.

Lemma currentRange_bucketed (b : Z) :
  0 <= b < q ->
  currentRange bs lastIndex b
  = Returns (boundary bs b + 1, Z.min (boundary bs (b + 1) + 1) lastIndex) /\
  1 <= boundary bs b + 1 < Z.min (boundary bs (b + 1) + 1) lastIndex.
Proof using Hq Hqp Hp Hlast.
  intros Hb.
  destruct (bucket_boundaries p q Hq Hqp Hp) as (Hint & _ & Hstep & _).

  pose proof (boundary_lower b ltac:(lia)).
  pose proof (boundary_upper b ltac:(lia)).
  specialize (Hstep b ltac:(lia)).
  assert (1 <= boundary bs b + 1 < Z.min (boundary bs (b + 1) + 1) lastIndex) as Hr by lia.
  split; [|exact Hr].
  unfold currentRange. rewrite !Hint by lia. cbn.
  destruct (Z.geb_spec (boundary bs b + 1) (Z.min (boundary bs (b + 1) + 1) lastIndex));
    [lia | reflexivity].
Qed.

Lemma nextRange_bucketed (b : Z) :
  0 <= b < q ->
  nextRange bs lastIndex b
  = Returns (boundary bs (b + 1) + 1, Z.min (boundary bs (b + 2) + 1) lastIndex) /\
  1 <= boundary bs (b + 1) + 1.
Proof using Hq Hqp Hp Hlast.
  intros Hb.
  destruct (bucket_boundaries p q Hq Hqp Hp) as (Hint & _ & _ & _).

  pose proof (boundary_lower (b + 1) ltac:(lia)).
  split; [|lia].
  unfold nextRange. rewrite !Hint by lia. reflexivity.
Qed.

Variable data : Float32Array.
Variables lastX lastY : number.

(** The bucket [b] with anchor [a] selects the first maximum of its
    candidate range. *)
Lemma bucketXY_bucketed (b a : Z) :
  0 <= b < q ->
  let rs := boundary bs b + 1 in
  let re := Z.min (boundary bs (b + 1) + 1) lastIndex in
  let avg := averageXY data lastX lastY (boundary bs (b + 1) + 1)
               (Z.min (boundary bs (b + 2) + 1) lastIndex) in
  exists w,
    bucketXY data bs lastX lastY lastIndex b a = Returns w /\
    first_max (areaXY data (f32_get data (a * 2 + 0)) (f32_get data (a * 2 + 1))
                 (fst avg) (snd avg)) rs re w.
Proof using Hq Hqp Hp Hlast.
  intros Hb rs re avg.
  destruct (currentRange_bucketed b Hb) as [Hc Hr].
  destruct (nextRange_bucketed b Hb) as [Hn _].
  unfold bucketXY. rewrite Hc, Hn. cbn [mbind outcome_bind].
  fold avg. destruct avg as [avgX avgY] eqn:Havg. cbn [fst snd].
  eexists. split; [reflexivity|].
  apply candidatesXY_first_max. fold rs re in Hr. lia.
Qed.

(** The bucket loop fills the slots of its buckets and nothing else. *)
Lemma bucketsXY_fill (count : nat) (bucket a out : Z) (pre zs post : list Z) :
  0 <= bucket -> bucket + Z.of_nat count = q ->
  lastIndex < 2 ^ 31 ->
  out = Z.of_nat (length pre) ->
  length zs = count ->
  exists ws,
    bucketsXY data bs lastX lastY lastIndex count bucket a out (pre ++ zs ++ post)
    = Returns (pre ++ ws ++ post) /\
    length ws = count /\
    chain (bucketXY data bs lastX lastY lastIndex) bucket a ws.
Proof using Hq Hqp Hp Hlast.
  revert bucket a out pre zs.
  induction count as [| count IH]; intros bucket a out pre zs Hb Hcnt Hl31 Hout Hzs.
  - destruct zs; [|discriminate]. exists []. cbn. auto.
  - destruct zs as [| z zs]; [discriminate|]. cbn [bucketsXY].
    destruct (bucketXY_bucketed bucket a ltac:(lia)) as (w & Hw & Hfm).
    rewrite Hw. cbn [mbind outcome_bind].
    destruct Hfm as (Hrange & _).
    destruct (currentRange_bucketed bucket ltac:(lia)) as [_ Hr].
    assert (i32_set (pre ++ (z :: zs) ++ post) out w = (pre ++ [w]) ++ zs ++ post) as ->.
    { unfold i32_set, Int32Array. destruct (Z.ltb_spec out 0) as [|_]; [lia|].
      rewrite toInt32_small by lia.
      rewrite Hout, Nat2Z.id.
      rewrite insert_app_r_alt by lia. rewrite Nat.sub_diag. cbn.
      rewrite <- app_assoc. reflexivity. }
    destruct (IH (bucket + 1) w (out + 1) (pre ++ [w]) zs) as (ws & Hws & Hlen & Hch);
      try lia.
    { rewrite length_app. cbn. lia. }
    { cbn in Hzs. lia. }
    exists (w :: ws). rewrite Hws. split; [|split].
    + rewrite <- app_assoc. reflexivity.
    + cbn. lia.
    + cbn. auto.
Qed.

End Bucketed.

(** The bucketed path of the interleaved variant: index 0, one winner
    per bucket, index [n - 1]. *)
Lemma lttbIndicesForInterleavedXY_bucketed (data : Float32Array) (t : Z) :
  let n := half_length data in
  3 <= t -> t < n ->
  exists ws,
    lttbIndicesForInterleavedXY data (FInt t) = Returns (0 :: ws ++ [n - 1]) /\
    Z.of_nat (length ws) = t - 2 /\
    chain (bucketXY data (div (of_Z (n - 2)) (of_Z (t - 2)))
             (f32_get data ((n - 1) * 2 + 0)) (f32_get data ((n - 1) * 2 + 1)) (n - 1))
          0 0 ws.
Proof.
  intros n Ht Htn. pose proof (half_length_bound data) as Hn. fold n in Hn.
  unfold lttbIndicesForInterleavedXY. fold n. cbn [floored_le_Z floored_eq_Z Z_le_floored].
  destruct (Z.leb_spec t 0); [lia|]. destruct (Z.eqb_spec n 0); [lia|]. cbn [orb].
  destruct (Z.eqb_spec t 1); [lia|]. destruct (Z.eqb_spec t 2); [lia|].
  destruct (Z.leb_spec n t); [lia|].
  assert (i32_set (i32_set (i32_new t) 0 0) (t - 1) (n - 1)
          = [0] ++ replicate (Z.to_nat (t - 2)) 0 ++ [n - 1]) as ->.
  { unfold i32_new, i32_set, Int32Array.
    destruct (Z.ltb_spec 0 0); [lia|]. destruct (Z.ltb_spec (t - 1) 0); [lia|].
    rewrite !toInt32_small by lia.
    replace (Z.to_nat t) with (S (Z.to_nat (t - 2) + 1)) by lia.
    replace (Z.to_nat (t - 1)) with (S (Z.to_nat (t - 2))) by lia.
    rewrite replicate_S, replicate_add.
    change (0 :: <[Z.to_nat (t - 2):=n - 1]> (replicate (Z.to_nat (t - 2)) 0 ++ [0])
            = [0] ++ replicate (Z.to_nat (t - 2)) 0 ++ [n - 1]).
    rewrite insert_app_r_alt by (rewrite length_replicate; lia).
    rewrite length_replicate, Nat.sub_diag. reflexivity. }
  destruct (bucketsXY_fill (n - 2) (t - 2) (n - 1) ltac:(lia) ltac:(lia) ltac:(lia)
              ltac:(lia) data (f32_get data ((n - 1) * 2 + 0))
              (f32_get data ((n - 1) * 2 + 1))
              (Z.to_nat (t - 2)) 0 0 1 [0] (replicate (Z.to_nat (t - 2)) 0) [n - 1])
    as (ws & Hws & Hlen & Hch); try lia; try reflexivity.
  { apply length_replicate. }
  exists ws. rewrite Hws. split; [reflexivity|]. split; [lia | exact Hch].
Qed.

Lemma length_interleave (pts : list DataPoint) :
  length (interleave pts) = (2 * length pts)%nat.
Proof.
  induction pts as [| p pts IH]; [reflexivity|].
  unfold interleave in *. cbn [flat_map]. rewrite length_app, IH. cbn [length]. lia.
Qed.

Lemma half_length_interleave (pts : list DataPoint) :
  Z.of_nat (length pts) < 2 ^ 31 ->
  half_length (interleave pts) = Z.of_nat (length pts).
Proof.
  intros H. rewrite half_length_small; rewrite length_interleave.
  - rewrite Nat2Z.inj_mul. change (Z.of_nat 2) with 2.
    rewrite Z.mul_comm, Z.div_mul; lia.
  - rewrite Nat2Z.inj_mul. change (Z.of_nat 2) with 2.
    change (2 ^ 32) with (2 * 2 ^ 31). lia.
Qed.

Lemma lookup_interleave (pts : list DataPoint) (i : nat) (p : DataPoint) :
  pts !! i = Some p ->
  interleave pts !! (2 * i)%nat = Some (coord_x p) /\
  interleave pts !! (2 * i + 1)%nat = Some (coord_y p).
Proof.
  revert i. induction pts as [| p0 pts IH]; intros i Hi; [discriminate|].
  destruct i as [| i].
  - cbn in Hi. injection Hi as ->. split; reflexivity.
  - cbn in Hi. destruct (IH i Hi) as [H1 H2].
    replace (2 * S i)%nat with (S (S (2 * i))) by lia.
    replace (S (S (2 * i)) + 1)%nat with (S (S (2 * i + 1))) by lia.
    split; assumption.
Qed.

Lemma get_interleave (pts : list DataPoint) (i : Z) :
  0 <= i < Z.of_nat (length pts) ->
  exists p, arr_get pts i = Some p /\
            f32_get (interleave pts) (i * 2 + 0) = coord_x p /\
            f32_get (interleave pts) (i * 2 + 1) = coord_y p.
Proof.
  intros Hi.
  destruct (lookup_lt_is_Some_2 pts (Z.to_nat i) ltac:(lia)) as [p Hp].
  exists p. destruct (lookup_interleave pts _ p Hp) as [H1 H2].
  unfold arr_get, f32_get.
  destruct (Z.ltb_spec i 0); [lia|].
  destruct (Z.ltb_spec (i * 2 + 0) 0); [lia|].
  destruct (Z.ltb_spec (i * 2 + 1) 0); [lia|].
  replace (Z.to_nat (i * 2 + 0)) with (2 * Z.to_nat i)%nat by lia.
  replace (Z.to_nat (i * 2 + 1)) with (2 * Z.to_nat i + 1)%nat by lia.
  rewrite H1, H2. auto.
Qed.

Lemma point_interleave (pts : list DataPoint) (i : Z) :
  0 <= i < Z.of_nat (length pts) ->
  point_x (arr_get pts i) = Returns (f32_get (interleave pts) (i * 2 + 0)) /\
  point_y (arr_get pts i) = Returns (f32_get (interleave pts) (i * 2 + 1)).
Proof.
  intros Hi. destruct (get_interleave pts i Hi) as (p & -> & -> & ->).
  split; reflexivity.
Qed.

Section Refinement.

Variable pts : list DataPoint.
Local Abbreviation n := (Z.of_nat (length pts)).
Local Abbreviation data := (interleave pts).

Lemma sumDP_sumXY (count : nat) (i : Z) (sumX sumY : number) (avgCount : Z) :
  0 <= i -> i + Z.of_nat count <= n ->
  sumDP pts count i sumX sumY avgCount
  = Returns (sumXY data count i sumX sumY avgCount).
Proof.
  revert i sumX sumY avgCount.
  induction count as [| count IH]; intros i sumX sumY avgCount Hi Hn; [reflexivity|].
  cbn [sumDP sumXY].
  destruct (point_interleave pts i ltac:(lia)) as [-> ->].
  cbn [mbind outcome_bind]. apply IH; lia.
Qed.

Lemma averageDP_averageXY (lastX lastY : number) (ns ne : Z) :
  0 <= ns -> ne <= n ->
  averageDP pts lastX lastY ns ne = Returns (averageXY data lastX lastY ns ne).
Proof.
  intros Hns Hne. unfold averageDP, averageXY.
  destruct (Z.ltb_spec ns ne); [|reflexivity].
  rewrite sumDP_sumXY by lia. cbn [mbind outcome_bind].
  destruct (sumXY _ _ _ _ _ _) as [[sumX sumY] avgCount].
  destruct (0 <? avgCount); reflexivity.
Qed.

Lemma candidatesDP_candidatesXY (ax ay avgX avgY : number) (count : nat) (i : Z)
      (maxArea : number) (maxIndex : Z) :
  0 <= i -> i + Z.of_nat count <= n ->
  candidatesDP pts ax ay avgX avgY count i maxArea maxIndex
  = Returns (candidatesXY data ax ay avgX avgY count i maxArea maxIndex).
Proof.
  revert i maxArea maxIndex.
  induction count as [| count IH]; intros i maxArea maxIndex Hi Hn; [reflexivity|].
  cbn [candidatesDP candidatesXY].
  destruct (point_interleave pts i ltac:(lia)) as [-> ->].
  cbn [mbind outcome_bind].
  destruct (gt _ _); apply IH; lia.
Qed.

Variables (p q lastIndex : Z).
Hypothesis Hq : 1 <= q.
Hypothesis Hqp : q < p.
Hypothesis Hp : p < 2 ^ 32.
Hypothesis Hlast : lastIndex = p + 1.
Hypothesis Hn : n = p + 2.

Local Abbreviation bs := (div (of_Z p) (of_Z q)).

Lemma bucketDP_bucketXY (lastX lastY : number) (b a : Z) :
  0 <= b < q -> 0 <= a < n ->
  bucketDP pts bs lastX lastY lastIndex b a
  = bucketXY data bs lastX lastY lastIndex b a.
Proof using Hq Hqp Hp Hlast Hn.
  intros Hb Ha.
  destruct (currentRange_bucketed p q lastIndex Hq Hqp Hp Hlast b Hb) as [Hc Hr].
  destruct (nextRange_bucketed p q lastIndex Hq Hqp Hp Hlast b Hb) as [Hnx Hns].
  unfold bucketDP, bucketXY. rewrite Hc, Hnx.
  cbn [mbind outcome_bind].
  rewrite averageDP_averageXY by lia. cbn [mbind outcome_bind].
  destruct (averageXY _ _ _ _ _) as [avgX avgY].
  destruct (point_interleave pts a ltac:(lia)) as [-> ->].
  cbn [mbind outcome_bind].
  rewrite candidatesDP_candidatesXY by lia. reflexivity.
Qed.

Lemma bucketsDP_bucketsXY (lastX lastY : number) (count : nat)
      (bucket a out : Z) (indices : Int32Array) :
  0 <= bucket -> bucket + Z.of_nat count = q -> 0 <= a < n ->
  bucketsDP pts bs lastX lastY lastIndex count bucket a out indices
  = bucketsXY data bs lastX lastY lastIndex count bucket a out indices.
Proof using Hq Hqp Hp Hlast Hn.
  revert bucket a out indices.
  induction count as [| count IH]; intros bucket a out indices Hb Hcnt Ha;
    [reflexivity|].
  cbn [bucketsDP bucketsXY].
  rewrite bucketDP_bucketXY by lia.
  destruct (bucketXY_bucketed p q lastIndex Hq Hqp Hp Hlast data lastX lastY
              bucket a ltac:(lia)) as (w & Hw & (Hrange & _)).
  destruct (currentRange_bucketed p q lastIndex Hq Hqp Hp Hlast bucket ltac:(lia))
    as [_ Hr].
 rewrite Hw. cbn [mbind outcome_bind].
  apply IH; lia.
Qed.

End Refinement.

(** The point-array variant computes the indices of the interleaved
    variant on the buffer of the same coordinates. *)
Lemma lttbIndicesForDataPoints_interleave (pts : list DataPoint) (tp : floored) :
  Z.of_nat (length pts) < 2 ^ 31 ->
  lttbIndicesForDataPoints pts tp
  = lttbIndicesForInterleavedXY (interleave pts) tp.
Proof.
  intros Hlen. unfold lttbIndicesForDataPoints, lttbIndicesForInterleavedXY.
  rewrite (half_length_interleave pts Hlen).
  set (n := Z.of_nat (length pts)) in *.
  destruct (floored_le_Z tp 0 || (n =? 0)) eqn:H0; [reflexivity|].
  destruct (floored_eq_Z tp 1) eqn:H1; [reflexivity|].
  destruct (floored_eq_Z tp 2) eqn:H2; [reflexivity|].
  destruct (Z_le_floored n tp) eqn:H3; [reflexivity|].
  apply orb_false_elim in H0. destruct H0 as [H0 H0n].
  apply Z.eqb_neq in H0n.
  destruct (point_interleave pts (n - 1) ltac:(lia)) as [-> ->].
  cbn [mbind outcome_bind].
  destruct tp as [t | s |]; [| reflexivity | reflexivity].
  cbn in H0, H1, H2, H3.
  apply Z.leb_gt in H0, H3. apply Z.eqb_neq in H1, H2.
  apply (bucketsDP_bucketsXY pts (n - 2) (t - 2) (n - 1)); try lia.
Qed.

Lemma i32_identity_all (n : Z) : n < 2 ^ 31 -> i32_identity n = all_indices n.
Proof.
  intros Hn. unfold i32_identity, all_indices. apply map_ext_in.
  intros i Hi. apply in_seq in Hi. apply toInt32_small. lia.
Qed.

Lemma all_indices_sorted (n : Z) : StronglySorted Z.lt (all_indices n).
Proof.
  unfold all_indices. generalize 0%nat as s.
  induction (Z.to_nat n) as [| k IH]; intros s; cbn; constructor.
  - apply IH.
  - apply Forall_forall. intros x Hx. apply list_elem_of_In, in_map_iff in Hx.
    destruct Hx as (y & <- & Hy). apply in_seq in Hy. lia.
Qed.

Lemma all_indices_range (n : Z) : Forall (fun i => 0 <= i < n) (all_indices n).
Proof.
  apply Forall_forall. intros x Hx. apply list_elem_of_In, in_map_iff in Hx.
  destruct Hx as (y & <- & Hy). apply in_seq in Hy. lia.
Qed.

Lemma all_indices_length (n : Z) : 0 <= n -> Z.of_nat (length (all_indices n)) = n.
Proof. intros. unfold all_indices. rewrite length_map, length_seq. lia. Qed.

Lemma all_indices_lookup (n k : Z) :
  0 <= k < n -> all_indices n !! Z.to_nat k = Some k.
Proof.
  intros Hk. unfold all_indices. rewrite list_lookup_fmap.
  rewrite lookup_seq_lt by lia. cbn. f_equal. lia.
Qed.

Section ChainSorted.

Variables (p q lastIndex : Z).
Hypothesis Hq : 1 <= q.
Hypothesis Hqp : q < p.
Hypothesis Hp : p < 2 ^ 32.
Hypothesis Hlast : lastIndex = p + 1.
Variable data : Float32Array.
Variables lastX lastY : number.
Local Abbreviation bs := (div (of_Z p) (of_Z q)).

(** Winners lie in their buckets, hence increase strictly and stay
    strictly between the first and the last index. *)
Lemma chain_sorted (ws : list Z) (b a : Z) :
  0 <= b -> b + Z.of_nat (length ws) = q ->
  chain (bucketXY data bs lastX lastY lastIndex) b a ws ->
  StronglySorted Z.lt ws /\
  Forall (fun w => boundary bs b + 1 <= w < lastIndex) ws.
Proof using Hq Hqp Hp Hlast.
  revert b a. induction ws as [| w ws IH]; intros b a Hb Hlen Hch.
  - split; constructor.
  - cbn [chain] in Hch. destruct Hch as [Hw Hch].
    cbn [length] in Hlen.
    destruct (bucketXY_bucketed p q lastIndex Hq Hqp Hp Hlast data lastX lastY
                b a ltac:(lia)) as (w' & Hw' & (Hrange & _)).
 rewrite Hw in Hw'. injection Hw' as <-.
    destruct (IH (b + 1) w ltac:(lia) ltac:(lia) Hch) as [IH1 IH2].
    split.
    + constructor; [exact IH1|].
      eapply Forall_impl; [exact IH2|]. cbn. intros x Hx. lia.
    + constructor; [lia|].
      destruct (bucket_boundaries p q Hq Hqp Hp) as (_ & _ & Hstep & _).
 specialize (Hstep b ltac:(lia)).
      eapply Forall_impl; [exact IH2|]. cbn. intros x Hx. lia.
Qed.

End ChainSorted.

Lemma StronglySorted_snoc (l : list Z) (x : Z) :
  StronglySorted Z.lt l -> Forall (fun y => y < x) l -> StronglySorted Z.lt (l ++ [x]).
Proof.
  induction l as [| a l IH]; intros Hs Hf; cbn.
  - constructor; constructor.
  - inversion Hs; subst. inversion Hf; subst. constructor; [auto|].
    apply Forall_app. split; [assumption|]. constructor; [assumption | constructor].
Qed.

(** The interleaved variant returns for every target count: the index
    sequence has the shape of the size policy, increases strictly and
    stays inside the input. *)
Lemma lttbIndicesForInterleavedXY_total (data : Float32Array) (tp : floored) :
  let n := half_length data in
  exists idx,
    lttbIndicesForInterleavedXY data tp = Returns idx /\
    index_shape n tp idx /\
    StronglySorted Z.lt idx /\
    Forall (fun i => 0 <= i < n) idx.
Proof.
  intros n. pose proof (half_length_bound data) as Hn. fold n in Hn.
  destruct tp as [t | [] |].
  - destruct (Z_le_gt_dec 3 t) as [H3 | H3]; [destruct (Z_lt_le_dec t n) as [Hlt | Hge]|].
    + (* bucketed *)
      destruct (lttbIndicesForInterleavedXY_bucketed data t H3 Hlt) as (ws & Hr & Hlen & Hch).
      fold n in Hr, Hch. exists (0 :: ws ++ [n - 1]). split; [exact Hr|].
      destruct (chain_sorted (n - 2) (t - 2) (n - 1) ltac:(lia) ltac:(lia) ltac:(lia)
                  ltac:(lia) data _ _ ws 0 0 ltac:(lia) ltac:(lia) Hch) as [Hs Hf].
      destruct (bucket_boundaries (n - 2) (t - 2) ltac:(lia) ltac:(lia) ltac:(lia))
        as (_ & H0 & _ & _). cbv zeta in H0. rewrite H0 in Hf.
      split; [|split].
      * unfold index_shape.
        destruct (Z.leb_spec t 0); [lia|]. destruct (Z.eqb_spec n 0); [lia|]. cbn [orb].
        destruct (Z.eqb_spec t 1); [lia|]. destruct (Z.eqb_spec t 2); [lia|].
        destruct (Z.leb_spec n t); [lia|]. exists ws. auto.
      * constructor.
        -- apply StronglySorted_snoc; [exact Hs|].
           eapply Forall_impl; [exact Hf|]. cbn. intros x Hx. lia.
        -- apply Forall_app. split.
           ++ eapply Forall_impl; [exact Hf|]. cbn. intros x Hx. lia.
           ++ constructor; [lia | constructor].
      * constructor; [lia|]. apply Forall_app. split.
        -- eapply Forall_impl; [exact Hf|]. cbn. intros x Hx. lia.
        -- constructor; [lia | constructor].
    + (* n <= t *)
      unfold lttbIndicesForInterleavedXY, index_shape. fold n.
      cbn [floored_le_Z floored_eq_Z Z_le_floored].
      destruct (Z.leb_spec t 0); [lia|]. destruct (Z.eqb_spec n 0) as [Hn0 | Hn0]; cbn [orb].
      { exists []. repeat split; constructor. }
      destruct (Z.eqb_spec t 1); [lia|]. destruct (Z.eqb_spec t 2); [lia|].
      destruct (Z.leb_spec n t); [|lia].
      exists (all_indices n). rewrite i32_identity_all by lia.
      split; [reflexivity|]. split; [reflexivity|].
      split; [apply all_indices_sorted | apply all_indices_range].
    + (* t <= 2 *)
      unfold lttbIndicesForInterleavedXY, index_shape. fold n.
      cbn [floored_le_Z floored_eq_Z Z_le_floored].
      destruct (Z.leb_spec t 0); cbn [orb].
      { exists []. repeat split; constructor. }
      destruct (Z.eqb_spec n 0) as [Hn0 | Hn0].
      { exists []. repeat split; constructor. }
      destruct (Z.eqb_spec t 1).
      { exists [0]. split; [reflexivity|]. split; [reflexivity|].
        split; [constructor; constructor|]. constructor; [lia | constructor]. }
      destruct (Z.eqb_spec t 2); [|lia].
      destruct (Z.leb_spec 2 n).
      * exists [0; n - 1]. unfold i32_of_list. cbn [map].
        rewrite !toInt32_small by lia. split; [reflexivity|]. split; [reflexivity|].
        split.
        -- constructor; [constructor; constructor|].
           constructor; [lia | constructor].
        -- constructor; [lia|]. constructor; [lia | constructor].
      * exists [0]. split; [reflexivity|]. split; [reflexivity|].
        split; [constructor; constructor|]. constructor; [lia | constructor].
  - (* -Infinity *)
    exists []. repeat split; constructor.
  - (* +Infinity *)
    unfold lttbIndicesForInterleavedXY, index_shape. fold n.
    cbn [floored_le_Z floored_eq_Z Z_le_floored negb orb].
    destruct (Z.eqb_spec n 0) as [Hn0 | Hn0].
    { exists []. rewrite Hn0. repeat split; constructor. }
    exists (all_indices n). rewrite i32_identity_all by lia.
    split; [reflexivity|]. split; [reflexivity|].
    split; [apply all_indices_sorted | apply all_indices_range].
  - (* NaN *)
    unfold lttbIndicesForInterleavedXY, index_shape. fold n.
    cbn [floored_le_Z floored_eq_Z Z_le_floored negb orb].
    destruct (Z.eqb_spec n 0) as [Hn0 | Hn0]; exists []; repeat split; constructor.
Qed.

(** ** Inputs and outputs of [lttbSample] as point sequences *)

(** ** Shapes *)

Lemma shape_length (n : Z) (t : Z) (idx : list Z) :
  0 <= n -> index_shape n (FInt t) idx ->
  Z.of_nat (length idx) = if t <=? 0 then 0 else Z.min t n.
Proof.
  intros Hn. unfold index_shape.
  destruct (Z.leb_spec t 0); cbn [orb]; [intros ->; reflexivity|].
  destruct (Z.eqb_spec n 0); [intros ->; cbn; lia|].
  destruct (Z.eqb_spec t 1); [intros ->; cbn; lia|].
  destruct (Z.eqb_spec t 2).
  { destruct (Z.leb_spec 2 n); intros ->; cbn; lia. }
  destruct (Z.leb_spec n t).
  { intros ->. rewrite all_indices_length; lia. }
  intros (ws & -> & Hlen). cbn [length]. rewrite length_app. cbn [length]. lia.
Qed.

Lemma shape_ends (n : Z) (tp : floored) (idx : list Z) :
  0 <= n -> index_shape n tp idx -> 2 <= Z.of_nat (length idx) ->
  idx !! 0%nat = Some 0 /\ idx !! (length idx - 1)%nat = Some (n - 1).
Proof.
  intros Hn Hs Hlen.
  assert (forall m, 2 <= Z.of_nat (length (all_indices m)) -> 0 <= m ->
            all_indices m !! 0%nat = Some 0 /\
            all_indices m !! (length (all_indices m) - 1)%nat = Some (m - 1)) as Hall.
  { intros m Hm Hm0. rewrite all_indices_length in Hm by lia.
    pose proof (all_indices_length m Hm0) as Hl. split.
    - apply (all_indices_lookup m 0). lia.
    - replace (length (all_indices m) - 1)%nat with (Z.to_nat (m - 1)) by lia.
      apply all_indices_lookup. lia. }
  destruct tp as [t | [] |]; cbn [index_shape] in Hs.
  - destruct ((t <=? 0) || (n =? 0)); [subst; cbn in Hlen; lia|].
    destruct (t =? 1); [subst; cbn in Hlen; lia|].
    destruct (t =? 2).
    { destruct (2 <=? n); subst; cbn in Hlen; [|lia]. split; reflexivity. }
    destruct (n <=? t); [subst; apply Hall; assumption|].
    destruct Hs as (ws & -> & Hws). split; [reflexivity|].
    apply (list_lookup_middle (0 :: ws) [] (n - 1)).
    cbn [length]. rewrite length_app. cbn [length]. lia.
  - subst. cbn in Hlen. lia.
  - subst. apply Hall; assumption.
  - subst. cbn in Hlen. lia.
Qed.

(** On the passthrough path every index is selected. *)
Lemma shape_passthrough (n : Z) (tp : floored) (idx : list Z) :
  0 < n -> floored_le_Z tp 0 = false -> Z_le_floored n tp = true ->
  index_shape n tp idx -> idx = all_indices n.
Proof.
  intros Hn H0 H1 Hs. destruct tp as [t | [] |]; cbn in H0, H1; try discriminate.
  - apply Z.leb_gt in H0. apply Z.leb_le in H1. cbn [index_shape] in Hs.
    destruct (Z.leb_spec t 0); [lia|]. destruct (Z.eqb_spec n 0); [lia|]. cbn [orb] in Hs.
    destruct (Z.eqb_spec t 1).
    { assert (n = 1) as -> by lia. exact Hs. }
    destruct (Z.eqb_spec t 2).
    { destruct (Z.leb_spec 2 n).
      - assert (n = 2) as -> by lia. exact Hs.
      - assert (n = 1) as -> by lia. exact Hs. }
    destruct (Z.leb_spec n t); [exact Hs | lia].
  - exact Hs.
Qed.

Lemma shape_empty (n : Z) (tp : floored) (idx : list Z) :
  floored_le_Z tp 0 || (n =? 0) = true -> index_shape n tp idx -> idx = [].
Proof.
  intros H Hs. destruct tp as [t | [] |]; cbn in H; cbn [index_shape] in Hs.
  - rewrite H in Hs. exact Hs.
  - exact Hs.
  - apply Z.eqb_eq in H. subst n. exact Hs.
  - exact Hs.
Qed.

(** ** Materialised outputs *)

Lemma lookup_flat_map_pair {A B : Type} (f g : A -> B) (l : list A) (k : nat) :
  flat_map (fun a => [f a; g a]) l !! (2 * k)%nat = f <$> l !! k /\
  flat_map (fun a => [f a; g a]) l !! (2 * k + 1)%nat = g <$> l !! k.
Proof.
  revert k. induction l as [| a l IH]; intros k; [split; reflexivity|].
  destruct k as [| k]; [split; reflexivity|].
  destruct (IH k) as [H1 H2].
  replace (2 * S k)%nat with (S (S (2 * k))) by lia.
  replace (S (S (2 * k)) + 1)%nat with (S (S (2 * k + 1))) by lia.
  split; assumption.
Qed.

Lemma length_flat_map_pair {A B : Type} (f g : A -> B) (l : list A) :
  length (flat_map (fun a => [f a; g a]) l) = (2 * length l)%nat.
Proof.
  induction l as [| a l IH]; [reflexivity|].
  cbn [flat_map]. rewrite length_app, IH. cbn [length]. lia.
Qed.

Lemma buffer_point_get (data : Float32Array) (i : Z) :
  0 <= i < Z.of_nat (length data) / 2 ->
  buffer_point data i
  = Some (BufferPoint (f32_get data (i * 2 + 0)) (f32_get data (i * 2 + 1))).
Proof.
  intros Hi.
  assert (2 * i + 1 < Z.of_nat (length data)) as Hlt.
  { pose proof (Z.mul_div_le (Z.of_nat (length data)) 2 ltac:(lia)). lia. }
  unfold buffer_point, f32_get, Float32Array in *.
  destruct (Z.ltb_spec i 0); [lia|].
  destruct (Z.ltb_spec (i * 2 + 0) 0); [lia|].
  destruct (Z.ltb_spec (i * 2 + 1) 0); [lia|].
  replace (i * 2 + 0) with (2 * i) by lia. replace (i * 2 + 1) with (2 * i + 1) by lia.
  destruct (lookup_lt_is_Some_2 data (Z.to_nat (2 * i)) ltac:(lia)) as [x ->].
  destruct (lookup_lt_is_Some_2 data (Z.to_nat (2 * i + 1)) ltac:(lia)) as [y ->].
  reflexivity.
Qed.

Lemma buffer_point_materialised (data : Float32Array) (idx : list Z) (k : nat) (i : Z) :
  idx !! k = Some i ->
  buffer_point
    (flat_map (fun j => [f32_get data (j * 2 + 0); f32_get data (j * 2 + 1)]) idx)
    (Z.of_nat k)
  = Some (BufferPoint (f32_get data (i * 2 + 0)) (f32_get data (i * 2 + 1))).
Proof.
  intros Hk. unfold buffer_point, Float32Array in *.
  destruct (Z.ltb_spec (Z.of_nat k) 0); [lia|].
  replace (Z.to_nat (2 * Z.of_nat k)) with (2 * k)%nat by lia.
  replace (Z.to_nat (2 * Z.of_nat k + 1)) with (2 * k + 1)%nat by lia.
  destruct (lookup_flat_map_pair (fun j => f32_get data (j * 2 + 0))
              (fun j => f32_get data (j * 2 + 1)) idx k) as [-> ->].
  rewrite Hk. reflexivity.
Qed.

(** What [lttbSample] returns is the sequence of the input points at the
    selected indices. *)
Lemma sample_selected (s : series) (tp : number) :
  valid_input s ->
  exists o idx,
    lttbSample s tp = Returns o /\
    selectedIndices s tp = Returns idx /\
    index_shape (pointCount s) (Math_floor tp) idx /\
    StronglySorted Z.lt idx /\
    Forall (fun i => 0 <= i < pointCount s) idx /\
    sampledCount o = Z.of_nat (length idx) /\
    (forall (k : nat) (i : Z),
        idx !! k = Some i ->
        output_point o (Z.of_nat k) = input_point s i /\ is_Some (input_point s i)).
Proof.
  intros Hv. destruct s as [data | data]; cbn [valid_input pointCount] in *.
  - (* interleaved buffer *)
    destruct (lttbIndicesForInterleavedXY_total data (Math_floor tp))
      as (idx & Hidx & Hshape & Hsort & Hrange).
    rewrite (half_length_small data Hv) in *.
    set (n := Z.of_nat (length data) / 2) in *.
    assert (0 <= n) as Hn0 by (apply Z.div_pos; lia).
    unfold lttbSample, selectedIndices. rewrite (half_length_small data Hv). fold n.
    destruct (floored_le_Z (Math_floor tp) 0 || (n =? 0)) eqn:H0.
    { pose proof (shape_empty _ _ _ H0 Hshape) as ->.
      exists (SampledBuffer []), [].
      split; [reflexivity|]. repeat (split; [assumption|]).
      split; [reflexivity|]. intros k i Hk. discriminate. }
    apply orb_false_elim in H0. destruct H0 as [H0 H0n]. apply Z.eqb_neq in H0n.
    destruct (Z_le_floored n (Math_floor tp)) eqn:H1.
    { assert (0 < n) as Hnpos by lia. pose proof (shape_passthrough n _ _ Hnpos H0 H1 Hshape) as ->.
      exists (SampledBuffer data), (all_indices n).
      split; [reflexivity|]. repeat (split; [assumption|]).
      split; [cbn [sampledCount]; rewrite all_indices_length; lia|].
      intros k i Hk.
      assert (i = Z.of_nat k /\ 0 <= i < n) as [-> Hi].
      { pose proof (lookup_lt_Some _ _ _ Hk) as Hlt.
        pose proof (all_indices_length n Hn0).
        rewrite <- (Nat2Z.id k) in Hk. rewrite all_indices_lookup in Hk by lia.
        injection Hk as <-. lia. }
      cbn [output_point input_point]. split; [reflexivity|].
      rewrite buffer_point_get by lia. eauto. }
    rewrite Hidx. cbn [mbind outcome_bind].
    eexists _, idx. split; [reflexivity|]. split; [reflexivity|].
    repeat (split; [assumption|]).
    split.
    { cbn [sampledCount].
      rewrite (length_flat_map_pair (fun j => f32_get data (j * 2 + 0))
                 (fun j => f32_get data (j * 2 + 1))), Nat2Z.inj_mul.
      change (Z.of_nat 2) with 2. rewrite Z.mul_comm, Z.div_mul; lia. }
    intros k i Hk. cbn [output_point input_point].
    rewrite (buffer_point_materialised data idx k i Hk).
    assert (0 <= i < n) as Hi.
    { rewrite Forall_forall in Hrange. apply Hrange.
      apply list_elem_of_lookup. eauto. }
    rewrite buffer_point_get by lia. eauto.
  - (* point array *)
    pose proof (lttbIndicesForDataPoints_interleave data (Math_floor tp) Hv) as Href.
    destruct (lttbIndicesForInterleavedXY_total (interleave data) (Math_floor tp))
      as (idx & Hidx & Hshape & Hsort & Hrange).
    rewrite (half_length_interleave data Hv) in *.
    set (n := Z.of_nat (length data)) in *.
    rewrite <- Href in Hidx.
    unfold lttbSample, selectedIndices. fold n.
    destruct (floored_le_Z (Math_floor tp) 0 || (n =? 0)) eqn:H0.
    { pose proof (shape_empty _ _ _ H0 Hshape) as ->.
      exists (SampledPoints []), [].
      split; [reflexivity|]. repeat (split; [assumption|]).
      split; [reflexivity|]. intros k i Hk. discriminate. }
    apply orb_false_elim in H0. destruct H0 as [H0 H0n]. apply Z.eqb_neq in H0n.
    destruct (Z_le_floored n (Math_floor tp)) eqn:H1.
    { assert (0 < n) as Hnpos by lia. pose proof (shape_passthrough n _ _ Hnpos H0 H1 Hshape) as ->.
      exists (SampledPoints (map Some data)), (all_indices n).
      split; [reflexivity|]. repeat (split; [assumption|]).
      split; [cbn [sampledCount]; rewrite length_map, all_indices_length; lia|].
      intros k i Hk.
      assert (i = Z.of_nat k /\ 0 <= i < n) as [-> Hi].
      { pose proof (lookup_lt_Some _ _ _ Hk) as Hlt.
        pose proof (all_indices_length n ltac:(lia)).
        rewrite <- (Nat2Z.id k) in Hk. rewrite all_indices_lookup in Hk by lia.
        injection Hk as <-. lia. }
      cbn [output_point input_point]. unfold arr_get.
      destruct (Z.ltb_spec (Z.of_nat k) 0); [lia|]. rewrite Nat2Z.id.
      change (map Some data) with (Some <$> data). rewrite list_lookup_fmap.
      destruct (lookup_lt_is_Some_2 data k ltac:(lia)) as [p ->].
      cbn. eauto. }
    rewrite Hidx. cbn [mbind outcome_bind].
    eexists _, idx. split; [reflexivity|]. split; [reflexivity|].
    repeat (split; [assumption|]).
    split; [cbn [sampledCount]; rewrite length_map; reflexivity|].
    intros k i Hk. cbn [output_point input_point].
    assert (0 <= i < n) as Hi.
    { rewrite Forall_forall in Hrange. apply Hrange.
      apply list_elem_of_lookup. eauto. }
    unfold arr_get at 1. destruct (Z.ltb_spec (Z.of_nat k) 0); [lia|]. rewrite Nat2Z.id.
    unfold Int32Array in *.
    change (map (arr_get data) idx) with (arr_get data <$> idx).
    rewrite list_lookup_fmap, Hk. cbn [fmap option_fmap option_map].
    destruct (get_interleave data i Hi) as (p & -> & _). cbn. eauto.
Qed.

Lemma index_range_S (i : Z) (count : nat) :
  index_range i (S count) = i :: index_range (i + 1) count.
Proof.
  unfold index_range. cbn [seq map]. rewrite Z.add_0_r. f_equal.
  rewrite <- seq_shift, map_map. apply map_ext. intros k. rewrite Nat2Z.inj_succ. unfold Z.succ. ring.
Qed.

Lemma sumXY_fold (data : Float32Array) (count : nat) (i : Z) (sumX sumY : number) (c : Z) :
  sumXY data count i sumX sumY c
  = (fold_left add (map (fun j => f32_get data (j * 2 + 0)) (index_range i count)) sumX,
     fold_left add (map (fun j => f32_get data (j * 2 + 1)) (index_range i count)) sumY,
     c + Z.of_nat count).
Proof.
  revert i sumX sumY c. induction count as [| count IH]; intros i sumX sumY c.
  - cbn. rewrite Z.add_0_r. reflexivity.
  - cbn [sumXY]. rewrite IH, index_range_S. cbn [map fold_left].
    f_equal. lia.
Qed.

Lemma averageXY_lookahead (data : Float32Array) (lastX lastY : number) (ns ne : Z) :
  averageXY data lastX lastY ns ne = lookahead data lastX lastY ns ne.
Proof.
  unfold averageXY, lookahead. destruct (Z.ltb_spec ns ne); [|reflexivity].
  rewrite sumXY_fold. rewrite Z.add_0_l.
  assert (length (index_range ns (Z.to_nat (ne - ns))) = Z.to_nat (ne - ns)) as Hlen.
  { unfold index_range. rewrite length_map, length_seq. reflexivity. }
  destruct (Z.ltb_spec 0 (Z.of_nat (Z.to_nat (ne - ns)))); [|lia].
  unfold mean. rewrite !length_map, Hlen. reflexivity.
Qed.

Lemma chain_lookup (select : Z -> Z -> outcome Z) (ws : list Z) (b0 a0 : Z) (k : nat) (w : Z) :
  chain select b0 a0 ws -> ws !! k = Some w ->
  exists a, (a0 :: ws) !! k = Some a /\ select (b0 + Z.of_nat k) a = Returns w.
Proof.
  revert b0 a0 k. induction ws as [| w0 ws IH]; intros b0 a0 k Hch Hk; [discriminate|].
  cbn [chain] in Hch. destruct Hch as [Hsel Hch].
  destruct k as [| k].
  - cbn in Hk. injection Hk as ->. exists a0. rewrite Z.add_0_r. auto.
  - cbn in Hk. destruct (IH (b0 + 1) w0 k Hch Hk) as (a & Ha & Hs).
    exists a. split; [exact Ha|].
    replace (b0 + Z.of_nat (S k)) with (b0 + 1 + Z.of_nat k) by lia. exact Hs.
Qed.

Lemma as_buffer_half_length (s : series) :
  valid_input s -> half_length (as_buffer s) = pointCount s.
Proof.
  destruct s as [data | data]; cbn [valid_input as_buffer pointCount]; intros Hv.
  - apply half_length_small, Hv.
  - apply half_length_interleave, Hv.
Qed.

Lemma selectedIndices_as_buffer (s : series) (tp : number) :
  valid_input s ->
  selectedIndices s tp = lttbIndicesForInterleavedXY (as_buffer s) (Math_floor tp).
Proof.
  destruct s as [data | data]; cbn [valid_input as_buffer selectedIndices]; intros Hv.
  - reflexivity.
  - apply lttbIndicesForDataPoints_interleave, Hv.
Qed.

(** The bucketed path, bucket by bucket: slot [b + 1] of the result holds
    what bucket [b] selects with the point of slot [b] as anchor. *)
Lemma selectedIndices_buckets (s : series) (tp : number) (t : Z) :
  valid_input s -> Math_floor tp = FInt t ->
  3 <= t -> t < pointCount s ->
  let n := pointCount s in
  let bs := div (of_Z (n - 2)) (of_Z (t - 2)) in
  exists idx,
    selectedIndices s tp = Returns idx /\
    Z.of_nat (length idx) = t /\
    idx !! 0%nat = Some 0 /\
    idx !! Z.to_nat (t - 1) = Some (n - 1) /\
    forall b, 0 <= b < t - 2 ->
      exists a w,
        idx !! Z.to_nat b = Some a /\ idx !! Z.to_nat (b + 1) = Some w /\
        bucketXY (as_buffer s) bs (x_at s (n - 1)) (y_at s (n - 1)) (n - 1) b a
        = Returns w.
Proof.
  intros Hv Hfl H3 Hlt n bs.
  rewrite (selectedIndices_as_buffer s tp Hv), Hfl.
  pose proof (as_buffer_half_length s Hv) as Hhl.
  destruct (lttbIndicesForInterleavedXY_bucketed (as_buffer s) t H3 ltac:(lia))
    as (ws & Hr & Hlen & Hch).
  rewrite Hhl in Hr, Hch. fold n in Hr, Hch. fold bs in Hch.
  exists (0 :: ws ++ [n - 1]). split; [exact Hr|]. split; [|split; [|split]].
  - cbn [length]. rewrite length_app. cbn [length]. lia.
  - reflexivity.
  - apply (list_lookup_middle (0 :: ws) [] (n - 1)). cbn [length]. lia.
  - intros b Hb.
    destruct (lookup_lt_is_Some_2 ws (Z.to_nat b) ltac:(lia)) as [w Hw].
    destruct (chain_lookup _ ws 0 0 (Z.to_nat b) w Hch Hw) as (a & Ha & Hs).
    exists a, w. split; [|split].
    + apply (lookup_app_l_Some (0 :: ws) [n - 1] _ _ Ha).
    + replace (Z.to_nat (b + 1)) with (S (Z.to_nat b)) by lia.
      apply (lookup_app_l_Some ws [n - 1] _ _ Hw).
    + rewrite Z2Nat.id in Hs by lia. exact Hs.
Qed.

(** ** Points by index *)

Lemma buffer_point_index (data : Float32Array) (i : Z) (a : point_value) :
  buffer_point data i = Some a -> 0 <= i < Z.of_nat (length data) / 2.
Proof.
  unfold buffer_point, Float32Array in *. destruct (Z.ltb_spec i 0); [discriminate|].
  destruct (data !! Z.to_nat (2 * i)) eqn:E1; [|discriminate].
  destruct (data !! Z.to_nat (2 * i + 1)) eqn:E2; [|discriminate].
  intros _. apply lookup_lt_Some in E2. split; [lia|].
  assert (i + 1 <= Z.of_nat (length data) / 2)
    by (apply Z.div_le_lower_bound; lia).
  lia.
Qed.

Lemma input_point_index (s : series) (i : Z) (a : point_value) :
  input_point s i = Some a -> 0 <= i < pointCount s.
Proof.
  destruct s as [data | data]; cbn [input_point pointCount].
  - apply buffer_point_index.
  - unfold arr_get. destruct (Z.ltb_spec i 0); [discriminate|].
    destruct (data !! Z.to_nat i) eqn:E; [|discriminate].
    intros _. apply lookup_lt_Some in E. lia.
Qed.

Lemma input_point_is_Some (s : series) (i : Z) :
  0 <= i < pointCount s -> is_Some (input_point s i).
Proof.
  destruct s as [data | data]; cbn [input_point pointCount]; intros Hi.
  - rewrite buffer_point_get by lia. eauto.
  - unfold arr_get. destruct (Z.ltb_spec i 0); [lia|].
    destruct (lookup_lt_is_Some_2 data (Z.to_nat i) ltac:(lia)) as [p ->]. cbn. eauto.
Qed.

Lemma output_point_index (o : sampled) (i : Z) (a : point_value) :
  output_point o i = Some a -> 0 <= i < sampledCount o.
Proof.
  destruct o as [out | out]; cbn [output_point sampledCount].
  - apply buffer_point_index.
  - unfold arr_get. destruct (Z.ltb_spec i 0); [discriminate|].
    destruct (out !! Z.to_nat i) eqn:E; [|discriminate].
    intros _. apply lookup_lt_Some in E. lia.
Qed.

Lemma x_nondecreasing_far (s : series) :
  x_nondecreasing (input_point s) ->
  forall (d : nat) (i : Z) (a b : point_value),
    input_point s i = Some a -> input_point s (i + 1 + Z.of_nat d) = Some b ->
    le (x_of a) (x_of b) = true.
Proof.
  intros Hmono. induction d as [| d IH]; intros i a b Ha Hb.
  - rewrite Z.add_0_r in Hb. eapply Hmono; eauto.
  - pose proof (input_point_index _ _ _ Ha) as Hi.
    pose proof (input_point_index _ _ _ Hb) as Hj.
    rewrite Nat2Z.inj_succ in Hj. unfold Z.succ in Hj.
    assert (0 <= i + 1 + Z.of_nat d < pointCount s) as Hm by lia.
    destruct (input_point_is_Some s (i + 1 + Z.of_nat d) Hm) as [c Hc].
    eapply le_trans; [eapply IH; eauto|].
    eapply Hmono; [exact Hc|].
    replace (i + 1 + Z.of_nat d + 1) with (i + 1 + Z.of_nat (S d)) by lia. exact Hb.
Qed.

Lemma StronglySorted_lookup_lt (l : list Z) (i j : nat) (a b : Z) :
  StronglySorted Z.lt l -> (i < j)%nat -> l !! i = Some a -> l !! j = Some b -> a < b.
Proof.
  intros Hs. revert i j. induction Hs as [| x l Hs IH Hall]; intros i j Hij Ha Hb;
    [discriminate|].
  destruct j as [| j]; [lia|]. cbn in Hb. destruct i as [| i].
  - cbn in Ha. injection Ha as ->. rewrite Forall_forall in Hall.
    apply Hall. apply list_elem_of_lookup. eauto.
  - cbn in Ha. apply (IH i j); [lia | exact Ha | exact Hb].
Qed.

(** ** The claims on the sample *)

(** C1, as stated, fails for a negative target count: the output of one
    point at target count -1 is empty, and 0 is not at most min(-1, 1). *)
Lemma sample_length_negative_target :
  lttbSample (Points [TuplePoint (of_Z 0) (of_Z 0)]) (of_Z (-1))
  = Returns (SampledPoints []) /\
  Math_floor (of_Z (-1)) = FInt (-1) /\
  ~ (sampledCount (SampledPoints [])
     <= Z.min (-1) (pointCount (Points [TuplePoint (of_Z 0) (of_Z 0)]))).
Proof. split; [reflexivity|]. split; [reflexivity|]. cbn. lia. Qed.

(** C1 (amended): the output of [lttbSample] has at most
    min(max(floor(targetCount), 0), N) points, and exactly
    min(floor(targetCount), N) points when floor(targetCount) >= 1. *)
Theorem sample_length (s : series) (tp : number) (t : Z) :
  valid_input s -> Math_floor tp = FInt t ->
  exists o,
    lttbSample s tp = Returns o /\
    sampledCount o <= Z.min (Z.max t 0) (pointCount s) /\
    (1 <= t -> sampledCount o = Z.min t (pointCount s)).
Proof.
  intros Hv Hfl.
  destruct (sample_selected s tp Hv) as (o & idx & Ho & _ & Hshape & _ & _ & Hcnt & _).
  exists o. split; [exact Ho|]. rewrite Hfl in Hshape.
  assert (0 <= pointCount s) as Hn.
  { destruct s; cbn [pointCount]; [apply Z.div_pos|]; lia. }
  rewrite Hcnt, (shape_length _ _ _ Hn Hshape).
  destruct (Z.leb_spec t 0); lia.
Qed.

Lemma sample_length_witness :
  exists o,
    lttbSample (Points twelve_points) (of_Z 5) = Returns o /\
    sampledCount o <= Z.min (Z.max 5 0) (pointCount (Points twelve_points)) /\
    (1 <= 5 -> sampledCount o = Z.min 5 (pointCount (Points twelve_points))).
Proof.
  apply (sample_length (Points twelve_points) (of_Z 5) 5).
  - cbn. lia.
  - reflexivity.
Defined.

(** C2: when the output holds at least two points, its first point is
    the input point 0 and its last point is the input point N - 1. *)
Theorem sample_endpoints (s : series) (tp : number) :
  valid_input s ->
  exists o,
    lttbSample s tp = Returns o /\
    (2 <= sampledCount o ->
     is_Some (input_point s 0) /\
     output_point o 0 = input_point s 0 /\
     is_Some (input_point s (pointCount s - 1)) /\
     output_point o (sampledCount o - 1) = input_point s (pointCount s - 1)).
Proof.
  intros Hv.
  destruct (sample_selected s tp Hv) as (o & idx & Ho & _ & Hshape & _ & _ & Hcnt & Hpts).
  exists o. split; [exact Ho|]. intros H2.
  assert (0 <= pointCount s) as Hn.
  { destruct s; cbn [pointCount]; [apply Z.div_pos|]; lia. }
  destruct (shape_ends _ _ _ Hn Hshape ltac:(lia)) as [Hfirst Hlast].
  destruct (Hpts _ _ Hfirst) as [F1 F2]. destruct (Hpts _ _ Hlast) as [L1 L2].
  replace (Z.of_nat (length idx - 1)) with (sampledCount o - 1) in L1 by lia.
  auto.
Qed.

Lemma sample_endpoints_witness :
  exists o,
    lttbSample (Points twelve_points) (of_Z 5) = Returns o /\
    (2 <= sampledCount o ->
     is_Some (input_point (Points twelve_points) 0) /\
     output_point o 0 = input_point (Points twelve_points) 0 /\
     is_Some (input_point (Points twelve_points) (pointCount (Points twelve_points) - 1)) /\
     output_point o (sampledCount o - 1)
     = input_point (Points twelve_points) (pointCount (Points twelve_points) - 1)).
Proof.
  apply (sample_endpoints (Points twelve_points) (of_Z 5)). cbn. lia.
Defined.

(** C3: the selected indices increase strictly, the output points are
    the input points at these indices, and non-decreasing input x gives
    non-decreasing output x. *)
Theorem sample_indices_increasing (s : series) (tp : number) :
  valid_input s ->
  exists o idx,
    lttbSample s tp = Returns o /\
    selectedIndices s tp = Returns idx /\
    StronglySorted Z.lt idx /\
    sampledCount o = Z.of_nat (length idx) /\
    (forall (k : nat) (i : Z),
        idx !! k = Some i -> output_point o (Z.of_nat k) = input_point s i) /\
    (x_nondecreasing (input_point s) -> x_nondecreasing (output_point o)).
Proof.
  intros Hv.
  destruct (sample_selected s tp Hv) as (o & idx & Ho & Hidx & _ & Hsort & _ & Hcnt & Hpts).
  exists o, idx. repeat (split; [assumption|]). split.
  - intros k i Hk. apply Hpts, Hk.
  - intros Hmono k a b Ha Hb.
    pose proof (output_point_index _ _ _ Ha) as Hka.
    pose proof (output_point_index _ _ _ Hb) as Hkb.
    destruct (lookup_lt_is_Some_2 idx (Z.to_nat k) ltac:(lia)) as [i Hi].
    destruct (lookup_lt_is_Some_2 idx (Z.to_nat (k + 1)) ltac:(lia)) as [j Hj].
    pose proof (StronglySorted_lookup_lt idx (Z.to_nat k) (Z.to_nat (k + 1)) i j
                  Hsort ltac:(lia) Hi Hj) as Hij.
    destruct (Hpts _ _ Hi) as [Hoi _]. destruct (Hpts _ _ Hj) as [Hoj _].
    rewrite Z2Nat.id in Hoi, Hoj by lia. rewrite Hoi in Ha. rewrite Hoj in Hb.
    apply (x_nondecreasing_far s Hmono (Z.to_nat (j - i - 1)) i a b Ha).
    replace (i + 1 + Z.of_nat (Z.to_nat (j - i - 1))) with j by lia. exact Hb.
Qed.

Lemma sample_indices_increasing_witness :
  exists o idx,
    lttbSample (Points twelve_points) (of_Z 5) = Returns o /\
    selectedIndices (Points twelve_points) (of_Z 5) = Returns idx /\
    StronglySorted Z.lt idx /\
    sampledCount o = Z.of_nat (length idx) /\
    (forall (k : nat) (i : Z),
        idx !! k = Some i ->
        output_point o (Z.of_nat k) = input_point (Points twelve_points) i) /\
    (x_nondecreasing (input_point (Points twelve_points)) ->
     x_nondecreasing (output_point o)).
Proof.
  apply (sample_indices_increasing (Points twelve_points) (of_Z 5)). cbn. lia.
Defined.

(** C4: a non-empty input with N <= floor(targetCount) is returned as it
    is, the same points in the same order. *)
Theorem sample_passthrough (s : series) (tp : number) :
  valid_input s -> 1 <= pointCount s ->
  Z_le_floored (pointCount s) (Math_floor tp) = true ->
  lttbSample s tp = Returns (passthrough s) /\
  sampledCount (passthrough s) = pointCount s /\
  (forall i, output_point (passthrough s) i = input_point s i).
Proof.
  intros Hv Hn Hle.
  assert (floored_le_Z (Math_floor tp) 0 = false) as H0.
  { destruct (Math_floor tp) as [t | [] |]; cbn in *; try discriminate; auto.
    apply Z.leb_le in Hle. apply Z.leb_gt. lia. }
  split; [|split].
  - destruct s as [data | data]; cbn [valid_input pointCount] in *; unfold lttbSample.
    + rewrite (half_length_small data Hv), H0, Hle.
      destruct (Z.eqb_spec (Z.of_nat (length data) / 2) 0); [lia | reflexivity].
    + rewrite H0, Hle.
      destruct (Z.eqb_spec (Z.of_nat (length data)) 0); [lia | reflexivity].
  - destruct s; cbn [passthrough sampledCount pointCount]; [|rewrite length_map];
      reflexivity.
  - intros i. destruct s as [data | data]; cbn [passthrough output_point input_point];
      [reflexivity|].
    unfold arr_get. destruct (i <? 0); [reflexivity|].
    change (map Some data) with (Some <$> data). rewrite list_lookup_fmap.
    destruct (data !! Z.to_nat i); reflexivity.
Qed.

Lemma sample_passthrough_witness :
  lttbSample (Points twelve_points) (of_Z 12) = Returns (passthrough (Points twelve_points)) /\
  sampledCount (passthrough (Points twelve_points)) = pointCount (Points twelve_points) /\
  (forall i, output_point (passthrough (Points twelve_points)) i
             = input_point (Points twelve_points) i).
Proof.
  apply (sample_passthrough (Points twelve_points) (of_Z 12)).
  - cbn. lia.
  - cbn. lia.
  - reflexivity.
Defined.

(** C5: the degenerate sizes. A target count of 0 or less, or an empty
    input, gives the empty output; target count 1 gives the point 0;
    target count 2 gives the points 0 and N - 1. *)
Theorem sample_degenerate (s : series) (tp : number) :
  valid_input s ->
  (floored_le_Z (Math_floor tp) 0 = true \/ pointCount s = 0 ->
   lttbSample s tp = Returns (empty_like s)) /\
  (Math_floor tp = FInt 1 -> 1 <= pointCount s ->
   exists o, lttbSample s tp = Returns o /\ sampledCount o = 1 /\
             is_Some (input_point s 0) /\ output_point o 0 = input_point s 0) /\
  (Math_floor tp = FInt 2 -> 2 <= pointCount s ->
   exists o, lttbSample s tp = Returns o /\ sampledCount o = 2 /\
             is_Some (input_point s 0) /\ output_point o 0 = input_point s 0 /\
             is_Some (input_point s (pointCount s - 1)) /\
             output_point o 1 = input_point s (pointCount s - 1)).
Proof.
  intros Hv. split; [|split].
  - intros H. destruct s as [data | data]; cbn [valid_input pointCount] in *;
      unfold lttbSample; [rewrite (half_length_small data Hv)|].
    + destruct H as [-> | ->]; [reflexivity|]. rewrite orb_true_r. reflexivity.
    + destruct H as [-> | ->]; [reflexivity|]. rewrite orb_true_r. reflexivity.
  - intros Hfl Hn.
    destruct (sample_selected s tp Hv) as (o & idx & Ho & _ & Hshape & _ & _ & Hcnt & Hpts).
    rewrite Hfl in Hshape. cbn [index_shape] in Hshape.
    destruct (Z.eqb_spec (pointCount s) 0); [lia|]. cbn in Hshape. subst idx.
    exists o. split; [exact Ho|]. split; [exact Hcnt|].
    destruct (Hpts 0%nat 0 eq_refl). auto.
  - intros Hfl Hn.
    destruct (sample_selected s tp Hv) as (o & idx & Ho & _ & Hshape & _ & _ & Hcnt & Hpts).
    rewrite Hfl in Hshape. cbn [index_shape] in Hshape.
    destruct (Z.eqb_spec (pointCount s) 0); [lia|]. cbn in Hshape.
    destruct (Z.leb_spec 2 (pointCount s)); [|lia]. subst idx.
    exists o. split; [exact Ho|]. split; [exact Hcnt|].
    destruct (Hpts 0%nat 0 eq_refl). destruct (Hpts 1%nat _ eq_refl). auto.
Qed.

Lemma sample_degenerate_witness :
  (floored_le_Z (Math_floor (of_Z 0)) 0 = true \/ pointCount (Points twelve_points) = 0 ->
   lttbSample (Points twelve_points) (of_Z 0) = Returns (empty_like (Points twelve_points))) /\
  (Math_floor (of_Z 0) = FInt 1 -> 1 <= pointCount (Points twelve_points) ->
   exists o, lttbSample (Points twelve_points) (of_Z 0) = Returns o /\ sampledCount o = 1 /\
             is_Some (input_point (Points twelve_points) 0) /\
             output_point o 0 = input_point (Points twelve_points) 0) /\
  (Math_floor (of_Z 0) = FInt 2 -> 2 <= pointCount (Points twelve_points) ->
   exists o, lttbSample (Points twelve_points) (of_Z 0) = Returns o /\ sampledCount o = 2 /\
             is_Some (input_point (Points twelve_points) 0) /\
             output_point o 0 = input_point (Points twelve_points) 0 /\
             is_Some (input_point (Points twelve_points)
                        (pointCount (Points twelve_points) - 1)) /\
             output_point o 1
             = input_point (Points twelve_points) (pointCount (Points twelve_points) - 1)).
Proof.
  apply (sample_degenerate (Points twelve_points) (of_Z 0)). cbn. lia.
Defined.

(** Every bucket of the bucketed path selects the first maximum of its
    candidate range, with the previous selection as anchor. *)
Lemma selected_bucket_first_max (s : series) (tp : number) (t : Z) :
  valid_input s -> Math_floor tp = FInt t ->
  3 <= t -> t < pointCount s ->
  let n := pointCount s in
  let bs := div (of_Z (n - 2)) (of_Z (t - 2)) in
  exists idx,
    selectedIndices s tp = Returns idx /\
    idx !! 0%nat = Some 0 /\
    forall b, 0 <= b < t - 2 ->
      exists a w rs re ns ne,
        idx !! Z.to_nat b = Some a /\ idx !! Z.to_nat (b + 1) = Some w /\
        currentRange bs (n - 1) b = Returns (rs, re) /\
        nextRange bs (n - 1) b = Returns (ns, ne) /\
        first_max
          (candidate_area s a
             (lookahead (as_buffer s) (x_at s (n - 1)) (y_at s (n - 1)) ns ne))
          rs re w.
Proof.
  intros Hv Hfl H3 Hlt n bs.
  destruct (selectedIndices_buckets s tp t Hv Hfl H3 Hlt)
    as (idx & Hidx & _ & H0 & _ & Hb).
  fold n in Hb. fold bs in Hb.
  exists idx. split; [exact Hidx|]. split; [exact H0|].
  intros b Hbr. destruct (Hb b Hbr) as (a & w & Ha & Hw & Hsel).
  assert (n - 2 < 2 ^ 32) as Hp.
  { pose proof (half_length_bound (as_buffer s)) as Hh.
    rewrite (as_buffer_half_length s Hv) in Hh. fold n in Hh. lia. }
  destruct (currentRange_bucketed (n - 2) (t - 2) (n - 1) ltac:(lia) ltac:(lia) Hp
              ltac:(lia) b ltac:(lia)) as [Hc _].
  destruct (nextRange_bucketed (n - 2) (t - 2) (n - 1) ltac:(lia) ltac:(lia) Hp
              ltac:(lia) b ltac:(lia)) as [Hn _].
  destruct (bucketXY_bucketed (n - 2) (t - 2) (n - 1) ltac:(lia) ltac:(lia) Hp
              ltac:(lia) (as_buffer s) (x_at s (n - 1)) (y_at s (n - 1)) b a ltac:(lia))
    as (w' & Hw' & Hfm).
  fold bs in Hc, Hn, Hw', Hfm. rewrite Hsel in Hw'. injection Hw' as <-.
  rewrite averageXY_lookahead in Hfm.
  eexists a, w, _, _, _, _. repeat (split; [eassumption|]). exact Hfm.
Qed.

Lemma SFcompare_absArea2 (a b : number) :
  SFcompare (absArea2 a) (absArea2 b) = SFcompare (SFabs a) (SFabs b).
Proof. destruct a as [[] | [] | | [] ma ea], b as [[] | [] | | [] mb eb]; reflexivity. Qed.

Lemma is_nan_absArea2 (a : number) : is_nan (absArea2 a) = is_nan (SFabs a).
Proof. destruct a as [[] | [] | | [] ma ea]; reflexivity. Qed.

Lemma gt_absArea2 (a b : number) : gt (absArea2 a) (absArea2 b) = gt (SFabs a) (SFabs b).
Proof. unfold gt. rewrite SFcompare_absArea2. reflexivity. Qed.

(** [first_max] looks at the areas through [>] and [isNaN] only. *)
Lemma first_max_ext (A A' : Z -> number) (rs re w : Z) :
  (forall i j, gt (A i) (A j) = gt (A' i) (A' j)) ->
  (forall i, is_nan (A i) = is_nan (A' i)) ->
  first_max A rs re w -> first_max A' rs re w.
Proof.
  intros Hgt Hnan (Hr & Hmax & Hlow & Hall & Hsome).
  split; [exact Hr|]. split; [|split; [|split]].
  - intros j Hj. rewrite <- Hgt. apply Hmax, Hj.
  - intros j Hj. rewrite <- Hgt, <- Hnan. apply Hlow, Hj.
  - intros H. apply Hall. intros j Hj. rewrite Hnan. apply H, Hj.
  - intros (j & Hj & Hn). rewrite <- Hnan. apply Hsome. exists j. rewrite Hnan. auto.
Qed.

(** [first_max] determines the winner. *)
Lemma first_max_unique (A : Z -> number) (rs re w w' : Z) :
  first_max A rs re w -> first_max A rs re w' -> w' = w.
Proof.
  intros (Hr & Hmax & Hlow & Hall & Hsome) (Hr' & Hmax' & Hlow' & Hall' & Hsome').
  destruct (is_nan (A w)) eqn:Hw.
  - assert (forall j, rs <= j < re -> is_nan (A j) = true) as Hn.
    { intros j Hj. destruct (is_nan (A j)) eqn:E; [reflexivity|].
      assert (true = false) as C by (apply Hsome; exists j; auto). discriminate C. }
    rewrite (Hall Hn), (Hall' Hn). reflexivity.
  - assert (is_nan (A w') = false) as Hw' by (apply Hsome'; exists w; auto).
    destruct (Z.lt_trichotomy w w') as [L | [E | G]]; [exfalso | auto | exfalso].
    + destruct (Hlow' w ltac:(lia)) as [H | H]; [|congruence].
      rewrite (Hmax w' Hr') in H. discriminate.
    + destruct (Hlow w' ltac:(lia)) as [H | H]; [|congruence].
      rewrite (Hmax' w Hr) in H. discriminate.
Qed.

Lemma floor_mul_Returns (bucketSize : number) (k f : Z) :
  floor_mul bucketSize k = Returns f -> Math_floor (mul bucketSize (of_Z k)) = FInt f.
Proof. unfold floor_mul. destruct (Math_floor _); congruence. Qed.

(** The floors and ranges of a bucket, and its winner. *)
Lemma selected_bucket_floors (s : series) (tp : number) (t : Z) :
  valid_input s -> Math_floor tp = FInt t ->
  3 <= t -> t < pointCount s ->
  let n := pointCount s in
  let bs := div (of_Z (n - 2)) (of_Z (t - 2)) in
  exists idx,
    selectedIndices s tp = Returns idx /\
    idx !! 0%nat = Some 0 /\
    forall b, 0 <= b < t - 2 ->
      exists a w f0 f1 f2,
        idx !! Z.to_nat b = Some a /\ idx !! Z.to_nat (b + 1) = Some w /\
        Math_floor (mul bs (of_Z b)) = FInt f0 /\
        Math_floor (mul bs (of_Z (b + 1))) = FInt f1 /\
        Math_floor (mul bs (of_Z (b + 2))) = FInt f2 /\
        currentRange bs (n - 1) b = Returns (f0 + 1, Z.min (f1 + 1) (n - 1)) /\
        nextRange bs (n - 1) b = Returns (f1 + 1, Z.min (f2 + 1) (n - 1)) /\
        first_max
          (candidate_area s a
             (lookahead (as_buffer s) (x_at s (n - 1)) (y_at s (n - 1))
                        (f1 + 1) (Z.min (f2 + 1) (n - 1))))
          (f0 + 1) (Z.min (f1 + 1) (n - 1)) w.
Proof.
  intros Hv Hfl H3 Hlt n bs.
  destruct (selected_bucket_first_max s tp t Hv Hfl H3 Hlt) as (idx & Hidx & H0 & Hb).
  fold n in Hb. fold bs in Hb.
  exists idx. split; [exact Hidx|]. split; [exact H0|].
  intros b Hbr.
  destruct (Hb b Hbr) as (a & w & rs & re & ns & ne & Ha & Hw & Hc & Hn & Hfm).
  pose proof (half_length_bound (as_buffer s)) as Hnb.
  rewrite (as_buffer_half_length s Hv) in Hnb. fold n in Hnb.
  assert (n - 2 < 2 ^ 32) as Hp by lia.
  destruct (bucket_boundaries (n - 2) (t - 2) ltac:(lia) ltac:(lia) Hp) as (Hint & _).
  fold bs in Hint.
  destruct (currentRange_bucketed (n - 2) (t - 2) (n - 1) ltac:(lia) ltac:(lia) Hp
              ltac:(lia) b ltac:(lia)) as [Hc' _].
  destruct (nextRange_bucketed (n - 2) (t - 2) (n - 1) ltac:(lia) ltac:(lia) Hp
              ltac:(lia) b ltac:(lia)) as [Hn' _].
  fold bs in Hc', Hn'.
  rewrite Hc in Hc'. injection Hc' as -> ->.
  rewrite Hn in Hn'. injection Hn' as -> ->.
  exists a, w, (boundary bs b), (boundary bs (b + 1)), (boundary bs (b + 2)).
  split; [exact Ha|]. split; [exact Hw|].
  split; [apply floor_mul_Returns, Hint; lia|].
  split; [apply floor_mul_Returns, Hint; lia|].
  split; [apply floor_mul_Returns, Hint; lia|].
  split; [exact Hc|]. split; [exact Hn|]. exact Hfm.
Qed.

(** C6: in the bucketed path the anchor of the first bucket is point 0,
    and each bucket [b] selects, in its candidate range
    [floor(bucketSize b) + 1, min(floor(bucketSize (b + 1)) + 1, N - 1)),
    the lowest index that carries the largest
    |(ax - avgX) (by - ay) - (ax - bx) (avgY - ay)| against the anchor
    (ax, ay) and the lookahead point (avgX, avgY): no candidate exceeds
    it, every earlier candidate is strictly smaller or not a number, it is
    a number unless no area is, and it is the start of the range when no
    area is a number. These conditions single out one index. The
    selection is the anchor of the next bucket. *)
Theorem bucket_selects_largest_triangle (s : series) (tp : number) (t : Z) :
  valid_input s -> Math_floor tp = FInt t ->
  3 <= t -> t < pointCount s ->
  let n := pointCount s in
  let bs := div (of_Z (n - 2)) (of_Z (t - 2)) in
  exists idx,
    selectedIndices s tp = Returns idx /\
    idx !! 0%nat = Some 0 /\
    forall b, 0 <= b < t - 2 ->
      exists a w f0 f1 f2,
        idx !! Z.to_nat b = Some a /\ idx !! Z.to_nat (b + 1) = Some w /\
        Math_floor (mul bs (of_Z b)) = FInt f0 /\
        Math_floor (mul bs (of_Z (b + 1))) = FInt f1 /\
        Math_floor (mul bs (of_Z (b + 2))) = FInt f2 /\
        let rs := f0 + 1 in
        let re := Z.min (f1 + 1) (n - 1) in
        let ns := f1 + 1 in
        let ne := Z.min (f2 + 1) (n - 1) in
        currentRange bs (n - 1) b = Returns (rs, re) /\
        nextRange bs (n - 1) b = Returns (ns, ne) /\
        let avg := lookahead (as_buffer s) (x_at s (n - 1)) (y_at s (n - 1)) ns ne in
        let area j :=
          SFabs (sub (mul (sub (x_at s a) (fst avg)) (sub (y_at s j) (y_at s a)))
                     (mul (sub (x_at s a) (x_at s j)) (sub (snd avg) (y_at s a)))) in
        rs <= w < re /\
        (forall j, rs <= j < re -> gt (area j) (area w) = false) /\
        (forall j, rs <= j < w -> gt (area w) (area j) = true \/ is_nan (area j) = true) /\
        ((forall j, rs <= j < re -> is_nan (area j) = true) -> w = rs) /\
        ((exists j, rs <= j < re /\ is_nan (area j) = false) -> is_nan (area w) = false) /\
        (forall j, rs <= j < w -> SFeqb (area j) (area w) = false) /\
        ((forall j, rs <= j < re -> is_nan (area j) = false) ->
         forall j, rs <= j < re -> le (area j) (area w) = true) /\
        (forall w', first_max area rs re w' -> w' = w).
Proof.
  intros Hv Hfl H3 Hlt n bs.
  destruct (selected_bucket_floors s tp t Hv Hfl H3 Hlt) as (idx & Hidx & H0 & Hb).
  exists idx. split; [exact Hidx|]. split; [exact H0|].
  intros b Hbr.
  destruct (Hb b Hbr) as (a & w & f0 & f1 & f2 & Ha & Hw & F0 & F1 & F2 & Hc & Hn & Hfm).
  exists a, w, f0, f1, f2.
  split; [exact Ha|]. split; [exact Hw|].
  split; [exact F0|]. split; [exact F1|]. split; [exact F2|].
  intros rs re ns ne. split; [exact Hc|]. split; [exact Hn|].
  intros avg area. fold n rs re ns ne in Hfm. fold avg in Hfm.
  assert (first_max area rs re w) as Hfm'.
  { revert Hfm. apply first_max_ext.
    - intros i j. apply gt_absArea2.
    - intros i. apply is_nan_absArea2. }
  pose proof Hfm' as (Hr & Hmax & Hlow & Hall & Hsome).
  split; [exact Hr|]. split; [exact Hmax|]. split; [exact Hlow|].
  split; [exact Hall|]. split; [exact Hsome|]. split; [|split].
  - intros j Hj. destruct (Hlow j Hj) as [Hgt | Hnan].
    + apply gt_not_eq, Hgt.
    + destruct (area j); try discriminate. reflexivity.
  - intros Hnn j Hj. apply not_gt_le; [apply Hnn, Hj | apply Hnn; lia | apply Hmax, Hj].
  - intros w' Hw'. apply (first_max_unique area rs re w w' Hfm' Hw').
Qed.

Lemma bucket_selects_largest_triangle_witness :
  let s := Points twelve_points in
  let n := pointCount s in
  let bs := div (of_Z (n - 2)) (of_Z (5 - 2)) in
  exists idx,
    selectedIndices s (of_Z 5) = Returns idx /\
    idx !! 0%nat = Some 0 /\
    forall b, 0 <= b < 5 - 2 ->
      exists a w f0 f1 f2,
        idx !! Z.to_nat b = Some a /\ idx !! Z.to_nat (b + 1) = Some w /\
        Math_floor (mul bs (of_Z b)) = FInt f0 /\
        Math_floor (mul bs (of_Z (b + 1))) = FInt f1 /\
        Math_floor (mul bs (of_Z (b + 2))) = FInt f2 /\
        let rs := f0 + 1 in
        let re := Z.min (f1 + 1) (n - 1) in
        let ns := f1 + 1 in
        let ne := Z.min (f2 + 1) (n - 1) in
        currentRange bs (n - 1) b = Returns (rs, re) /\
        nextRange bs (n - 1) b = Returns (ns, ne) /\
        let avg := lookahead (as_buffer s) (x_at s (n - 1)) (y_at s (n - 1)) ns ne in
        let area j :=
          SFabs (sub (mul (sub (x_at s a) (fst avg)) (sub (y_at s j) (y_at s a)))
                     (mul (sub (x_at s a) (x_at s j)) (sub (snd avg) (y_at s a)))) in
        rs <= w < re /\
        (forall j, rs <= j < re -> gt (area j) (area w) = false) /\
        (forall j, rs <= j < w -> gt (area w) (area j) = true \/ is_nan (area j) = true) /\
        ((forall j, rs <= j < re -> is_nan (area j) = true) -> w = rs) /\
        ((exists j, rs <= j < re /\ is_nan (area j) = false) -> is_nan (area w) = false) /\
        (forall j, rs <= j < w -> SFeqb (area j) (area w) = false) /\
        ((forall j, rs <= j < re -> is_nan (area j) = false) ->
         forall j, rs <= j < re -> le (area j) (area w) = true) /\
        (forall w', first_max area rs re w' -> w' = w).
Proof.
  apply (bucket_selects_largest_triangle (Points twelve_points) (of_Z 5) 5).
  - cbn. lia.
  - reflexivity.
  - lia.
  - cbn. lia.
Defined.

Lemma pointCount_bound (s : series) : valid_input s -> 0 <= pointCount s < 2 ^ 31.
Proof.
  intros Hv. pose proof (half_length_bound (as_buffer s)) as Hh.
  rewrite (as_buffer_half_length s Hv) in Hh. exact Hh.
Qed.

Lemma last_point_interleave (pts : list DataPoint) :
  let n := Z.of_nat (length pts) in
  0 < n ->
  point_x (arr_get pts (n - 1)) = Returns (x_at (Points pts) (n - 1)) /\
  point_y (arr_get pts (n - 1)) = Returns (y_at (Points pts) (n - 1)).
Proof. intros n Hn. apply point_interleave. lia. Qed.

(** C7 fails with the floors of the real-valued products: for 152 points
    and a target count of 57 the bucket size is 150 / 55, and for bucket
    10 the binary64 product bucketSize * 11 is just below 30, so the next
    range starts at index 30, while (150 / 55) * 11 = 30 gives 31. *)
Lemma lookahead_real_range_differs : ~ lookahead_over_real_range (Buffer (ramp 152)) 57.
Proof.
  unfold lookahead_over_real_range. intros H.
  specialize (H 10 30 33 ltac:(lia)).
  assert (nextRange (div (of_Z (pointCount (Buffer (ramp 152)) - 2)) (of_Z (57 - 2)))
                    (pointCount (Buffer (ramp 152)) - 1) 10 = Returns (30, 33)) as Hn
    by (vm_compute; reflexivity).
  specialize (H Hn). vm_compute in H. discriminate H.
Qed.

(** C7 (amended): the lookahead point of bucket b is the mean of the
    coordinates over [f1 + 1, min(f2 + 1, N - 1)), where f1 and f2 are
    [Math.floor] of the binary64 products bucketSize (b + 1) and
    bucketSize (b + 2), and the point N - 1 when that range is empty; both
    variants compute it, and the bucket's candidates are measured against
    it. *)
Theorem lookahead_is_next_range_mean (s : series) (t : Z) :
  valid_input s -> 3 <= t -> t < pointCount s ->
  let n := pointCount s in
  let bs := div (of_Z (n - 2)) (of_Z (t - 2)) in
  let lastX := x_at s (n - 1) in
  let lastY := y_at s (n - 1) in
  forall b, 0 <= b < t - 2 ->
    exists f1 f2 rs re,
      Math_floor (mul bs (of_Z (b + 1))) = FInt f1 /\
      Math_floor (mul bs (of_Z (b + 2))) = FInt f2 /\
      nextRange bs (n - 1) b = Returns (f1 + 1, Z.min (f2 + 1) (n - 1)) /\
      currentRange bs (n - 1) b = Returns (rs, re) /\
      let ns := f1 + 1 in
      let ne := Z.min (f2 + 1) (n - 1) in
      let avg :=
        if ns <? ne then
          (mean (map (x_at s) (index_range ns (Z.to_nat (ne - ns)))),
           mean (map (y_at s) (index_range ns (Z.to_nat (ne - ns)))))
        else (lastX, lastY) in
      averageXY (as_buffer s) lastX lastY ns ne = avg /\
      (forall pts, s = Points pts -> averageDP pts lastX lastY ns ne = Returns avg) /\
      (forall a,
          bucketXY (as_buffer s) bs lastX lastY (n - 1) b a
          = Returns (candidatesXY (as_buffer s) (x_at s a) (y_at s a) (fst avg) (snd avg)
                       (Z.to_nat (re - rs)) rs (of_Z (-1)) rs)) /\
      (forall pts a, s = Points pts -> 0 <= a < n ->
          bucketDP pts bs lastX lastY (n - 1) b a
          = bucketXY (as_buffer s) bs lastX lastY (n - 1) b a).
Proof.
  intros Hv H3 Hlt n bs lastX lastY b Hb.
  pose proof (pointCount_bound s Hv) as Hn. fold n in Hn.
  assert (n - 2 < 2 ^ 32) as Hp by lia.
  destruct (bucket_boundaries (n - 2) (t - 2) ltac:(lia) ltac:(lia) Hp) as (Hint & _).
  fold bs in Hint.
  destruct (currentRange_bucketed (n - 2) (t - 2) (n - 1) ltac:(lia) ltac:(lia) Hp
              ltac:(lia) b ltac:(lia)) as [Hc Hcr].
  destruct (nextRange_bucketed (n - 2) (t - 2) (n - 1) ltac:(lia) ltac:(lia) Hp
              ltac:(lia) b ltac:(lia)) as [Hnx Hns].
  fold bs in Hc, Hcr, Hnx, Hns.
  exists (boundary bs (b + 1)), (boundary bs (b + 2)), (boundary bs b + 1),
    (Z.min (boundary bs (b + 1) + 1) (n - 1)).
  split; [apply floor_mul_Returns, Hint; lia|].
  split; [apply floor_mul_Returns, Hint; lia|].
  split; [exact Hnx|]. split; [exact Hc|].
  intros ns ne avg.
  assert (averageXY (as_buffer s) lastX lastY ns ne = avg) as Havg.
  { rewrite averageXY_lookahead. reflexivity. }
  split; [exact Havg|]. split; [|split].
  - intros pts ->. cbn [pointCount valid_input] in *.
    rewrite <- Havg. apply averageDP_averageXY; unfold ns, ne; lia.
  - intros a. unfold bucketXY. rewrite Hc, Hnx. cbn [mbind outcome_bind].
    fold ns ne. rewrite Havg. destruct avg as [avgX avgY]. reflexivity.
  - intros pts a -> Ha. cbn [pointCount valid_input] in *.
    apply (bucketDP_bucketXY pts (n - 2) (t - 2) (n - 1)); lia.
Qed.

Lemma lookahead_is_next_range_mean_witness :
  let s := Points twelve_points in
  let t := 5 in
  let b := 0 in
  let n := pointCount s in
  let bs := div (of_Z (n - 2)) (of_Z (t - 2)) in
  let lastX := x_at s (n - 1) in
  let lastY := y_at s (n - 1) in
  exists f1 f2 rs re,
    Math_floor (mul bs (of_Z (b + 1))) = FInt f1 /\
    Math_floor (mul bs (of_Z (b + 2))) = FInt f2 /\
    nextRange bs (n - 1) b = Returns (f1 + 1, Z.min (f2 + 1) (n - 1)) /\
    currentRange bs (n - 1) b = Returns (rs, re) /\
    let ns := f1 + 1 in
    let ne := Z.min (f2 + 1) (n - 1) in
    let avg :=
      if ns <? ne then
        (mean (map (x_at s) (index_range ns (Z.to_nat (ne - ns)))),
         mean (map (y_at s) (index_range ns (Z.to_nat (ne - ns)))))
      else (lastX, lastY) in
    averageXY (as_buffer s) lastX lastY ns ne = avg /\
    (forall pts, s = Points pts -> averageDP pts lastX lastY ns ne = Returns avg) /\
    (forall a,
        bucketXY (as_buffer s) bs lastX lastY (n - 1) b a
        = Returns (candidatesXY (as_buffer s) (x_at s a) (y_at s a) (fst avg) (snd avg)
                     (Z.to_nat (re - rs)) rs (of_Z (-1)) rs)) /\
    (forall pts a, s = Points pts -> 0 <= a < n ->
        bucketDP pts bs lastX lastY (n - 1) b a
        = bucketXY (as_buffer s) bs lastX lastY (n - 1) b a).
Proof.
  apply (lookahead_is_next_range_mean (Points twelve_points) 5).
  - cbn. lia.
  - lia.
  - cbn. lia.
  - lia.
Defined.

Lemma shape_policy (n t : Z) (idx : list Z) :
  ~ (3 <= t /\ t < n) -> index_shape n (FInt t) idx -> idx = policy_indices n t.
Proof.
  intros Hnb. unfold index_shape, policy_indices.
  destruct ((t <=? 0) || (n =? 0)); [auto|].
  destruct (Z.eqb_spec t 1); [auto|]. destruct (Z.eqb_spec t 2); [auto|].
  destruct (Z.leb_spec n t); [auto|].
  destruct (Z_le_gt_dec 3 t); [lia|].
  intros (ws & _ & Hlen). lia.
Qed.

Lemma currentRange_guard (bs : number) (lastIndex b rs re : Z) :
  currentRange bs lastIndex b = Returns (rs, re) -> rs < re /\ re <= lastIndex.
Proof.
  unfold currentRange.
  destruct (floor_mul bs b) as [f0 | |]; try discriminate.
  destruct (floor_mul bs (b + 1)) as [f1 | |]; try discriminate.
  cbn [mbind outcome_bind mret outcome_ret].
  destruct (Z.geb_spec (f0 + 1) (Z.min (f1 + 1) lastIndex));
    intros Heq; injection Heq as <- <-; lia.
Qed.

(** C8: outside 3 <= floor(targetCount) < N the result is the index
    sequence of the size policy; inside, every bucket's candidate range
    is a non-empty range of interior indices; and whatever the bucket
    size, the range that leaves the defensive adjustment is not empty
    and ends at the last index at most. *)
Theorem bucket_candidate_range (s : series) (tp : number) (t : Z) :
  valid_input s -> Math_floor tp = FInt t ->
  let n := pointCount s in
  let bs := div (of_Z (n - 2)) (of_Z (t - 2)) in
  (~ (3 <= t /\ t < n) -> selectedIndices s tp = Returns (policy_indices n t)) /\
  (3 <= t -> t < n ->
   forall b, 0 <= b < t - 2 ->
     exists rs re, currentRange bs (n - 1) b = Returns (rs, re) /\
                   1 <= rs /\ rs < re /\ re <= n - 1) /\
  (forall (bucketSize : number) (lastIndex b rs re : Z),
      currentRange bucketSize lastIndex b = Returns (rs, re) ->
      rs < re /\ re <= lastIndex).
Proof.
  intros Hv Hfl n bs. split; [|split].
  - intros Hnb.
    destruct (sample_selected s tp Hv) as (o & idx & _ & Hidx & Hshape & _).
    rewrite Hfl in Hshape. fold n in Hshape.
    rewrite (shape_policy n t idx Hnb Hshape) in Hidx. exact Hidx.
  - intros H3 Hlt b Hb.
    pose proof (pointCount_bound s Hv) as Hn. fold n in Hn.
    destruct (currentRange_bucketed (n - 2) (t - 2) (n - 1) ltac:(lia) ltac:(lia)
                ltac:(lia) ltac:(lia) b ltac:(lia)) as [Hc Hcr].
    fold bs in Hc, Hcr. eexists _, _. split; [exact Hc|]. lia.
  - apply currentRange_guard.
Qed.

Lemma bucket_candidate_range_witness :
  let s := Points twelve_points in
  let tp := of_Z 5 in
  let t := 5 in
  let n := pointCount s in
  let bs := div (of_Z (n - 2)) (of_Z (t - 2)) in
  (~ (3 <= t /\ t < n) -> selectedIndices s tp = Returns (policy_indices n t)) /\
  (3 <= t -> t < n ->
   forall b, 0 <= b < t - 2 ->
     exists rs re, currentRange bs (n - 1) b = Returns (rs, re) /\
                   1 <= rs /\ rs < re /\ re <= n - 1) /\
  (forall (bucketSize : number) (lastIndex b rs re : Z),
      currentRange bucketSize lastIndex b = Returns (rs, re) ->
      rs < re /\ re <= lastIndex).
Proof.
  apply (bucket_candidate_range (Points twelve_points) (of_Z 5) 5).
  - cbn. lia.
  - reflexivity.
Defined.

(** C9, as stated, fails: in [spiked_buffer] with target count 3 the
    areas of the only bucket are NaN, Infinity, NaN, NaN, none of them
    finite, and the bucket selects index 2, not the start 1 of its range. *)
Lemma nonfinite_bucket_moves_off_start :
  ~ nonfinite_bucket_keeps_start (Buffer spiked_buffer) (of_Z 3) 3.
Proof.
  unfold nonfinite_bucket_keeps_start. intros H.
  specialize (H [0; 2; 5] 0 0 2 1 5 5 5 eq_refl ltac:(lia) eq_refl eq_refl eq_refl eq_refl).
  assert (2 = 1) as E; [|lia].
  apply H. intros j Hj.
  assert (j = 1 \/ j = 2 \/ j = 3 \/ j = 4) as [-> | [-> | [-> | ->]]] by lia;
    vm_compute; reflexivity.
Qed.

(** C9 (amended): a bucket whose candidate areas are all NaN keeps the
    start of its range as the selected index. *)
Theorem nan_bucket_keeps_start (s : series) (tp : number) (t : Z) :
  valid_input s -> Math_floor tp = FInt t ->
  3 <= t -> t < pointCount s ->
  let n := pointCount s in
  let bs := div (of_Z (n - 2)) (of_Z (t - 2)) in
  exists idx,
    selectedIndices s tp = Returns idx /\
    forall b, 0 <= b < t - 2 ->
      exists a w rs re ns ne,
        idx !! Z.to_nat b = Some a /\ idx !! Z.to_nat (b + 1) = Some w /\
        currentRange bs (n - 1) b = Returns (rs, re) /\
        nextRange bs (n - 1) b = Returns (ns, ne) /\
        ((forall j, rs <= j < re ->
            is_nan (candidate_area s a
                      (lookahead (as_buffer s) (x_at s (n - 1)) (y_at s (n - 1)) ns ne) j)
            = true) ->
         w = rs).
Proof.
  intros Hv Hfl H3 Hlt n bs.
  destruct (selected_bucket_first_max s tp t Hv Hfl H3 Hlt) as (idx & Hidx & _ & Hb).
  exists idx. split; [exact Hidx|]. intros b Hbr.
  destruct (Hb b Hbr) as (a & w & rs & re & ns & ne & Ha & Hw & Hc & Hn & Hfm).
  exists a, w, rs, re, ns, ne. repeat (split; [assumption|]).
  destruct Hfm as (_ & _ & _ & Hnan & _). exact Hnan.
Qed.

(** C9: a bucket of NaN areas keeps the start of its range; here all
    four candidates of the one bucket have a NaN area. *)
Lemma nan_bucket_keeps_start_witness :
  let s := Buffer nan_buffer in
  let n := pointCount s in
  let bs := div (of_Z (n - 2)) (of_Z (3 - 2)) in
  exists idx,
    selectedIndices s (of_Z 3) = Returns idx /\
    forall b, 0 <= b < 3 - 2 ->
      exists a w rs re ns ne,
        idx !! Z.to_nat b = Some a /\ idx !! Z.to_nat (b + 1) = Some w /\
        currentRange bs (n - 1) b = Returns (rs, re) /\
        nextRange bs (n - 1) b = Returns (ns, ne) /\
        rs < re /\
        (forall j, rs <= j < re ->
            is_nan (candidate_area s a
                      (lookahead (as_buffer s) (x_at s (n - 1)) (y_at s (n - 1)) ns ne) j)
            = true) /\
        w = rs.
Proof.
  intros s n bs.
  assert (valid_input (Buffer nan_buffer)) as Hv by (vm_compute; reflexivity).
  assert (3 < pointCount (Buffer nan_buffer)) as Hlt by (vm_compute; reflexivity).
  destruct (nan_bucket_keeps_start (Buffer nan_buffer) (of_Z 3) 3 Hv eq_refl ltac:(lia) Hlt)
    as (idx & Hidx & Hb).
  exists idx. split; [exact Hidx|]. intros b Hbr.
  destruct (Hb b Hbr) as (a & w & rs & re & ns & ne & Ha & Hw & Hc & Hn & Hkeep).
  exists a, w, rs, re, ns, ne.
  assert (b = 0) as -> by lia.
  assert (idx = [0; 1; 5]) as ->.
  { assert (selectedIndices (Buffer nan_buffer) (of_Z 3) = Returns [0; 1; 5]) as E
      by (vm_compute; reflexivity).
    rewrite E in Hidx. injection Hidx as <-. reflexivity. }
  assert (a = 0) as -> by (vm_compute in Ha; congruence).
  assert (rs = 1 /\ re = 5) as [-> ->].
  { assert (currentRange (div (of_Z (pointCount (Buffer nan_buffer) - 2)) (of_Z (3 - 2)))
                         (pointCount (Buffer nan_buffer) - 1) 0 = Returns (1, 5)) as E
      by (vm_compute; reflexivity).
    rewrite E in Hc. injection Hc as <- <-. split; reflexivity. }
  assert (ns = 5 /\ ne = 5) as [-> ->].
  { assert (nextRange (div (of_Z (pointCount (Buffer nan_buffer) - 2)) (of_Z (3 - 2)))
                      (pointCount (Buffer nan_buffer) - 1) 0 = Returns (5, 5)) as E
      by (vm_compute; reflexivity).
    rewrite E in Hn. injection Hn as <- <-. split; reflexivity. }
  assert (forall j, 1 <= j < 5 ->
            is_nan (candidate_area (Buffer nan_buffer) 0
                      (lookahead (as_buffer (Buffer nan_buffer))
                         (x_at (Buffer nan_buffer) (pointCount (Buffer nan_buffer) - 1))
                         (y_at (Buffer nan_buffer) (pointCount (Buffer nan_buffer) - 1))
                         5 5) j) = true) as Hnan.
  { intros j Hj.
    assert (j = 1 \/ j = 2 \/ j = 3 \/ j = 4) as [-> | [-> | [-> | ->]]] by lia;
      vm_compute; reflexivity. }
  split; [exact Ha|]. split; [exact Hw|]. split; [exact Hc|]. split; [exact Hn|].
  split; [lia|]. split; [exact Hnan|]. apply Hkeep, Hnan.
Defined.

Lemma interleave_as_tuple (pts : list DataPoint) :
  interleave (map as_tuple pts) = interleave pts.
Proof.
  induction pts as [| p pts IH]; [reflexivity|].
  unfold interleave in *. cbn [map flat_map]. rewrite IH. reflexivity.
Qed.

Lemma interleave_as_object (pts : list DataPoint) :
  interleave (map as_object pts) = interleave pts.
Proof.
  induction pts as [| p pts IH]; [reflexivity|].
  unfold interleave in *. cbn [map flat_map]. rewrite IH. reflexivity.
Qed.

(** C10: the three encodings agree. The indices of a point array are the
    indices of the interleaved buffer of its coordinates, whether the
    points are positional pairs or records. *)
Theorem encodings_agree (pts : list DataPoint) (tp : floored) :
  Z.of_nat (length pts) < 2 ^ 31 ->
  lttbIndicesForDataPoints pts tp = lttbIndicesForInterleavedXY (interleave pts) tp /\
  lttbIndicesForDataPoints (map as_tuple pts) tp
  = lttbIndicesForInterleavedXY (interleave pts) tp /\
  lttbIndicesForDataPoints (map as_object pts) tp
  = lttbIndicesForInterleavedXY (interleave pts) tp.
Proof.
  intros Hlen. split; [|split].
  - apply lttbIndicesForDataPoints_interleave, Hlen.
  - rewrite lttbIndicesForDataPoints_interleave by (rewrite length_map; exact Hlen).
    rewrite interleave_as_tuple. reflexivity.
  - rewrite lttbIndicesForDataPoints_interleave by (rewrite length_map; exact Hlen).
    rewrite interleave_as_object. reflexivity.
Qed.

Lemma encodings_agree_witness :
  lttbIndicesForDataPoints twelve_points (FInt 5)
  = lttbIndicesForInterleavedXY (interleave twelve_points) (FInt 5) /\
  lttbIndicesForDataPoints (map as_tuple twelve_points) (FInt 5)
  = lttbIndicesForInterleavedXY (interleave twelve_points) (FInt 5) /\
  lttbIndicesForDataPoints (map as_object twelve_points) (FInt 5)
  = lttbIndicesForInterleavedXY (interleave twelve_points) (FInt 5).
Proof.
  apply (encodings_agree twelve_points (FInt 5)). cbn. lia.
Defined.

(** * Further properties *)

(** ** Further properties of the sampler *)

(** The interleaved variant returns on every buffer and every floored
    target count, and each index it returns addresses a point of the
    buffer. *)
Theorem lttbIndicesForInterleavedXY_returns (data : Float32Array) (tp : floored) :
  exists idx,
    lttbIndicesForInterleavedXY data tp = Returns idx /\
    Forall (fun i => 0 <= i < half_length data) idx /\
    Forall (fun i => 2 * i + 1 < Z.of_nat (length data)) idx.
Proof.
  destruct (lttbIndicesForInterleavedXY_total data tp) as (idx & Hidx & _ & _ & Hr).
  exists idx. split; [exact Hidx|]. split; [exact Hr|].
  eapply Forall_impl; [exact Hr|]. cbn. intros i Hi.
  unfold half_length, toUint32 in Hi. rewrite Z.shiftr_div_pow2 in Hi by lia.
  change (2 ^ 1) with 2 in Hi.
  pose proof (Z.mod_le (Z.of_nat (length data)) (2 ^ 32) ltac:(lia) ltac:(lia)).
  pose proof (Z.mul_div_le (Z.of_nat (length data) mod 2 ^ 32) 2 ltac:(lia)).
  lia.
Qed.

(** The point-array variant never reads a coordinate of [undefined]: it
    returns on every array below 2^31 points, with indices of existing
    points. *)
Theorem lttbIndicesForDataPoints_returns (pts : list DataPoint) (tp : floored) :
  Z.of_nat (length pts) < 2 ^ 31 ->
  exists idx,
    lttbIndicesForDataPoints pts tp = Returns idx /\
    Forall (fun i => is_Some (arr_get pts i)) idx.
Proof.
  intros Hlen. rewrite (lttbIndicesForDataPoints_interleave pts tp Hlen).
  destruct (lttbIndicesForInterleavedXY_total (interleave pts) tp) as (idx & Hidx & _ & _ & Hr).
  rewrite (half_length_interleave pts Hlen) in Hr.
  exists idx. split; [exact Hidx|].
  eapply Forall_impl; [exact Hr|]. cbn. intros i Hi.
  destruct (get_interleave pts i Hi) as (p & -> & _). eauto.
Qed.

Lemma lttbIndicesForDataPoints_returns_witness :
  exists idx,
    lttbIndicesForDataPoints twelve_points (FInt 5) = Returns idx /\
    Forall (fun i => is_Some (arr_get twelve_points i)) idx.
Proof.
  apply (lttbIndicesForDataPoints_returns twelve_points (FInt 5)). cbn. lia.
Defined.

(** A target count that is NaN gives the empty output, whatever the
    input. *)
Theorem sample_nan_target (s : series) :
  lttbSample s NaN = Returns (empty_like s).
Proof.
  destruct s as [data | data]; unfold lttbSample; cbn [Math_floor NaN floored_le_Z Z_le_floored orb].
  - destruct (Z.eqb_spec (half_length data) 0) as [|Hn]; [reflexivity|].
    unfold lttbIndicesForInterleavedXY. cbn [floored_le_Z floored_eq_Z Z_le_floored orb].
    destruct (Z.eqb_spec (half_length data) 0); [contradiction | reflexivity].
  - destruct (Z.eqb_spec (Z.of_nat (length data)) 0) as [|Hn]; [reflexivity|].
    unfold lttbIndicesForDataPoints. cbn [floored_le_Z floored_eq_Z Z_le_floored orb].
    destruct (Z.eqb_spec (Z.of_nat (length data)) 0); [contradiction|].
    unfold arr_get. destruct (Z.ltb_spec (Z.of_nat (length data) - 1) 0); [lia|].
    destruct (lookup_lt_is_Some_2 data (Z.to_nat (Z.of_nat (length data) - 1)) ltac:(lia))
      as [p ->].
    reflexivity.
Qed.

Lemma boundary_last_lower (p q : Z) :
  1 <= q -> q < p -> p < 2 ^ 32 -> p - 1 <= boundary (div (of_Z p) (of_Z q)) q.
Proof.
  intros Hq Hqp Hp.
  destruct (bucketSize_spec p q Hq Hqp Hp) as (mb & E & -> & Hmb & HE & Hnear & Hgt1 & HqE).
  destruct (product_below p q mb E Hq Hp Hmb HE Hnear HqE q ltac:(lia)) as [B1 B2].
  destruct (floor_mul_pos mb E q Hmb HE ltac:(lia) B2) as (A & a & HA & Hd & Ha & Hr).
  unfold boundary. rewrite HA.
  assert (0 < 2 ^ E) as HT by (apply pow2_pos; lia).
  assert (2 ^ (Zdigits2 (Z.pos mb * q) - 53) <= 2 ^ E) as HG
    by (apply Z.pow_le_mono_r; lia).
  apply Z.div_le_lower_bound; lia.
Qed.

(** On the bucketed path [bucketSize] is a finite number above 1. *)
Theorem bucketSize_above_one (n t : Z) :
  3 <= t -> t < n -> n < 2 ^ 31 ->
  let bucketSize := div (of_Z (n - 2)) (of_Z (t - 2)) in
  is_finite bucketSize = true /\ gt bucketSize (of_Z 1) = true.
Proof.
  intros H3 Hlt Hn.
  destruct (bucketSize_spec (n - 2) (t - 2) ltac:(lia) ltac:(lia) ltac:(lia))
    as (mb & E & Hbs & Hmb & HE & _ & Hgt1 & _).
  cbv zeta. rewrite Hbs. split; [reflexivity|].
  assert (of_Z 1 = S754_finite false 4503599627370496 (-52)) as -> by (vm_compute; reflexivity).
  unfold gt. rewrite SFcompare_rank by reflexivity.
  pose proof (lex_compare_spec (rank (S754_finite false mb (- E)))
                (rank (S754_finite false 4503599627370496 (-52)))) as L.
  cbn [rank] in *.
  destruct (lex_compare _ _); [| | reflexivity];
    (destruct (Z.eq_dec E 52) as [-> | Hne];
     [change (2 ^ 52) with 4503599627370496 in *; lia | lia]).
Qed.

Lemma bucketSize_above_one_witness :
  let bucketSize := div (of_Z (12 - 2)) (of_Z (5 - 2)) in
  is_finite bucketSize = true /\ gt bucketSize (of_Z 1) = true.
Proof. apply (bucketSize_above_one 12 5); lia. Defined.

(** On the bucketed path the defensive adjustment of the candidate range
    is never taken: the range of bucket b is
    [floor(bucketSize b) + 1, min(floor(bucketSize (b + 1)) + 1, N - 1)),
    and it is not empty. *)
Theorem candidate_range_unadjusted (n t b : Z) :
  3 <= t -> t < n -> n < 2 ^ 31 -> 0 <= b < t - 2 ->
  let bucketSize := div (of_Z (n - 2)) (of_Z (t - 2)) in
  exists f0 f1,
    floor_mul bucketSize b = Returns f0 /\
    floor_mul bucketSize (b + 1) = Returns f1 /\
    f0 + 1 < Z.min (f1 + 1) (n - 1) /\
    currentRange bucketSize (n - 1) b = Returns (f0 + 1, Z.min (f1 + 1) (n - 1)).
Proof.
  intros H3 Hlt Hn Hb bs.
  destruct (bucket_boundaries (n - 2) (t - 2) ltac:(lia) ltac:(lia) ltac:(lia)) as (Hint & _).
  destruct (currentRange_bucketed (n - 2) (t - 2) (n - 1) ltac:(lia) ltac:(lia)
              ltac:(lia) ltac:(lia) b ltac:(lia)) as [Hc Hcr].
  exists (boundary bs b), (boundary bs (b + 1)).
  split; [apply Hint; lia|]. split; [apply Hint; lia|]. split; [apply Hcr | exact Hc].
Qed.

Lemma candidate_range_unadjusted_witness :
  let bucketSize := div (of_Z (12 - 2)) (of_Z (5 - 2)) in
  exists f0 f1,
    floor_mul bucketSize 1 = Returns f0 /\
    floor_mul bucketSize (1 + 1) = Returns f1 /\
    f0 + 1 < Z.min (f1 + 1) (12 - 1) /\
    currentRange bucketSize (12 - 1) 1 = Returns (f0 + 1, Z.min (f1 + 1) (12 - 1)).
Proof. apply (candidate_range_unadjusted 12 5 1); lia. Defined.

(** The candidate ranges tile the interior: the first starts at index 1,
    each one starts where the previous one ends, and the last one ends
    at N - 1 or, when the product bucketSize (targetPoints - 2) rounds
    below N - 2, at N - 2. *)
Theorem candidate_ranges_tile (n t : Z) :
  3 <= t -> t < n -> n < 2 ^ 31 ->
  let bucketSize := div (of_Z (n - 2)) (of_Z (t - 2)) in
  exists starts : Z -> Z,
    starts 0 = 1 /\
    (forall b, 0 <= b < t - 2 ->
       currentRange bucketSize (n - 1) b = Returns (starts b, starts (b + 1)) /\
       starts b < starts (b + 1)) /\
    n - 2 <= starts (t - 2) <= n - 1.
Proof.
  intros H3 Hlt Hn bs.
  destruct (bucket_boundaries (n - 2) (t - 2) ltac:(lia) ltac:(lia) ltac:(lia))
    as (_ & H0 & _ & Hlast).
  pose proof (boundary_last_lower (n - 2) (t - 2) ltac:(lia) ltac:(lia) ltac:(lia)) as Hlow.
  fold bs in H0, Hlast, Hlow.
  exists (fun b => Z.min (boundary bs b + 1) (n - 1)).
  split; [rewrite H0; lia|]. split; [|lia].
  intros b Hb.
  destruct (currentRange_bucketed (n - 2) (t - 2) (n - 1) ltac:(lia) ltac:(lia)
              ltac:(lia) ltac:(lia) b ltac:(lia)) as [Hc Hcr].
  fold bs in Hc, Hcr.
  assert (Z.min (boundary bs b + 1) (n - 1) = boundary bs b + 1) as -> by lia.
  split; [exact Hc | lia].
Qed.

Lemma candidate_ranges_tile_witness :
  let bucketSize := div (of_Z (12 - 2)) (of_Z (5 - 2)) in
  exists starts : Z -> Z,
    starts 0 = 1 /\
    (forall b, 0 <= b < 5 - 2 ->
       currentRange bucketSize (12 - 1) b = Returns (starts b, starts (b + 1)) /\
       starts b < starts (b + 1)) /\
    12 - 2 <= starts (5 - 2) <= 12 - 1.
Proof. apply (candidate_ranges_tile 12 5); lia. Defined.

(** Both ends occur: with 17 points and target count 13 the last range
    ends at N - 2, so the point N - 2 is no candidate; with 12 points and
    target count 5 it ends at N - 1. *)
Example last_range_short :
  currentRange (div (of_Z (17 - 2)) (of_Z (13 - 2))) (17 - 1) 10 = Returns (14, 15).
Proof. reflexivity. Qed.

Example last_range_full :
  currentRange (div (of_Z (12 - 2)) (of_Z (5 - 2))) (12 - 1) 2 = Returns (7, 11).
Proof. reflexivity. Qed.

Lemma omap_id_map_Some {A : Type} (l : list A) : omap id (map Some l) = l.
Proof. induction l as [| a l IH]; [reflexivity|]. cbn. f_equal. exact IH. Qed.

Lemma materialised_points (pts : list DataPoint) (idx : list Z) :
  Forall (fun i => 0 <= i < Z.of_nat (length pts)) idx ->
  map Some (omap id (map (arr_get pts) idx)) = map (arr_get pts) idx /\
  length (omap id (map (arr_get pts) idx)) = length idx /\
  interleave (omap id (map (arr_get pts) idx))
  = flat_map (fun i => [f32_get (interleave pts) (i * 2 + 0);
                        f32_get (interleave pts) (i * 2 + 1)]) idx.
Proof.
  induction 1 as [| i idx Hi _ IH]; [repeat split|].
  destruct IH as (IH1 & IH2 & IH3).
  destruct (get_interleave pts i Hi) as (p & Hp & Hx & Hy).
  cbn [map flat_map]. rewrite Hp.
  change (omap id (Some p :: map (arr_get pts) idx))
    with (p :: omap id (map (arr_get pts) idx)).
  change (interleave (p :: omap id (map (arr_get pts) idx)))
    with ([coord_x p; coord_y p] ++ interleave (omap id (map (arr_get pts) idx))).
  cbn [map length]. rewrite IH1, IH2, IH3, Hx, Hy. repeat split.
Qed.

(** In the bucketed path the result is index 0, the winners of the
    buckets, all of them interior indices, and index N - 1: the end
    points are never selected by a bucket. *)
Theorem selected_winners_interior (s : series) (tp : number) (t : Z) :
  valid_input s -> Math_floor tp = FInt t ->
  3 <= t -> t < pointCount s ->
  exists ws,
    selectedIndices s tp = Returns (0 :: ws ++ [pointCount s - 1]) /\
    Z.of_nat (length ws) = t - 2 /\
    Forall (fun w => 1 <= w <= pointCount s - 2) ws.
Proof.
  intros Hv Hfl H3 Hlt.
  rewrite (selectedIndices_as_buffer s tp Hv), Hfl.
  pose proof (as_buffer_half_length s Hv) as Hhl.
  pose proof (pointCount_bound s Hv) as Hn.
  destruct (lttbIndicesForInterleavedXY_bucketed (as_buffer s) t H3 ltac:(lia))
    as (ws & Hr & Hlen & Hch).
  rewrite Hhl in Hr, Hch. set (n := pointCount s) in *.
  exists ws. split; [exact Hr|]. split; [exact Hlen|].
  destruct (chain_sorted (n - 2) (t - 2) (n - 1) ltac:(lia) ltac:(lia) ltac:(lia)
              ltac:(lia) (as_buffer s) _ _ ws 0 0 ltac:(lia) ltac:(lia) Hch) as [_ Hf].
  destruct (bucket_boundaries (n - 2) (t - 2) ltac:(lia) ltac:(lia) ltac:(lia))
    as (_ & H0 & _). cbv zeta in H0. rewrite H0 in Hf.
  eapply Forall_impl; [exact Hf|]. cbn. intros w Hw. lia.
Qed.

Lemma selected_winners_interior_witness :
  exists ws,
    selectedIndices (Points twelve_points) (of_Z 5)
    = Returns (0 :: ws ++ [pointCount (Points twelve_points) - 1]) /\
    Z.of_nat (length ws) = 5 - 2 /\
    Forall (fun w => 1 <= w <= pointCount (Points twelve_points) - 2) ws.
Proof.
  apply (selected_winners_interior (Points twelve_points) (of_Z 5) 5).
  - cbn. lia.
  - reflexivity.
  - lia.
  - cbn. lia.
Defined.

Lemma Float32Array_from_interleave (pts : list DataPoint) :
  binary32_coordinates pts -> Float32Array_from (interleave pts) = interleave pts.
Proof.
  unfold binary32_coordinates, Float32Array_from.
  induction 1 as [| p pts [Hx Hy] _ IH]; [reflexivity|].
  change (interleave (p :: pts)) with ([coord_x p; coord_y p] ++ interleave pts).
  rewrite map_app, IH. cbn [map]. rewrite Hx, Hy. reflexivity.
Qed.

(** Sampling a point array whose coordinates are binary32 values and
    sampling the [Float32Array] built from these coordinates give the
    same coordinates. *)
Theorem sample_encodings_agree (pts : list DataPoint) (tp : number) :
  Z.of_nat (length pts) < 2 ^ 31 ->
  binary32_coordinates pts ->
  exists out,
    lttbSample (Points pts) tp = Returns (SampledPoints out) /\
    lttbSample (Buffer (Float32Array_from (interleave pts))) tp
    = Returns (SampledBuffer (interleave (omap id out))).
Proof.
  intros Hlen H32. rewrite (Float32Array_from_interleave pts H32).
  unfold lttbSample.
  rewrite (half_length_interleave pts Hlen).
  set (n := Z.of_nat (length pts)) in *.
  destruct (floored_le_Z (Math_floor tp) 0 || (n =? 0)) eqn:H0.
  { exists []. split; reflexivity. }
  destruct (Z_le_floored n (Math_floor tp)) eqn:H1.
  { exists (map Some pts). rewrite omap_id_map_Some. split; reflexivity. }
  rewrite (lttbIndicesForDataPoints_interleave pts _ Hlen).
  destruct (lttbIndicesForInterleavedXY_total (interleave pts) (Math_floor tp))
    as (idx & -> & _ & _ & Hr).
  rewrite (half_length_interleave pts Hlen) in Hr.
  cbn [mbind outcome_bind mret outcome_ret].
  exists (map (arr_get pts) idx). split; [reflexivity|].
  destruct (materialised_points pts idx Hr) as (_ & _ & ->). reflexivity.
Qed.

Lemma sample_encodings_agree_witness :
  exists out,
    lttbSample (Points twelve_points) (of_Z 5) = Returns (SampledPoints out) /\
    lttbSample (Buffer (Float32Array_from (interleave twelve_points))) (of_Z 5)
    = Returns (SampledBuffer (interleave (omap id out))).
Proof.
  apply (sample_encodings_agree twelve_points (of_Z 5)).
  - cbn. lia.
  - unfold binary32_coordinates.
    let l := eval vm_compute in twelve_points in change twelve_points with l.
    repeat (apply List.Forall_cons; [split; vm_compute; reflexivity|]).
    apply List.Forall_nil.
Defined.

(** Away from binary32 coordinates the two differ: the array keeps
    y = 1 + 2^-30 and selects point 2, the buffer holds y = 1 there, which
    ties with point 1. *)
Example sample_encodings_differ :
  selectedIndices (Points fine_points) (of_Z 3) = Returns [0; 2; 3] /\
  selectedIndices (Buffer (Float32Array_from (interleave fine_points))) (of_Z 3)
  = Returns [0; 1; 3].
Proof. split; vm_compute; reflexivity. Qed.

(** Sampling is idempotent at a fixed target count: sampling the output
    again returns it unchanged. *)
Theorem sample_twice (s : series) (tp : number) (o : sampled) :
  valid_input s ->
  lttbSample s tp = Returns o ->
  lttbSample (reinput o) tp = Returns o.
Proof.
  intros Hv Ho.
  destruct s as [data | data]; cbn [valid_input] in Hv; unfold lttbSample in Ho.
  - rewrite (half_length_small data Hv) in Ho.
    set (n := Z.of_nat (length data) / 2) in *.
    destruct (floored_le_Z (Math_floor tp) 0 || (n =? 0)) eqn:H0.
    { injection Ho as <-. cbn [reinput]. unfold lttbSample.
      change (half_length []) with 0. rewrite orb_true_r. reflexivity. }
    destruct (Z_le_floored n (Math_floor tp)) eqn:H1.
    { injection Ho as <-. cbn [reinput]. unfold lttbSample.
      rewrite (half_length_small data Hv). fold n. rewrite H0, H1. reflexivity. }
    destruct (lttbIndicesForInterleavedXY_total data (Math_floor tp))
      as (idx & Hidx & Hshape & _ & _).
    rewrite (half_length_small data Hv) in Hshape. fold n in Hshape.
    rewrite Hidx in Ho. cbn [mbind outcome_bind mret outcome_ret] in Ho.
    injection Ho as <-. cbn [reinput]. unfold lttbSample.
    set (out := flat_map _ idx).
    assert (length out = (2 * length idx)%nat) as Hlo by apply length_flat_map_pair.
    apply orb_false_elim in H0. destruct H0 as [H0 H0n]. apply Z.eqb_neq in H0n.
    assert (0 <= n) as Hn0 by (apply Z.div_pos; lia).
    assert (n < 2 ^ 31) as Hn31.
    { apply Z.div_lt_upper_bound; [lia|]. change (2 * 2 ^ 31) with (2 ^ 32). lia. }
    destruct (Math_floor tp) as [t | [] |] eqn:Hfl; cbn in H0, H1; try discriminate.
    + apply Z.leb_gt in H0, H1.
      pose proof (shape_length n t idx Hn0 Hshape) as Hlen.
      destruct (Z.leb_spec t 0); [lia|].
      assert (half_length out = t) as ->.
      { rewrite half_length_small; rewrite Hlo, Nat2Z.inj_mul;
          change (Z.of_nat 2) with 2.
        - rewrite Z.mul_comm, Z.div_mul; lia.
        - change (2 ^ 32) with (2 * 2 ^ 31). lia. }
      cbn [floored_le_Z Z_le_floored].
      destruct (Z.leb_spec t 0); [lia|]. destruct (Z.eqb_spec t 0); [lia|].
      destruct (Z.leb_spec t t); [reflexivity | lia].
    + cbn [index_shape] in Hshape. subst idx. cbn in out. subst out.
      change (half_length []) with 0. cbn. reflexivity.
  - set (n := Z.of_nat (length data)) in *.
    destruct (floored_le_Z (Math_floor tp) 0 || (n =? 0)) eqn:H0.
    { injection Ho as <-. cbn [reinput omap list_omap]. unfold lttbSample.
      cbn [length]. rewrite orb_true_r. reflexivity. }
    destruct (Z_le_floored n (Math_floor tp)) eqn:H1.
    { injection Ho as <-. cbn [reinput]. rewrite omap_id_map_Some. unfold lttbSample.
      fold n. rewrite H0, H1. reflexivity. }
    rewrite (lttbIndicesForDataPoints_interleave data _ Hv) in Ho.
    destruct (lttbIndicesForInterleavedXY_total (interleave data) (Math_floor tp))
      as (idx & Hidx & Hshape & _ & Hr).
    rewrite (half_length_interleave data Hv) in Hshape, Hr. fold n in Hshape, Hr.
    rewrite Hidx in Ho. cbn [mbind outcome_bind mret outcome_ret] in Ho.
    injection Ho as <-. cbn [reinput]. unfold lttbSample.
    destruct (materialised_points data idx Hr) as (Hsome & Hlo & _).
    rewrite Hlo, Hsome.
    apply orb_false_elim in H0. destruct H0 as [H0 H0n]. apply Z.eqb_neq in H0n.
    destruct (Math_floor tp) as [t | [] |] eqn:Hfl; cbn in H0, H1; try discriminate.
    + apply Z.leb_gt in H0, H1.
      pose proof (shape_length n t idx ltac:(lia) Hshape) as Hlen.
      destruct (Z.leb_spec t 0); [lia|].
      replace (Z.of_nat (length idx)) with t by lia.
      cbn [floored_le_Z Z_le_floored].
      destruct (Z.leb_spec t 0); [lia|]. destruct (Z.eqb_spec t 0); [lia|].
      destruct (Z.leb_spec t t); [reflexivity | lia].
    + cbn [index_shape] in Hshape. subst idx. reflexivity.
Qed.

Lemma sample_twice_witness :
  lttbSample (reinput (SampledBuffer (interleave (omap id
     (map (arr_get twelve_points) [0; 3; 6; 7; 11]))))) (of_Z 5)
  = Returns (SampledBuffer (interleave (omap id
     (map (arr_get twelve_points) [0; 3; 6; 7; 11])))).
Proof.
  apply (sample_twice (Buffer (interleave twelve_points)) (of_Z 5)).
  - cbn. lia.
  - vm_compute. reflexivity.
Defined.

(** Comparison results in both directions. *)
Lemma SFcompare_swap (a b : number) :
  SFcompare b a = option_map CompOpp (SFcompare a b).
Proof.
  destruct (is_nan a) eqn:Ha.
  { destruct a; try discriminate. destruct b; reflexivity. }
  destruct (is_nan b) eqn:Hb.
  { destruct b; try discriminate. destruct a; reflexivity. }
  rewrite (SFcompare_rank _ _ Ha Hb), (SFcompare_rank _ _ Hb Ha). cbn. f_equal.
  pose proof (lex_compare_spec (rank a) (rank b)) as L1.
  pose proof (lex_compare_spec (rank b) (rank a)) as L2.
  destruct (rank a) as [[a1 a2] a3], (rank b) as [[b1 b2] b3].
  destruct (lex_compare (a1, a2, a3) (b1, b2, b3));
    destruct (lex_compare (b1, b2, b3) (a1, a2, a3)); try reflexivity; lia.
Qed.

Lemma num_ge_le (a b : number) : num_ge a b = le b a.
Proof.
  unfold num_ge, le, SFleb. rewrite (SFcompare_swap a b).
  destruct (SFcompare a b) as [[]|]; reflexivity.
Qed.

Lemma lt_gt (a b : number) : lt a b = gt b a.
Proof.
  unfold lt, gt, SFltb. rewrite (SFcompare_swap a b).
  destruct (SFcompare a b) as [[]|]; reflexivity.
Qed.

Lemma rank_neg (a : number) :
  rank (neg a) = (- fst (fst (rank a)), - snd (fst (rank a)), - snd (rank a)).
Proof.
  destruct a as [[] | [] | | [] m e]; cbn; rewrite ?Z.opp_involutive; reflexivity.
Qed.

Lemma is_nan_neg (a : number) : is_nan (neg a) = is_nan a.
Proof. destruct a as [[] | [] | | [] m e]; reflexivity. Qed.

Lemma le_neg (a b : number) : le a b = true -> le (neg b) (neg a) = true.
Proof.
  intros H. destruct (le_true_not_nan _ _ H) as [Ha Hb].
  unfold le, SFleb in *.
  rewrite (SFcompare_rank _ _ Ha Hb) in H.
  rewrite SFcompare_rank by (rewrite is_nan_neg; assumption).
  rewrite !rank_neg.
  pose proof (lex_compare_spec (rank a) (rank b)) as L1.
  destruct (rank a) as [[a1 a2] a3], (rank b) as [[b1 b2] b3]. cbn [fst snd].
  pose proof (lex_compare_spec (- b1, - b2, - b3) (- a1, - a2, - a3)) as L2.
  cbn beta iota in L2.
  destruct (lex_compare (a1, a2, a3) (b1, b2, b3)); try discriminate;
    destruct (lex_compare (- b1, - b2, - b3) (- a1, - a2, - a3)); try reflexivity; lia.
Qed.

Lemma withinWindow_same (w : number) (idx : Z) : withinWindow w idx idx = true.
Proof. unfold withinWindow. rewrite Z.sub_diag. reflexivity. Qed.

Lemma withinWindow_mono (w w' : number) (idx j : Z) :
  le w w' = true -> withinWindow w idx j = true -> withinWindow w' idx j = true.
Proof.
  unfold withinWindow. intros Hw H. cbv zeta in *.
  destruct (j - idx =? 0); [reflexivity|]. cbn [orb] in *.
  apply andb_true_iff in H. destruct H as [H1 H2]. rewrite num_ge_le in *.
  apply andb_true_iff. split.
  - eapply le_trans; eauto.
  - eapply le_trans; [apply le_neg; exact Hw | exact H2].
Qed.

Lemma sampledNear_exists (w : number) (idx : Z) (sampled : Int32Array) :
  sampledNear w idx sampled = true <-> exists j, In j sampled /\ withinWindow w idx j = true.
Proof.
  induction sampled as [| j rest IH]; cbn [sampledNear].
  - split; [discriminate | intros (j & [] & _)].
  - destruct (withinWindow w idx j) eqn:E.
    + split; [|reflexivity]. intros _. exists j. split; [left; reflexivity | exact E].
    + rewrite IH. split.
      * intros (j' & Hin & Hw). exists j'. split; [right; exact Hin | exact Hw].
      * intros (j' & [-> | Hin] & Hw); [congruence|]. exists j'. auto.
Qed.

Lemma countRetainedFrom_acc (extrema sampled : Int32Array) (w : number) (r : Z) :
  countRetainedFrom extrema sampled w r = r + countRetainedFrom extrema sampled w 0.
Proof.
  revert r. induction extrema as [| idx rest IH]; intros r; cbn [countRetainedFrom]; [lia|].
  destruct (sampledNear w idx sampled).
  - rewrite (IH (r + 1)), (IH (0 + 1)). lia.
  - apply IH.
Qed.

Lemma countRetained_cons (idx : Z) (extrema sampled : Int32Array) (w : number) :
  countExtremaRetainedWithinWindow (idx :: extrema) sampled w
  = (if sampledNear w idx sampled then 1 else 0)
    + countExtremaRetainedWithinWindow extrema sampled w.
Proof.
  unfold countExtremaRetainedWithinWindow. cbn [countRetainedFrom].
  destruct (sampledNear w idx sampled); [apply countRetainedFrom_acc | reflexivity].
Qed.

(** The count lies between 0 and the number of extrema, and it is 0 when
    nothing was sampled. *)
Theorem countExtrema_bounds (extrema sampled : Int32Array) (w : number) :
  0 <= countExtremaRetainedWithinWindow extrema sampled w <= Z.of_nat (length extrema) /\
  countExtremaRetainedWithinWindow extrema [] w = 0.
Proof.
  split.
  - induction extrema as [| idx rest IH]; [cbn; lia|].
    rewrite countRetained_cons. cbn [length].
    destruct (sampledNear w idx sampled); lia.
  - induction extrema as [| idx rest IH]; [reflexivity|].
    rewrite countRetained_cons. cbn [sampledNear]. exact IH.
Qed.

(** Exact retention passes whatever the window: when every extremum is
    itself a sampled index, all of them count, also for a negative or NaN
    window. *)
Theorem countExtrema_exact (extrema sampled : Int32Array) (w : number) :
  (forall idx, In idx extrema -> In idx sampled) ->
  countExtremaRetainedWithinWindow extrema sampled w = Z.of_nat (length extrema).
Proof.
  induction extrema as [| idx rest IH]; intros Hall; [reflexivity|].
  rewrite countRetained_cons, IH by (intros i Hi; apply Hall; right; exact Hi).
  assert (sampledNear w idx sampled = true) as ->.
  { apply sampledNear_exists. exists idx. split; [apply Hall; left; reflexivity|].
    apply withinWindow_same. }
  cbn [length]. lia.
Qed.

Lemma countExtrema_exact_witness :
  countExtremaRetainedWithinWindow [7; 3] [0; 3; 6; 7; 11] NaN = Z.of_nat (length [7; 3]).
Proof.
  apply (countExtrema_exact [7; 3] [0; 3; 6; 7; 11] NaN).
  intros idx [<- | [<- | []]]; cbn; tauto.
Defined.

(** A wider window retains at least as many extrema. *)
Theorem countExtrema_window_mono (extrema sampled : Int32Array) (w w' : number) :
  le w w' = true ->
  countExtremaRetainedWithinWindow extrema sampled w
  <= countExtremaRetainedWithinWindow extrema sampled w'.
Proof.
  intros Hw. induction extrema as [| idx rest IH]; [reflexivity|].
  rewrite !countRetained_cons.
  destruct (sampledNear w idx sampled) eqn:E.
  - assert (sampledNear w' idx sampled = true) as ->; [|lia].
    apply sampledNear_exists. apply sampledNear_exists in E.
    destruct E as (j & Hin & Hj). exists j. split; [exact Hin|].
    eapply withinWindow_mono; eauto.
  - destruct (sampledNear w' idx sampled); lia.
Qed.

Lemma countExtrema_window_mono_witness :
  countExtremaRetainedWithinWindow [8; 2] [0; 3; 6; 7; 11] (of_Z 1)
  <= countExtremaRetainedWithinWindow [8; 2] [0; 3; 6; 7; 11] (of_Z 2).
Proof.
  apply (countExtrema_window_mono [8; 2] [0; 3; 6; 7; 11] (of_Z 1) (of_Z 2)).
  reflexivity.
Defined.

(** The count depends on the sampled indices as a set only. *)
Theorem countExtrema_sampled_set (extrema sampled sampled' : Int32Array) (w : number) :
  (forall j, In j sampled <-> In j sampled') ->
  countExtremaRetainedWithinWindow extrema sampled w
  = countExtremaRetainedWithinWindow extrema sampled' w.
Proof.
  intros Hset. induction extrema as [| idx rest IH]; [reflexivity|].
  rewrite !countRetained_cons, IH. f_equal.
  assert (sampledNear w idx sampled = sampledNear w idx sampled') as ->; [|reflexivity].
  apply eq_true_iff_eq. rewrite !sampledNear_exists.
  split; intros (j & Hin & Hj); exists j; (split; [apply Hset; exact Hin | exact Hj]).
Qed.

Lemma countExtrema_sampled_set_witness :
  countExtremaRetainedWithinWindow [8; 2] [0; 3; 6] (of_Z 1)
  = countExtremaRetainedWithinWindow [8; 2] [6; 3; 0; 3] (of_Z 1).
Proof.
  apply (countExtrema_sampled_set [8; 2] [0; 3; 6] [6; 3; 0; 3] (of_Z 1)).
  intros j. cbn. tauto.
Defined.

(** Integers below 2^53 compare as numbers the way they compare as integers. *)
Lemma of_Z_compare_pos (a b : Z) :
  0 < a < 2 ^ 53 -> 0 < b < 2 ^ 53 -> SFcompare (of_Z a) (of_Z b) = Some (a ?= b).
Proof.
  intros Ha Hb.
  destruct (of_Z_pos a Ha) as (ma & ta & Ea & Hta & Hma & Rma).
  destruct (of_Z_pos b Hb) as (mb & tb & Eb & Htb & Hmb & Rmb).
  rewrite Ea, Eb. cbn [SFcompare]. f_equal.
  change (2 ^ 53) with (2 * 2 ^ 52) in *.
  set (P := 2 ^ 52) in *.
  assert (0 < P) as HP by (unfold P; lia).
  destruct (Z.compare_spec (- ta) (- tb)) as [E | L | G].
  - assert (ta = tb) as -> by lia.
    change (Pos.compare_cont Eq ma mb) with (Z.pos ma ?= Z.pos mb).
    rewrite Hma, Hmb.
    assert (0 < 2 ^ tb) by (apply Z.pow_pos_nonneg; lia).
    destruct (Z.compare_spec a b) as [-> | L | G].
    + apply Z.compare_refl.
    + apply Z.compare_lt_iff. apply Z.mul_lt_mono_pos_r; assumption.
    + apply Z.compare_gt_iff. apply Z.mul_lt_mono_pos_r; assumption.
  - (* ta > tb *)
    symmetry. apply Z.compare_lt_iff.
    assert (2 ^ ta = 2 ^ tb * 2 ^ (ta - tb)) as Hs.
    { rewrite <- Z.pow_add_r by lia. f_equal. lia. }
    assert (0 < 2 ^ tb) by (apply Z.pow_pos_nonneg; lia).
    assert (2 <= 2 ^ (ta - tb)) as H2.
    { change 2 with (2 ^ 1) at 1. apply Z.pow_le_mono_r; lia. }
    destruct (Z_lt_le_dec a b) as [|C]; [assumption | exfalso].
    assert (b * 2 ^ tb * 2 <= a * 2 ^ ta); [|lia].
    rewrite Hs. clear - H H2 C Ha Hb.
    generalize dependent (2 ^ tb). generalize dependent (2 ^ (ta - tb)).
    intros Y HY X HX. rewrite Z.mul_assoc.
    transitivity (a * X * 2).
    + apply Z.mul_le_mono_nonneg_r; [lia|]. apply Z.mul_le_mono_nonneg_r; lia.
    + apply Z.mul_le_mono_nonneg_l; [|lia]. apply Z.mul_nonneg_nonneg; lia.
  - symmetry. apply Z.compare_gt_iff.
    assert (2 ^ tb = 2 ^ ta * 2 ^ (tb - ta)) as Hs.
    { rewrite <- Z.pow_add_r by lia. f_equal. lia. }
    assert (0 < 2 ^ ta) by (apply Z.pow_pos_nonneg; lia).
    assert (2 <= 2 ^ (tb - ta)) as H2.
    { change 2 with (2 ^ 1) at 1. apply Z.pow_le_mono_r; lia. }
    destruct (Z_lt_le_dec b a) as [|C]; [assumption | exfalso].
    assert (a * 2 ^ ta * 2 <= b * 2 ^ tb); [|lia].
    rewrite Hs. clear - H H2 C Ha Hb.
    generalize dependent (2 ^ ta). generalize dependent (2 ^ (tb - ta)).
    intros Y HY X HX. rewrite Z.mul_assoc.
    transitivity (b * X * 2).
    + apply Z.mul_le_mono_nonneg_r; [lia|]. apply Z.mul_le_mono_nonneg_r; lia.
    + apply Z.mul_le_mono_nonneg_l; [|lia]. apply Z.mul_nonneg_nonneg; lia.
Qed.

Lemma of_Z_compare (a b : Z) :
  0 <= a < 2 ^ 53 -> 0 <= b < 2 ^ 53 -> SFcompare (of_Z a) (of_Z b) = Some (a ?= b).
Proof.
  intros Ha Hb.
  destruct (Z.eq_dec a 0) as [-> | Na], (Z.eq_dec b 0) as [-> | Nb].
  - reflexivity.
  - destruct (of_Z_pos b ltac:(lia)) as (mb & tb & Eb & _). rewrite Eb.
    change (of_Z 0) with (S754_zero false). cbn [SFcompare]. f_equal. symmetry.
    apply Z.compare_lt_iff. lia.
  - destruct (of_Z_pos a ltac:(lia)) as (ma & ta & Ea & _). rewrite Ea.
    change (of_Z 0) with (S754_zero false). cbn [SFcompare]. f_equal. symmetry.
    apply Z.compare_gt_iff. lia.
  - apply of_Z_compare_pos; lia.
Qed.

Lemma of_Z_lt (a b : Z) :
  0 <= a < 2 ^ 53 -> 0 <= b < 2 ^ 53 -> lt (of_Z a) (of_Z b) = (a <? b).
Proof.
  intros Ha Hb. unfold lt, SFltb. rewrite of_Z_compare by assumption.
  unfold Z.ltb. destruct (a ?= b); reflexivity.
Qed.

Lemma of_Z_gt (a b : Z) :
  0 <= a < 2 ^ 53 -> 0 <= b < 2 ^ 53 -> gt (of_Z a) (of_Z b) = (b <? a).
Proof.
  intros Ha Hb. unfold gt. rewrite of_Z_compare by assumption.
  rewrite Z.ltb_antisym. unfold Z.leb. destruct (a ?= b); reflexivity.
Qed.

Lemma of_Z_not_nan (a : Z) : 0 <= a < 2 ^ 53 -> is_nan (of_Z a) = false.
Proof.
  intros Ha. destruct (Z.eq_dec a 0) as [-> | Na]; [reflexivity|].
  destruct (of_Z_pos a ltac:(lia)) as (ma & ta & Ea & _). rewrite Ea. reflexivity.
Qed.

Lemma is_finite_not_nan (a : number) : is_finite a = true -> is_nan a = false.
Proof. destruct a; try discriminate; reflexivity. Qed.

Lemma le_total (a b : number) :
  is_nan a = false -> is_nan b = false -> le a b = false -> le b a = true.
Proof.
  intros Ha Hb H. apply not_gt_le; try assumption.
  destruct (gt b a) eqn:G; [|reflexivity].
  apply gt_asym in G. apply not_gt_le in G; try assumption. congruence.
Qed.

Section AtLeast.

Variable mode : extremum_mode.

Lemma at_least_refl (a : number) : is_nan a = false -> at_least mode a a = true.
Proof. destruct mode; apply le_refl. Qed.

Lemma at_least_trans (a b c : number) :
  at_least mode a b = true -> at_least mode b c = true -> at_least mode a c = true.
Proof. destruct mode; cbn; intros; eapply le_trans; eauto. Qed.

Lemma at_least_total (a b : number) :
  is_nan a = false -> is_nan b = false ->
  at_least mode a b = false -> at_least mode b a = true.
Proof. destruct mode; cbn; intros; apply le_total; auto. Qed.

Lemma scan_on_at_least (y yPos : number) : scan_on mode y yPos = at_least mode yPos y.
Proof. destruct mode; cbn; [reflexivity | apply num_ge_le]. Qed.

Lemma better_strict (a b : number) :
  better mode a b = true -> at_least mode a b = true /\ at_least mode b a = false.
Proof.
  destruct mode; cbn [better at_least]; rewrite ?lt_gt; intros H;
    destruct (gt_true_not_nan _ _ H) as [H1 H2].
  - split.
    + apply not_gt_le; auto. apply gt_asym; exact H.
    + destruct (le a b) eqn:E; [|reflexivity]. apply le_not_gt in E. congruence.
  - split.
    + apply not_gt_le; auto. apply gt_asym; exact H.
    + destruct (le b a) eqn:E; [|reflexivity]. apply le_not_gt in E. congruence.
Qed.

Lemma not_better (a b : number) :
  is_nan a = false -> is_nan b = false ->
  better mode a b = false -> at_least mode b a = true.
Proof.
  destruct mode; cbn [better at_least]; rewrite ?lt_gt; intros Ha Hb H;
    apply not_gt_le; auto.
Qed.

End AtLeast.

Lemma splice_0 {A : Type} (x : A) (l : list A) : splice 0 x l = x :: l.
Proof. unfold splice. rewrite take_0, drop_0. reflexivity. Qed.

Lemma splice_S {A : Type} (pos : nat) (x a : A) (l : list A) :
  splice (S pos) x (a :: l) = a :: splice pos x l.
Proof. reflexivity. Qed.

Lemma In_splice {A : Type} (pos : nat) (x y : A) (l : list A) :
  In y (splice pos x l) <-> y = x \/ In y l.
Proof.
  unfold splice. rewrite in_app_iff. cbn [In].
  rewrite <- (take_drop pos l) at 3. rewrite in_app_iff.
  intuition congruence.
Qed.

Lemma length_splice {A : Type} (pos : nat) (x : A) (l : list A) :
  length (splice pos x l) = S (length l).
Proof.
  unfold splice. rewrite length_app. cbn [length].
  rewrite <- (take_drop pos l) at 3. rewrite length_app. lia.
Qed.

Lemma map_splice {A B : Type} (f : A -> B) (pos : nat) (x : A) (l : list A) :
  map f (splice pos x l) = splice pos (f x) (map f l).
Proof.
  unfold splice. rewrite map_app. cbn [map].
  change (map f) with (fmap (M := list) f). rewrite fmap_take, fmap_drop. reflexivity.
Qed.

Lemma map_removelast {A B : Type} (f : A -> B) (l : list A) :
  map f (removelast l) = removelast (map f l).
Proof.
  induction l as [| a [| b l] IH]; try reflexivity.
  change (map f (a :: removelast (b :: l)) = f a :: removelast (map f (b :: l))).
  cbn [map]. f_equal. exact IH.
Qed.

Lemma In_removelast {A : Type} (x : A) (l : list A) : In x (removelast l) -> In x l.
Proof.
  induction l as [| a l IH]; [intros []|].
  destruct l as [| b l]; [intros []|].
  change (In x (a :: removelast (b :: l)) -> In x (a :: b :: l)).
  intros [-> | H]; [left; reflexivity | right; apply IH; exact H].
Qed.

Lemma snoc_removelast {A : Type} (l : list A) :
  l <> [] -> exists p, l = removelast l ++ [p] /\ last l = Some p.
Proof.
  intros Hl. destruct (last l) as [p|] eqn:E.
  - exists p. split; [|reflexivity].
    apply last_Some in E. destruct E as [l' ->].
    rewrite removelast_last. reflexivity.
  - apply last_None in E. contradiction.
Qed.

Lemma StronglySorted_removelast {A : Type} (R : A -> A -> Prop) (l : list A) :
  StronglySorted R l -> StronglySorted R (removelast l).
Proof.
  induction 1 as [| a l Hs IH Hf]; [constructor|].
  destruct l as [| b l]; [constructor|].
  change (StronglySorted R (a :: removelast (b :: l))).
  constructor; [exact IH|].
  rewrite List.Forall_forall in *. intros x Hx. apply Hf, In_removelast, Hx.
Qed.

Lemma StronglySorted_snoc_inv {A : Type} (R : A -> A -> Prop) (l : list A) (p : A) :
  StronglySorted R (l ++ [p]) -> forall m, In m l -> R m p.
Proof.
  induction l as [| a l IH]; intros Hs m Hm; [destruct Hm|].
  cbn in Hs. apply StronglySorted_inv in Hs. destruct Hs as [Hs Hf].
  destruct Hm as [<- | Hm].
  - rewrite List.Forall_forall in Hf. apply Hf. apply in_app_iff. right. left. reflexivity.
  - apply IH; assumption.
Qed.

Section TopK.

Variable data : Float32Array.
Variable mode : extremum_mode.

Local Abbreviation Y := (yOf data).
Local Abbreviation R := (ranks_before data mode).


Lemma insertSorted_map (kk : number) (idx : Z) (I : list Z) :
  insertSorted mode kk idx (Y idx) (I, map Y I)
  = (insertIdx data mode kk idx I, map Y (insertIdx data mode kk idx I)).
Proof.
  unfold insertSorted, insertIdx.
  destruct (length I =? 0)%nat.
  - rewrite map_app. reflexivity.
  - cbv zeta. rewrite <- map_splice.
    destruct (gt _ kk); [rewrite map_removelast|]; reflexivity.
Qed.

Lemma topK_visit_map (kk : number) (I : list Z) (i : Z) :
  topK_visit data mode kk (I, map Y I) i
  = (visitIdx data mode kk I i, map Y (visitIdx data mode kk I i)).
Proof.
  unfold topK_visit, visitIdx. cbn [fst snd].
  change (f32_get data (i * 2 + 1)) with (Y i).
  destruct (negb (is_finite (Y i))); [reflexivity|].
  destruct (lt _ kk); [apply insertSorted_map|].
  change (map Y I) with (fmap (M := list) Y I). rewrite fmap_last.
  change (Y <$> last I) with (option_map Y (last I)).
  destruct (better mode (Y i) _); [apply insertSorted_map | reflexivity].
Qed.

Lemma topK_fold_map (kk : number) (l : list Z) (I : list Z) :
  fold_left (topK_visit data mode kk) l (I, map Y I)
  = (fold_left (visitIdx data mode kk) l I, map Y (fold_left (visitIdx data mode kk) l I)).
Proof.
  revert I. induction l as [| i l IH]; intros I; [reflexivity|].
  cbn [fold_left]. rewrite topK_visit_map. apply IH.
Qed.

(** Inserting a later point with a finite y keeps the list ranked. *)
Lemma splice_ranked (idx : Z) (I : list Z) :
  StronglySorted R I ->
  Forall (fun j => j < idx /\ is_finite (Y j) = true) I ->
  is_finite (Y idx) = true ->
  StronglySorted R (splice (insertionPoint mode (Y idx) (map Y I)) idx I).
Proof.
  intros Hs Hf Hy. induction I as [| j I IH].
  - cbn [map insertionPoint]. rewrite splice_0. repeat constructor.
  - apply StronglySorted_inv in Hs. destruct Hs as [Hs Hj].
    apply Forall_cons in Hf. destruct Hf as [[Hlt Hfj] Hf].
    rewrite List.Forall_forall in Hj.
    cbn [map insertionPoint]. rewrite scan_on_at_least.
    destruct (at_least mode (Y j) (Y idx)) eqn:E.
    + rewrite splice_S. constructor; [apply IH; assumption|].
      rewrite List.Forall_forall. intros x Hx. apply In_splice in Hx.
      destruct Hx as [-> | Hx]; [|apply Hj; exact Hx].
      split; [exact E | intros _; exact Hlt].
    + rewrite splice_0.
      assert (at_least mode (Y idx) (Y j) = true) as E'.
      { apply at_least_total; auto using is_finite_not_nan. }
      constructor; [constructor; [exact Hs | rewrite List.Forall_forall; exact Hj]|].
      rewrite List.Forall_forall. intros x [<- | Hx].
      * split; [exact E' | congruence].
      * destruct (Hj x Hx) as [Hjx _]. split.
        -- eapply at_least_trans; eauto.
        -- intros Hx'. assert (at_least mode (Y j) (Y idx) = true); [|congruence].
           eapply at_least_trans; eauto.
Qed.


Lemma ranked_below_weaken (c : Z) (I : list Z) :
  ranked_below data mode c I -> ranked_below data mode (c + 1) I.
Proof.
  intros [Hf Hs]. split; [|exact Hs].
  rewrite List.Forall_forall in *. intros j Hj. destruct (Hf j Hj). split; [lia | assumption].
Qed.

Lemma spliced_ranked_below (c : Z) (I : list Z) :
  ranked_below data mode c I -> 0 <= c -> is_finite (Y c) = true ->
  ranked_below data mode (c + 1) (splice (insertionPoint mode (Y c) (map Y I)) c I).
Proof.
  intros [Hf Hs] Hc Hy. split.
  - rewrite List.Forall_forall in *. intros j Hj. apply In_splice in Hj.
    destruct Hj as [-> | Hj]; [split; [lia | exact Hy]|].
    destruct (Hf j Hj). split; [lia | assumption].
  - apply splice_ranked; try assumption.
    rewrite List.Forall_forall in *. intros j Hj. destruct (Hf j Hj). split; [lia | assumption].
Qed.

Lemma removelast_ranked_below (c : Z) (I : list Z) :
  ranked_below data mode c I -> ranked_below data mode c (removelast I).
Proof.
  intros [Hf Hs]. split; [|apply StronglySorted_removelast; exact Hs].
  rewrite List.Forall_forall in *. intros j Hj. apply Hf, In_removelast, Hj.
Qed.

Lemma insertIdx_ranked (kk : number) (c : Z) (I : list Z) :
  ranked_below data mode c I -> 0 <= c -> is_finite (Y c) = true ->
  ranked_below data mode (c + 1) (insertIdx data mode kk c I).
Proof.
  intros HI Hc Hy. unfold insertIdx.
  destruct I as [| j I'] eqn:EI.
  - cbn [length Nat.eqb app]. split.
    + constructor; [split; [lia | exact Hy] | constructor].
    + repeat constructor.
  - rewrite <- EI in *. replace (length I =? 0)%nat with false by (rewrite EI; reflexivity).
    cbv zeta. pose proof (spliced_ranked_below c I HI Hc Hy) as HS.
    destruct (gt _ kk); [apply removelast_ranked_below|]; exact HS.
Qed.

Lemma visitIdx_ranked (kk : number) (c : Z) (I : list Z) :
  ranked_below data mode c I -> 0 <= c ->
  ranked_below data mode (c + 1) (visitIdx data mode kk I c).
Proof.
  intros HI Hc. unfold visitIdx.
  destruct (is_finite (Y c)) eqn:Hy; cbn [negb]; [|apply ranked_below_weaken; exact HI].
  destruct (lt _ kk); [apply insertIdx_ranked; assumption|].
  destruct (better mode _ _); [apply insertIdx_ranked; assumption|].
  apply ranked_below_weaken; exact HI.
Qed.

Lemma fold_ranked (kk : number) (c : nat) :
  ranked_below data mode (Z.of_nat c)
               (fold_left (visitIdx data mode kk) (map Z.of_nat (seq 0 c)) []).
Proof.
  induction c as [| c IH].
  - split; constructor.
  - rewrite seq_S, map_app, fold_left_app. cbn [map fold_left Nat.add].
    replace (Z.of_nat (S c)) with (Z.of_nat c + 1) by lia.
    apply visitIdx_ranked; [exact IH | lia].
Qed.


Lemma finiteBelow_S (c : nat) :
  finiteBelow data (S c)
  = finiteBelow data c + (if is_finite (Y (Z.of_nat c)) then 1 else 0).
Proof.
  unfold finiteBelow. rewrite seq_S, map_app, List.filter_app, length_app.
  cbn [Nat.add map List.filter]. destruct (is_finite _); cbn [length]; lia.
Qed.

Lemma finiteBelow_nonneg (c : nat) : 0 <= finiteBelow data c.
Proof. unfold finiteBelow. lia. Qed.

Lemma visitIdx_top (K : Z) (c : nat) (I : list Z) :
  1 <= K < 2 ^ 52 ->
  ranked_below data mode (Z.of_nat c) I -> top_below data mode K c I ->
  top_below data mode K (S c) (visitIdx data mode (of_Z K) I (Z.of_nat c)).
Proof.
  intros HK HI [Hlen Htop].
  pose proof (finiteBelow_nonneg c) as Hnn.
  assert (0 <= K < 2 ^ 53) as HKR.
  { change (2 ^ 53) with (2 * 2 ^ 52). lia. }
  assert (forall z, 0 <= z <= K + 1 -> 0 <= z < 2 ^ 53) as Hsmall.
  { intros z Hz. change (2 ^ 53) with (2 * 2 ^ 52). lia. }
  unfold top_below. rewrite finiteBelow_S.
  replace (Z.of_nat (S c)) with (Z.of_nat c + 1) by lia.
  set (i := Z.of_nat c) in *.
  unfold visitIdx.
  destruct (is_finite (Y i)) eqn:Hy; cbn [negb].
  2:{ split; [lia|]. intros j Hj Hfj Hnj. apply Htop; try assumption.
      assert (j <> i) by congruence. lia. }
  destruct HI as [Hf Hs]. pose proof Hf as Hf'. rewrite List.Forall_forall in Hf.
  rewrite of_Z_lt by (try apply Hsmall; lia).
  destruct (Z.ltb_spec (Z.of_nat (length I)) K) as [Hlt | Hge].
  - (* room left: the point goes in and nothing is dropped *)
    assert (forall j, 0 <= j < i + 1 -> is_finite (Y j) = true -> j = i \/ In j I) as Hall.
    { intros j Hj Hfj. destruct (Z.eq_dec j i) as [|Hne]; [left; assumption | right].
      destruct (in_dec Z.eq_dec j I) as [|Hn]; [assumption | exfalso].
      destruct (Htop j ltac:(lia) Hfj Hn) as [HK' _]. lia. }
    unfold insertIdx. destruct I as [| m0 I0] eqn:EI.
    + cbn [length Nat.eqb app] in *. split; [lia|].
      intros j Hj Hfj Hn. exfalso. destruct (Hall j Hj Hfj) as [-> | []].
      apply Hn. left. reflexivity.
    + rewrite <- EI in *.
      replace (length I =? 0)%nat with false by (rewrite EI; reflexivity).
      cbv zeta. rewrite length_splice.
      rewrite of_Z_gt by (try apply Hsmall; lia).
      replace (K <? Z.of_nat (S (length I))) with false by (symmetry; apply Z.ltb_ge; lia).
      rewrite length_splice. split; [lia|].
      intros j Hj Hfj Hn. exfalso. apply Hn. apply In_splice.
      destruct (Hall j Hj Hfj); auto.
  - (* the list is full *)
    assert (Z.of_nat (length I) = K) as HlenK by lia.
    assert (I <> []) as Hne by (intros ->; cbn in HlenK; lia).
    destruct (snoc_removelast I Hne) as (w & EI & Hw).
    assert (In w I) as Hwin by (rewrite EI; apply in_app_iff; right; left; reflexivity).
    assert (forall m, In m I -> at_least mode (Y m) (Y w) = true) as Hworst.
    { intros m Hm. rewrite EI in Hm. apply in_app_iff in Hm. destruct Hm as [Hm | [<- | []]].
      - rewrite EI in Hs. apply (StronglySorted_snoc_inv _ _ _ Hs m Hm).
      - apply at_least_refl, is_finite_not_nan, Hf, Hwin. }
    rewrite Hw. change (default NaN (option_map Y (Some w))) with (Y w).
    destruct (better mode (Y i) (Y w)) eqn:Hb.
    + (* the point is better than the worst entry: in it goes, and the
         last entry is dropped *)
      apply better_strict in Hb. destruct Hb as [Hb1 Hb2].
      unfold insertIdx.
      replace (length I =? 0)%nat with false
        by (symmetry; apply Nat.eqb_neq; destruct I; [contradiction | cbn; lia]).
      cbv zeta. rewrite length_splice.
      rewrite of_Z_gt by (try apply Hsmall; lia).
      replace (K <? Z.of_nat (S (length I))) with true by (symmetry; apply Z.ltb_lt; lia).
      set (Sp := splice (insertionPoint mode (Y i) (map Y I)) i I).
      assert (StronglySorted R Sp) as HsS.
      { apply splice_ranked; try assumption.
        rewrite List.Forall_forall. intros j Hj. destruct (Hf j Hj). split; [lia | assumption]. }
      assert (Sp <> []) as HneS.
      { intros E. pose proof (length_splice (insertionPoint mode (Y i) (map Y I)) i I) as L.
        fold Sp in L. rewrite E in L. discriminate. }
      destruct (snoc_removelast Sp HneS) as (p & ES & _).
      assert (Z.of_nat (length (removelast Sp)) = K) as HlenS.
      { pose proof (length_splice (insertionPoint mode (Y i) (map Y I)) i I) as L.
        fold Sp in L. rewrite ES, length_app in L. cbn [length] in L. lia. }
      split; [lia|].
      intros j Hj Hfj Hn. split; [exact HlenS|]. intros m Hm.
      destruct (in_dec Z.eq_dec j Sp) as [HjS | HjS].
      * rewrite ES in HjS. apply in_app_iff in HjS.
        destruct HjS as [HjS | [<- | []]]; [contradiction|].
        rewrite ES in HsS. apply (StronglySorted_snoc_inv _ _ _ HsS m Hm).
      * assert (j <> i) as Hji by (intros ->; apply HjS, In_splice; auto).
        assert (~ In j I) as HjI by (intros C; apply HjS, In_splice; auto).
        destruct (Htop j ltac:(lia) Hfj HjI) as [_ HR].
        apply In_removelast in Hm. apply In_splice in Hm.
        destruct Hm as [-> | Hm]; [|apply HR; exact Hm].
        destruct (HR w Hwin) as [Hwj _]. split.
        -- eapply at_least_trans; eauto.
        -- intros C. assert (at_least mode (Y w) (Y i) = true); [|congruence].
           eapply at_least_trans; eauto.
    + (* no better than the worst entry: left out *)
      split; [lia|].
      intros j Hj Hfj Hn. split; [exact HlenK|]. intros m Hm.
      destruct (Z.eq_dec j i) as [-> | Hji].
      * split.
        -- eapply at_least_trans; [apply Hworst; exact Hm|].
           apply not_better; [apply is_finite_not_nan; exact Hy | | exact Hb].
           apply is_finite_not_nan, Hf, Hwin.
        -- intros _. apply (Hf m Hm).
      * apply (Htop j ltac:(lia) Hfj Hn); exact Hm.
Qed.

Lemma fold_top (K : Z) (c : nat) :
  1 <= K < 2 ^ 52 ->
  top_below data mode K c (fold_left (visitIdx data mode (of_Z K)) (map Z.of_nat (seq 0 c)) []).
Proof.
  intros HK. induction c as [| c IH].
  - split; [cbn; unfold finiteBelow; cbn; lia|]. intros j Hj. lia.
  - rewrite seq_S, map_app, fold_left_app. cbn [map fold_left Nat.add].
    apply visitIdx_top; [exact HK | apply fold_ranked | exact IH].
Qed.

End TopK.

Lemma finiteBelow_le (data : Float32Array) (c : nat) : finiteBelow data c <= Z.of_nat c.
Proof.
  induction c as [| c IH]; [unfold finiteBelow; cbn; lia|].
  rewrite finiteBelow_S. destruct (is_finite _); lia.
Qed.

Lemma Math_min_of_Z (a b : Z) :
  0 <= a < 2 ^ 53 -> 0 <= b < 2 ^ 53 -> Math_min (of_Z a) (of_Z b) = of_Z (Z.min a b).
Proof.
  intros Ha Hb. unfold Math_min.
  rewrite !of_Z_not_nan by assumption. cbn [orb].
  rewrite !of_Z_lt by assumption.
  destruct (Z.ltb_spec a b); [rewrite Z.min_l by lia; reflexivity|].
  destruct (Z.ltb_spec b a); [rewrite Z.min_r by lia; reflexivity|].
  assert (a = b) as -> by lia. rewrite Z.min_id.
  destruct (of_Z b) as [[] | | |]; reflexivity.
Qed.

Lemma StronglySorted_NoDup {A : Type} (R : A -> A -> Prop) (l : list A) :
  (forall x, ~ R x x) -> StronglySorted R l -> NoDup l.
Proof.
  intros Hirr. induction 1 as [| a l Hs IH Hf]; [constructor|].
  apply NoDup_cons. split; [|exact IH].
  intros Hin. apply list_elem_of_In in Hin.
  rewrite List.Forall_forall in Hf. apply (Hirr a), Hf, Hin.
Qed.

Lemma i32_of_list_small (l : list Z) (n : Z) :
  n < 2 ^ 31 -> Forall (fun j => 0 <= j < n) l -> i32_of_list l = l.
Proof.
  intros Hn Hl. unfold i32_of_list. induction Hl as [| j l Hj Hl IH]; [reflexivity|].
  cbn [map]. rewrite IH, toInt32_small by lia. reflexivity.
Qed.

(** The list the loop of [topKIndicesByYInterleaved] ends with. *)
Lemma topK_indices (data : Float32Array) (k : number) (mode : extremum_mode) :
  le k zero || (half_length data =? 0) = false ->
  topKIndicesByYInterleaved data k mode
  = fold_left (visitIdx data mode (Math_min k (of_Z (half_length data))))
              (map Z.of_nat (seq 0 (Z.to_nat (half_length data)))) [].
Proof.
  intros Hgo. unfold topKIndicesByYInterleaved. cbv zeta. rewrite Hgo.
  change (@nil Z, @nil number) with (@nil Z, map (yOf data) []).
  rewrite topK_fold_map. cbn [fst].
  pose proof (half_length_bound data) as Hn.
  pose proof (fold_ranked data mode (Math_min k (of_Z (half_length data)))
                          (Z.to_nat (half_length data))) as [Hf _].
  apply (i32_of_list_small _ (half_length data)); [lia|].
  rewrite List.Forall_forall in *. intros j Hj. destruct (Hf j Hj). lia.
Qed.

(** Whatever [k] is, the indices returned are distinct points of the
    buffer with a finite y, listed most extreme first, and equally extreme
    ones by increasing index. *)
Theorem topK_ranked (data : Float32Array) (k : number) (mode : extremum_mode) :
  let top := topKIndicesByYInterleaved data k mode in
  Forall (fun j => 0 <= j < half_length data /\ is_finite (yOf data j) = true) top /\
  StronglySorted (ranks_before data mode) top /\
  NoDup top.
Proof.
  cbv zeta.
  assert (forall x, ~ ranks_before data mode x x) as Hirr.
  { intros x [H1 H2]. specialize (H2 H1). lia. }
  destruct (le k zero || (half_length data =? 0)) eqn:Hgo.
  - unfold topKIndicesByYInterleaved. cbv zeta. rewrite Hgo.
    repeat split; constructor.
  - rewrite topK_indices by exact Hgo.
    pose proof (half_length_bound data) as Hn.
    pose proof (fold_ranked data mode (Math_min k (of_Z (half_length data)))
                            (Z.to_nat (half_length data))) as [Hf Hs].
    rewrite Z2Nat.id in Hf by lia.
    split; [exact Hf|]. split; [exact Hs|].
    eapply StronglySorted_NoDup; eauto.
Qed.

Lemma topK_integer (data : Float32Array) (K : Z) (mode : extremum_mode) :
  1 <= K < 2 ^ 52 -> half_length data <> 0 ->
  topKIndicesByYInterleaved data (of_Z K) mode
  = fold_left (visitIdx data mode (of_Z (Z.min K (half_length data))))
              (map Z.of_nat (seq 0 (Z.to_nat (half_length data)))) [].
Proof.
  intros HK Hn0. pose proof (half_length_bound data) as Hn.
  assert (0 <= K < 2 ^ 53) as HKR by (change (2 ^ 53) with (2 * 2 ^ 52); lia).
  rewrite topK_indices.
  - rewrite Math_min_of_Z by lia. reflexivity.
  - apply orb_false_iff. split; [|apply Z.eqb_neq; exact Hn0].
    change zero with (of_Z 0). unfold le, SFleb.
    rewrite of_Z_compare by lia.
    destruct (Z.compare_spec K 0); try lia; reflexivity.
Qed.

(** For an integer [k >= 1] the result has [k] entries, or as many as
    there are points with a finite y if those are fewer. *)
Theorem topK_count (data : Float32Array) (K : Z) (mode : extremum_mode) :
  1 <= K < 2 ^ 52 ->
  Z.of_nat (length (topKIndicesByYInterleaved data (of_Z K) mode))
  = Z.min K (finiteBelow data (Z.to_nat (half_length data))).
Proof.
  intros HK. pose proof (half_length_bound data) as Hn.
  destruct (Z.eq_dec (half_length data) 0) as [E | Hn0].
  - unfold topKIndicesByYInterleaved. cbv zeta. rewrite E.
    rewrite Z.eqb_refl, orb_true_r.
    change (finiteBelow data (Z.to_nat 0)) with 0. rewrite Z.min_r by lia. reflexivity.
  - rewrite topK_integer by assumption.
    destruct (fold_top data mode (Z.min K (half_length data))
                       (Z.to_nat (half_length data)) ltac:(lia)) as [Hlen _].
    rewrite Hlen.
    pose proof (finiteBelow_le data (Z.to_nat (half_length data))). lia.
Qed.

Lemma topK_count_witness :
  Z.of_nat (length (topKIndicesByYInterleaved
                      [of_Z 0; of_Z 5; of_Z 1; NaN; of_Z 2; of_Z 7; of_Z 3; of_Z 7]
                      (of_Z 2) ModeMax))
  = Z.min 2 (finiteBelow [of_Z 0; of_Z 5; of_Z 1; NaN; of_Z 2; of_Z 7; of_Z 3; of_Z 7]
                         (Z.to_nat (half_length
                            [of_Z 0; of_Z 5; of_Z 1; NaN; of_Z 2; of_Z 7; of_Z 3; of_Z 7]))).
Proof.
  apply (topK_count [of_Z 0; of_Z 5; of_Z 1; NaN; of_Z 2; of_Z 7; of_Z 3; of_Z 7] 2 ModeMax).
  lia.
Defined.

(** For an integer [k >= 1] nothing better is left out: every returned
    point ranks before every point with a finite y that is not returned. *)
Theorem topK_optimal (data : Float32Array) (K : Z) (mode : extremum_mode) (j m : Z) :
  1 <= K < 2 ^ 52 ->
  0 <= j < half_length data -> is_finite (yOf data j) = true ->
  ~ In j (topKIndicesByYInterleaved data (of_Z K) mode) ->
  In m (topKIndicesByYInterleaved data (of_Z K) mode) ->
  ranks_before data mode m j.
Proof.
  intros HK Hj Hfj. pose proof (half_length_bound data) as Hn.
  rewrite topK_integer by (try assumption; lia).
  intros Hnj Hm.
  destruct (fold_top data mode (Z.min K (half_length data))
                     (Z.to_nat (half_length data)) ltac:(lia)) as [_ Htop].
  apply (Htop j); try assumption. lia.
Qed.

Lemma topK_optimal_witness :
  ranks_before [of_Z 0; of_Z 5; of_Z 1; NaN; of_Z 2; of_Z 7; of_Z 3; of_Z 7] ModeMax 3 0.
Proof.
  apply (topK_optimal [of_Z 0; of_Z 5; of_Z 1; NaN; of_Z 2; of_Z 7; of_Z 3; of_Z 7]
                      2 ModeMax 0 3).
  - lia.
  - vm_compute. split; [discriminate | reflexivity].
  - vm_compute. reflexivity.
  - vm_compute. intros [H | [H | []]]; discriminate.
  - vm_compute. right. left. reflexivity.
Defined.

Lemma topK_nan_fold (data : Float32Array) (mode : extremum_mode) (l : list Z) :
  fold_left (topK_visit data mode NaN) l ([], []) = ([], []).
Proof.
  induction l as [| i l IH]; [reflexivity|].
  cbn [fold_left]. unfold topK_visit at 2. cbn [fst snd length last default].
  destruct (negb (is_finite _)); [exact IH|].
  change (lt (of_Z (Z.of_nat 0)) NaN) with false. cbv iota.
  replace (better mode (f32_get data (i * 2 + 1)) NaN) with false; [exact IH|].
  destruct mode, (f32_get data (i * 2 + 1)) as [[] | [] | | [] ? ?]; reflexivity.
Qed.

(** Nothing is returned for [k <= 0], for a buffer without a point, and
    for a NaN [k], which no length is below. *)
Theorem topK_empty (data : Float32Array) (k : number) (mode : extremum_mode) :
  le k zero = true \/ is_nan k = true \/ half_length data = 0 ->
  topKIndicesByYInterleaved data k mode = [].
Proof.
  intros H. unfold topKIndicesByYInterleaved. cbv zeta.
  destruct (le k zero || (half_length data =? 0)) eqn:Hgo; [reflexivity|].
  apply orb_false_iff in Hgo. destruct Hgo as [Hk Hn].
  destruct H as [H | [H | H]]; [congruence | | rewrite H in Hn; discriminate].
  destruct k; try discriminate. change (Math_min NaN ?b) with NaN.
  rewrite topK_nan_fold. reflexivity.
Qed.

Lemma topK_empty_witness :
  topKIndicesByYInterleaved [of_Z 0; of_Z 5; of_Z 1; of_Z 7] NaN ModeMin = [].
Proof.
  apply (topK_empty [of_Z 0; of_Z 5; of_Z 1; of_Z 7] NaN ModeMin).
  right. left. reflexivity.
Defined.

Lemma visitIdx_below_one (data : Float32Array) (mode : extremum_mode) (k : number)
      (I : list Z) (i : Z) :
  lt zero k = true -> lt k (of_Z 1) = true -> (length I <= 1)%nat ->
  visitIdx data mode k I i = visitIdx data mode (of_Z 1) I i.
Proof.
  intros H0 H1 HI.
  assert (gt k (of_Z 1) = false) as Hk1.
  { rewrite lt_gt in H1. apply gt_asym. exact H1. }
  assert (is_nan k = false) as Hk.
  { rewrite lt_gt in H1. apply (gt_true_not_nan _ _ H1). }
  assert (gt (of_Z 2) k = true) as Hk2.
  { apply (gt_le_trans k (of_Z 1) (of_Z 2) Hk); [reflexivity | exact Hk1]. }
  unfold visitIdx. destruct (negb (is_finite (yOf data i))); [reflexivity|].
  destruct I as [| m [| m' I]]; [| | cbn in HI; lia].
  - cbn [length]. change (of_Z (Z.of_nat 0)) with zero. rewrite H0. reflexivity.
  - cbn [length]. change (of_Z (Z.of_nat 1)) with (of_Z 1).
    rewrite (lt_gt (of_Z 1) k), Hk1.
    change (lt (of_Z 1) (of_Z 1)) with false. cbv iota.
    destruct (better mode _ _); [|reflexivity].
    unfold insertIdx. cbn [length Nat.eqb]. cbv zeta. rewrite !length_splice.
    cbn [length]. change (of_Z (Z.of_nat 2)) with (of_Z 2). rewrite Hk2. reflexivity.
Qed.

(** A [k] strictly between 0 and 1 is not rounded down to an empty
    result: the first point goes in without the length check, so the call
    returns what [k = 1] returns, one index whenever some y is finite. *)
Theorem topK_below_one (data : Float32Array) (k : number) (mode : extremum_mode) :
  lt zero k = true -> lt k (of_Z 1) = true ->
  topKIndicesByYInterleaved data k mode
  = topKIndicesByYInterleaved data (of_Z 1) mode.
Proof.
  intros H0 H1. pose proof (half_length_bound data) as Hn.
  destruct (Z.eq_dec (half_length data) 0) as [E | Hn0].
  - unfold topKIndicesByYInterleaved. cbv zeta.
    rewrite E, Z.eqb_refl, !orb_true_r. reflexivity.
  - assert (gt k (of_Z 1) = false) as Hk1.
    { rewrite lt_gt in H1. apply gt_asym. exact H1. }
    assert (is_nan k = false) as Hk.
    { rewrite lt_gt in H1. apply (gt_true_not_nan _ _ H1). }
    assert (le k zero = false) as Hle.
    { destruct (le k zero) eqn:E; [|reflexivity].
      apply le_not_gt in E. rewrite lt_gt in H0. congruence. }
    assert (Math_min k (of_Z (half_length data)) = k) as Hmin.
    { unfold Math_min. rewrite Hk, of_Z_not_nan by lia. cbn [orb].
      replace (lt k (of_Z (half_length data))) with true; [reflexivity|].
      symmetry. rewrite lt_gt.
      destruct (Z.eq_dec (half_length data) 1) as [-> | Hn1].
      - rewrite <- lt_gt. exact H1.
      - apply (gt_le_trans k (of_Z 1) _ Hk); [|exact Hk1].
        rewrite of_Z_gt by lia. apply Z.ltb_lt. lia. }
    rewrite topK_integer by (try assumption; lia).
    rewrite topK_indices, Hmin
      by (apply orb_false_iff; split; [exact Hle | apply Z.eqb_neq; exact Hn0]).
    rewrite Z.min_l by lia.
    set (c := Z.to_nat (half_length data)). clearbody c.
    induction c as [| c IH]; [reflexivity|].
    rewrite seq_S, map_app, !fold_left_app. cbn [map fold_left Nat.add].
    rewrite IH. apply visitIdx_below_one; try assumption.
    destruct (fold_top data mode 1 c ltac:(lia)) as [Hlen _].
    pose proof (finiteBelow_nonneg data c). lia.
Qed.

Lemma topK_below_one_witness :
  topKIndicesByYInterleaved [of_Z 0; of_Z 5; of_Z 1; of_Z 7] (div (of_Z 1) (of_Z 2)) ModeMax
  = topKIndicesByYInterleaved [of_Z 0; of_Z 5; of_Z 1; of_Z 7] (of_Z 1) ModeMax.
Proof.
  apply (topK_below_one [of_Z 0; of_Z 5; of_Z 1; of_Z 7] (div (of_Z 1) (of_Z 2)) ModeMax);
    reflexivity.
Defined.
